(** * Belt-wearable ECG pipeline: frame reader, windower, filter stage, inference stage

    A shallow embedding of the deployment pipeline
    ([deployment/deploy_acquisition.py], [deploy_segmentation.py],
    [deploy_filtering.py], [deploy_inference.py]) together with the
    properties stated for it.

    Conventions.
    - A serial port is the list of bytes that will still arrive; [ser.read(n)]
      takes up to [n] of them (a short read is a timeout).
    - A [multiprocessing.Queue] that a stage only writes to is the list of the
      items put so far, oldest first.
    - Python slices [l[a:b]] are [take (b - a) (drop a l)]. *)

From Stdlib Require Import ZArith QArith Qround Qminmax Floats.
From Stdlib.Strings Require Import Byte.
From stdpp Require Import gmap strings list.

#[global] Instance byte_eq_dec : EqDecision byte := Byte.byte_eq_dec.

(** [l[a:b]] for [0 <= a], [0 <= b]. *)
Definition slice {A} (a b : nat) (l : list A) : list A := take (b - a) (drop a l).

(** The five severities used on the status queue. *)
Inductive level := DEBUG | INFO | WARN | ERROR | STATUS.

(** What a Python call yields when the interpreter's stack may run out. *)
Inductive py_result (A : Type) :=
| Returned (a : A)
| RecursionError.
Arguments Returned {A} a.
Arguments RecursionError {A}.

(** The exceptions that the modelled code can meet. *)
Inductive exception :=
| StructError
| IndexError
| ValueError
| KeyError
| LibraryError (what : string).

(** A computation that returns or raises. *)
Inductive result (A : Type) :=
| Ok (a : A)
| Raise (e : exception).
Arguments Ok {A} a.
Arguments Raise {A} e.

#[global] Instance result_ret : MRet result := @Ok.
#[global] Instance result_bind : MBind result :=
  λ A B f m, match m with Ok a => f a | Raise e => Raise e end.

(** The part of numpy's float arithmetic the pipeline uses.  It is
    instantiated below with IEEE binary64 numbers, the arithmetic of the
    code, and with exact rationals, which serve to run the stages on small
    concrete inputs. *)
Class FloatOps (V : Type) := {
  f_add : V → V → V;
  f_sub : V → V → V;
  f_div : V → V → V;
  f_min : V → V → V;
  f_max : V → V → V;
  f_ltb : V → V → bool;
  f_eps : V;
  f_of_Z : Z → V;
  f_float32 : V → V;
  f_isfinite : V → bool
}.

(** [np.min], [np.max] and [np.argmax] of a one-dimensional array; each
    raises [ValueError] on an empty one, and [np.argmax] returns the first
    position of the maximum. *)
Definition np_min `{FloatOps V} (a : list V) : result V :=
  match a with
  | [] => Raise ValueError
  | x :: a' => Ok (foldl f_min x a')
  end.

Definition np_max `{FloatOps V} (a : list V) : result V :=
  match a with
  | [] => Raise ValueError
  | x :: a' => Ok (foldl f_max x a')
  end.

Fixpoint argmax_from `{FloatOps V} (best_i : nat) (best : V) (i : nat) (a : list V)
  : nat :=
  match a with
  | [] => best_i
  | x :: a' =>
      if f_ltb best x then argmax_from i x (S i) a'
      else argmax_from best_i best (S i) a'
  end.

Definition np_argmax `{FloatOps V} (a : list V) : result nat :=
  match a with
  | [] => Raise ValueError
  | x :: a' => Ok (argmax_from 0 x 1 a')
  end.

(** [a[0]] *)
Definition index0 {A} (a : list A) : result A :=
  match a with
  | [] => Raise IndexError
  | x :: _ => Ok x
  end.

(** [int(x)] on a float: truncation towards zero. *)
Definition py_int (x : Q) : Z :=
  if Qle_bool 0 x then Qfloor x else Qceiling x.

(* ===================================================================== *)
(** ** deploy_acquisition.py *)
(* ===================================================================== *)

Module AcquisitionProcess.

Definition BUFFER_SIZE : nat := 256.
(** [b"MARKER"] *)
Definition MARKER : list byte := [x4d; x41; x52; x4b; x45; x52].
Definition PACKET_DATA_SIZE : nat := BUFFER_SIZE * 6.
Definition PACKET_SIZE : nat := length MARKER + PACKET_DATA_SIZE.

(** The texts [_read_packet] puts on the status queue (the f-strings'
    arguments are kept as data). *)
Inductive status_text :=
| SyncLostGot (marker : list byte)
| SyncLostIncomplete (n : nat)
| IncompletePacket (got expected : nat).

Record state := mk_state {
  ser : list byte;
  status_queue : list (level * status_text)
}.

(** [self.ser.read(n)] *)
Definition ser_read (n : nat) (st : state) : list byte * state :=
  (take n (ser st), mk_state (drop n (ser st)) (status_queue st)).

(** [self.status_queue.put(m)] *)
Definition status_put (m : level * status_text) (st : state) : state :=
  mk_state (ser st) (status_queue st ++ [m]).

(** First loop of [_find_marker]: read single bytes until the buffer holds
    [len(MARKER)] of them; [None] when a read comes back empty. *)
Fixpoint find_marker_fill (buffer : list byte) (s : list byte)
  : option (list byte) * list byte :=
  if decide (length buffer < length MARKER) then
    match s with
    | [] => (None, [])
    | b :: s' => find_marker_fill (buffer ++ [b]) s'
    end
  else (Some buffer, s).

(** Second loop of [_find_marker]: compare the last [len(MARKER)] bytes,
    read one more byte, give up once the buffer is longer than 1000. *)
Fixpoint find_marker_scan (buffer : list byte) (s : list byte)
  : bool * list byte :=
  if decide (drop (length buffer - length MARKER) buffer = MARKER) then (true, s)
  else
    match s with
    | [] => (false, [])
    | b :: s' =>
        let buffer' := buffer ++ [b] in
        if decide (1000 < length buffer') then (false, s')
        else find_marker_scan buffer' s'
    end.

Definition _find_marker (st : state) : bool * state :=
  match find_marker_fill [] (ser st) with
  | (None, s) => (false, mk_state s (status_queue st))
  | (Some buffer, s) =>
      let (found, s') := find_marker_scan buffer s in
      (found, mk_state s' (status_queue st))
  end.

(** [_read_packet] calls itself after a successful [_find_marker]; [limit] is
    the number of stack frames the interpreter still grants, and the call
    raises [RecursionError] when none is left. *)
Fixpoint _read_packet (limit : nat) (st : state)
  : py_result (option (list byte) * state) :=
  match limit with
  | 0 => RecursionError
  | S limit' =>
      let (marker, st) := ser_read (length MARKER) st in
      if decide (marker ≠ MARKER) then
        let st :=
          if decide (length marker = length MARKER)
          then status_put (WARN, SyncLostGot marker) st
          else status_put (WARN, SyncLostIncomplete (length marker)) st in
        let (found, st) := _find_marker st in
        if found then _read_packet limit' st
        else Returned (None, st)
      else
        let (data, st) := ser_read PACKET_DATA_SIZE st in
        if decide (length data ≠ PACKET_DATA_SIZE) then
          Returned (None,
                    status_put (WARN, IncompletePacket (length data) PACKET_DATA_SIZE) st)
        else Returned (Some data, st)
  end.

End AcquisitionProcess.

(* ===================================================================== *)
(** ** deploy_segmentation.py *)
(* ===================================================================== *)

Module SegmentationProcess.

Definition BUFFER_SIZE : nat := 256.
Definition SEGMENT_SIZE : nat := 1024.
Definition OVERLAP_SIZE : nat := 256.
Definition EXTENDED_SEGMENT_SIZE : nat := SEGMENT_SIZE + (2 * OVERLAP_SIZE).
Definition STEP_SIZE : nat := SEGMENT_SIZE.
Definition PACKETS_PER_SEGMENT : nat := SEGMENT_SIZE / BUFFER_SIZE.

(** [(timestamp_ms, adc_value)] *)
Definition sample : Type := Z * Z.

Definition byte_val (b : byte) : Z := Z.of_N (Byte.to_N b).

(** [struct.unpack('<IH', chunk)]: a little-endian u32 followed by a
    little-endian u16; [struct.error] unless the chunk has six bytes. *)
Definition unpack_IH (chunk : list byte) : option sample :=
  match chunk with
  | [b0; b1; b2; b3; b4; b5] =>
      Some (Z.lor (byte_val b0)
              (Z.lor (Z.shiftl (byte_val b1) 8)
                 (Z.lor (Z.shiftl (byte_val b2) 16) (Z.shiftl (byte_val b3) 24))),
            Z.lor (byte_val b4) (Z.shiftl (byte_val b5) 8))
  | _ => None
  end.

(** [range(0, stop, step)] *)
Definition range_step (stop step : nat) : list nat :=
  (λ k, k * step) <$> seq 0 ((stop + step - 1) / step).

(** [_unpack_packet]; [None] stands for the [struct.error] of a short
    last chunk. *)
Definition _unpack_packet (packet_data : list byte) : option (list sample) :=
  mapM (λ i, unpack_IH (slice i (i + 6) packet_data))
       (range_step (length packet_data) 6).

(** Storing into [np.uint32] and [np.uint16] arrays. *)
Definition uint32 (x : Z) : Z := x mod 2 ^ 32.
Definition uint16 (x : Z) : Z := x mod 2 ^ 16.

(** The dictionary built by [_create_segment]. *)
Record segment := mk_segment {
  segment_id : nat;
  extended_timestamp_ms : list Z;
  extended_adc_value : list Z;
  timestamp_ms : list Z;
  core_start_idx : nat;
  core_end_idx : nat;
  start_time : Z;
  end_time : Z;
  sample_count : nat
}.

Inductive status_text :=
| Started
| SegmentsCreated (n : nat)
| SegmentationError (e : exception).

Record state := mk_state {
  segment_buffer : list sample;
  overlap_buffer : list sample;
  segment_count : nat;
  segment_queue : list segment;
  status_queue : list (level * status_text)
}.

(** [__init__] *)
Definition init : state := mk_state [] [] 0 [] [].

(** [_create_segment]: the segment and the updated buffers and counter;
    [None] is the [IndexError] of [core_timestamps[0]] on an empty core,
    raised before anything is updated. *)
Definition _create_segment (st : state) : option (segment * state) :=
  let extended_samples :=
    overlap_buffer st ++ slice 0 (SEGMENT_SIZE + OVERLAP_SIZE) (segment_buffer st) in
  let extended_timestamps := (λ s : sample, uint32 s.1) <$> extended_samples in
  let extended_adc := (λ s : sample, uint16 s.2) <$> extended_samples in
  let core_start := length (overlap_buffer st) in
  let core_end := core_start + SEGMENT_SIZE in
  let core_timestamps := slice core_start core_end extended_timestamps in
  match head core_timestamps, last core_timestamps with
  | Some t_first, Some t_last =>
      let seg := {| segment_id := segment_count st;
                    extended_timestamp_ms := extended_timestamps;
                    extended_adc_value := extended_adc;
                    timestamp_ms := core_timestamps;
                    core_start_idx := core_start;
                    core_end_idx := core_end;
                    start_time := t_first;
                    end_time := t_last;
                    sample_count := SEGMENT_SIZE |} in
      Some (seg,
            {| segment_buffer := drop SEGMENT_SIZE (segment_buffer st);
               overlap_buffer :=
                 slice SEGMENT_SIZE (SEGMENT_SIZE + OVERLAP_SIZE) (segment_buffer st);
               segment_count := segment_count st + 1;
               segment_queue := segment_queue st;
               status_queue := status_queue st |})
  | _, _ => None
  end.

Definition status_put (m : level * status_text) (st : state) : state :=
  {| segment_buffer := segment_buffer st; overlap_buffer := overlap_buffer st;
     segment_count := segment_count st; segment_queue := segment_queue st;
     status_queue := status_queue st ++ [m] |}.

Definition segment_put (seg : segment) (st : state) : state :=
  {| segment_buffer := segment_buffer st; overlap_buffer := overlap_buffer st;
     segment_count := segment_count st; segment_queue := segment_queue st ++ [seg];
     status_queue := status_queue st |}.

Definition buffer_extend (samples : list sample) (st : state) : state :=
  {| segment_buffer := segment_buffer st ++ samples;
     overlap_buffer := overlap_buffer st;
     segment_count := segment_count st; segment_queue := segment_queue st;
     status_queue := status_queue st |}.

(** One pass through the body of the [while] loop of [segmentation_loop]
    with a packet taken from the queue. *)
Definition segmentation_step (st : state) (item : list byte * Q) : state :=
  let (packet_data, arrival_time) := item in
  match _unpack_packet packet_data with
  | None => status_put (ERROR, SegmentationError StructError) st
  | Some samples =>
      let st := buffer_extend samples st in
      if decide (SEGMENT_SIZE + OVERLAP_SIZE ≤ length (segment_buffer st)) then
        match _create_segment st with
        | None => status_put (ERROR, SegmentationError IndexError) st
        | Some (seg, st) =>
            let st := segment_put seg st in
            if decide (segment_count st mod 10 = 0)
            then status_put (DEBUG, SegmentsCreated (segment_count st)) st
            else st
        end
      else st
  end.

(** [segmentation_loop] over the packets that arrive while it runs. *)
Definition segmentation_loop (packets : list (list byte * Q)) (st : state) : state :=
  foldl segmentation_step (status_put (INFO, Started) st) packets.

End SegmentationProcess.

(* ===================================================================== *)
(** ** deploy_filtering.py *)
(* ===================================================================== *)

Module FilteringProcess.

Definition ADC_RESOLUTION : Z := 16.
Definition ADC_MAX_VALUE : Z := Z.shiftl 1 ADC_RESOLUTION - 1.

Definition FIR_PASSBAND_HZ : Q := 150.
Definition FIR_STOPBAND_HZ : Q := 180.
Definition FIR_PASSBAND_RIPPLE_DB : Q := 0.5.
Definition FIR_STOPBAND_ATTEN_DB : Q := 40.

Definition HPF_PASSBAND_HZ : Q := 1.0.
Definition HPF_STOPBAND_HZ : Q := 0.05.
Definition HPF_PASSBAND_RIPPLE_DB : Q := 0.5.
Definition HPF_STOPBAND_ATTEN_DB : Q := 40.

Definition NOTCH_FREQ_HZ : Q := 61.0.
Definition NOTCH_Q : Q := 10.0.

Definition SAMPLE_RATE_HZ : Q := 360.

(** [np.pi], the binary64 number nearest to pi. *)
Definition np_pi : Q := 884279719003555 # 281474976710656.

(** The tap count of [apply_fir_lowpass]. *)
Definition fir_numtaps : nat :=
  let nyquist := (SAMPLE_RATE_HZ / 2)%Q in
  let width := ((FIR_STOPBAND_HZ - FIR_PASSBAND_HZ) / nyquist)%Q in
  let numtaps :=
    Z.to_nat (Qceiling ((FIR_STOPBAND_ATTEN_DB - 7.95) / (2.285 * width * np_pi))%Q) + 1 in
  if decide (numtaps mod 2 = 0) then numtaps + 1 else numtaps.

(** The dictionary built by [process_segment]. *)
Record processed_segment (V : Type) := mk_processed {
  segment_id : nat;
  timestamp_ms : list Z;
  start_time : Z;
  end_time : Z;
  raw_signal : list Z;
  filtered_signal : list V;
  processed_signal : list V;
  sample_count : nat
}.
Arguments mk_processed {V}.
Arguments segment_id {V}.
Arguments timestamp_ms {V}.
Arguments start_time {V}.
Arguments end_time {V}.
Arguments raw_signal {V}.
Arguments filtered_signal {V}.
Arguments processed_signal {V}.
Arguments sample_count {V}.

Inductive status_text :=
| Started
| Processed (n : nat)
| FilteringError (e : exception).

Record state (V : Type) := mk_state {
  inference_queue : list (processed_segment V);
  status_queue : list (level * status_text);
  processed_count : nat
}.
Arguments mk_state {V}.
Arguments inference_queue {V}.
Arguments status_queue {V}.
Arguments processed_count {V}.

(** [__init__] *)
Definition init {V : Type} : state V := mk_state [] [] 0.

Section Pipeline.

Context {V : Type} `{FloatOps V}.

(** [scipy.signal], taken as given: the three filter designs return
    coefficients, [filtfilt] is the forward-backward (zero-phase) application,
    and each of them may raise. *)
Context {coeffs : Type}.
Variable sp_iirnotch : Q → Q → Q → result coeffs.
Variable sp_remez : nat → list Q → list Q → Q → list Q → result coeffs.
Variable sp_ellipord : Q → Q → Q → Q → result (nat * Q).
Variable sp_ellip_high : nat → Q → Q → Q → result coeffs.
Variable sp_filtfilt : coeffs → list V → result (list V).

Definition apply_fir_lowpass (signal_data : list V) : result (list V) :=
  let nyquist := (SAMPLE_RATE_HZ / 2)%Q in
  let bands := [0%Q; FIR_PASSBAND_HZ; FIR_STOPBAND_HZ; nyquist] in
  let desired := [1%Q; 0%Q] in
  let passband_weight := 1.0%Q in
  let stopband_weight := (10 ^ 2)%Q in
  b ← sp_remez fir_numtaps bands desired SAMPLE_RATE_HZ
        [passband_weight; stopband_weight];
  sp_filtfilt b signal_data.

Definition apply_iir_highpass (signal_data : list V) : result (list V) :=
  let nyquist := (SAMPLE_RATE_HZ / 2)%Q in
  let wp := (HPF_PASSBAND_HZ / nyquist)%Q in
  let ws := (HPF_STOPBAND_HZ / nyquist)%Q in
  '(N, Wn) ← sp_ellipord wp ws HPF_PASSBAND_RIPPLE_DB HPF_STOPBAND_ATTEN_DB;
  ba ← sp_ellip_high N HPF_PASSBAND_RIPPLE_DB HPF_STOPBAND_ATTEN_DB Wn;
  sp_filtfilt ba signal_data.

Definition apply_notch_filter (signal_data : list V) : result (list V) :=
  ba ← sp_iirnotch NOTCH_FREQ_HZ NOTCH_Q SAMPLE_RATE_HZ;
  sp_filtfilt ba signal_data.

Definition normalize_segment (signal_data : list V) : result (list V) :=
  min_val ← np_min signal_data;
  max_val ← np_max signal_data;
  Ok ((λ x, f_div (f_sub x min_val) (f_add (f_sub max_val min_val) f_eps))
        <$> signal_data).

Definition apply_filtering_pipeline (signal : list Z) : result (list V) :=
  let signal_float := (λ x, f_float32 (f_of_Z x)) <$> signal in
  filtered ← apply_notch_filter signal_float;
  filtered ← apply_fir_lowpass filtered;
  filtered ← apply_iir_highpass filtered;
  Ok filtered.

Definition process_segment (segment : SegmentationProcess.segment)
  : result (processed_segment V) :=
  let segment_id := SegmentationProcess.segment_id segment in
  let extended_adc := SegmentationProcess.extended_adc_value segment in
  let core_timestamps := SegmentationProcess.timestamp_ms segment in
  let core_start_idx := SegmentationProcess.core_start_idx segment in
  let core_end_idx := SegmentationProcess.core_end_idx segment in
  filtered_extended ← apply_filtering_pipeline extended_adc;
  let filtered_core := slice core_start_idx core_end_idx filtered_extended in
  let raw_core := slice core_start_idx core_end_idx extended_adc in
  normalized_signal ← normalize_segment filtered_core;
  Ok {| segment_id := segment_id;
        timestamp_ms := core_timestamps;
        start_time := SegmentationProcess.start_time segment;
        end_time := SegmentationProcess.end_time segment;
        raw_signal := raw_core;
        filtered_signal := filtered_core;
        processed_signal := normalized_signal;
        sample_count := SegmentationProcess.sample_count segment |}.

Definition status_put (m : level * status_text) (st : state V) : state V :=
  mk_state (inference_queue st) (status_queue st ++ [m]) (processed_count st).

(** One pass through the body of the [while] loop of [filtering_loop] with a
    segment taken from the queue: the [try] block, then [except Exception]. *)
Definition filtering_step (st : state V) (segment : SegmentationProcess.segment)
  : state V :=
  match process_segment segment with
  | Ok processed =>
      let st := mk_state (inference_queue st ++ [processed]) (status_queue st)
                         (processed_count st + 1) in
      if decide (processed_count st mod 10 = 0)
      then status_put (DEBUG, Processed (processed_count st)) st
      else st
  | Raise e => status_put (ERROR, FilteringError e) st
  end.

Definition filtering_loop (segments : list SegmentationProcess.segment)
  (st : state V) : state V :=
  foldl filtering_step (status_put (INFO, Started) st) segments.

End Pipeline.

End FilteringProcess.

(* ===================================================================== *)
(** ** deploy_inference.py *)
(* ===================================================================== *)

Module InferenceProcess.

Definition RHYTHM_CLASSES : gmap nat string :=
  {[ 0 := "NSR"; 1 := "AFIB"; 2 := "PVC"; 3 := "LBBB" ]}.

Definition BUZZER_PIN : nat := 6.

(** The dictionary returned by [run_inference]. *)
Record prediction (V : Type) := mk_prediction {
  class : nat;
  label : string;
  confidence : V
}.
Arguments mk_prediction {V}.
Arguments class {V}.
Arguments label {V}.
Arguments confidence {V}.

(** A cell of a CSV row; [CFixed4 v] is [f"{v:.4f}"]. *)
Inductive cell (V : Type) :=
| CText (s : string)
| CInt (z : Z)
| CFloat (v : V)
| CFixed4 (v : V).
Arguments CText {V}.
Arguments CInt {V}.
Arguments CFloat {V}.
Arguments CFixed4 {V}.

Inductive status_text :=
| Started
| SessionStart (name : string)
| SignalFile (path : string)
| RhythmFile (path : string)
| Saved (name : option string) (duration : Z)
| SessionStop (name : option string)
| SamplesWritten (n : nat)
| InferencesPerformed (n : nat)
| Rhythm (label : string) (duration : option Z)
| Inferences (n : nat)
| InferenceFailed (e : exception).

(** The fields of [InferenceProcess] that the loop reads or writes.  A CSV
    file and its writer are one field holding the path while the file is
    open; [files] is the content of the output directory, a list of rows per
    path; [buzzer] is the on/off history of the GPIO line when there is one. *)
Record state (V interp : Type) := mk_state {
  signal_file : option string;
  filtered_file : option string;
  annotation_file : option string;
  current_session : option string;
  buzzer : option (list bool);
  interpreter : option interp;
  inference_count : nat;
  samples_written : nat;
  recording_start_time : option Q;
  recording_duration : Z;
  files : gmap string (list (list (cell V)));
  status_queue : list (level * status_text)
}.
Arguments mk_state {V interp}.
Arguments signal_file {V interp}.
Arguments filtered_file {V interp}.
Arguments annotation_file {V interp}.
Arguments current_session {V interp}.
Arguments buzzer {V interp}.
Arguments interpreter {V interp}.
Arguments inference_count {V interp}.
Arguments samples_written {V interp}.
Arguments recording_start_time {V interp}.
Arguments recording_duration {V interp}.
Arguments files {V interp}.
Arguments status_queue {V interp}.

(** [__init__], before [setup] loads the model and the buzzer. *)
Definition init {V interp : Type} : state V interp :=
  mk_state None None None None None None 0 0 None 0 ∅ [].

(** What one pass of the loop of [inference_loop] finds: the control queue's
    [get_nowait], the inference queue's [get(timeout=0.1)], and the clock,
    as [time.time()] and as [strftime("%d%m%y_%H%M%S")]. *)
Record tick (V : Type) := mk_tick {
  control : option string;
  segment : option (FilteringProcess.processed_segment V);
  now : Q;
  stamp : string
}.
Arguments mk_tick {V}.
Arguments control {V}.
Arguments segment {V}.
Arguments now {V}.
Arguments stamp {V}.

Section Inference.

Context {V : Type} `{FloatOps V}.

(** The TFLite interpreter, taken as given; every call may raise. *)
Context {interp : Type}.
Variable get_input_details : interp → result (list nat).
Variable get_output_details : interp → result (list nat).
Variable set_tensor : nat → list V → interp → result interp.
Variable invoke : interp → result interp.
Variable get_tensor : nat → interp → result (list (list V)).

Variable output_dir : string.

Local Abbreviation state := (state V interp).

Definition status_put (m : level * status_text) (st : state) : state :=
  mk_state (signal_file st) (filtered_file st) (annotation_file st)
    (current_session st) (buzzer st) (interpreter st) (inference_count st)
    (samples_written st) (recording_start_time st) (recording_duration st)
    (files st) (status_queue st ++ [m]).

Definition set_files (fs : gmap string (list (list (cell V)))) (st : state) : state :=
  mk_state (signal_file st) (filtered_file st) (annotation_file st)
    (current_session st) (buzzer st) (interpreter st) (inference_count st)
    (samples_written st) (recording_start_time st) (recording_duration st)
    fs (status_queue st).

(** [writer.writerow(row)] on the file at [path] *)
Definition writerow (path : string) (row : list (cell V)) (st : state) : state :=
  set_files (<[path := default [] (files st !! path) ++ [row]]> (files st)) st.

(** [open(path, 'w', newline='')] *)
Definition open_w (path : string) (st : state) : state :=
  set_files (<[path := []]> (files st)) st.

Definition signal_path (session_name : string) : string :=
  output_dir +:+ "/" +:+ session_name +:+ "_signal.csv".
Definition filtered_path (session_name : string) : string :=
  output_dir +:+ "/" +:+ session_name +:+ "_filtered.csv".
Definition annotation_path (session_name : string) : string :=
  output_dir +:+ "/" +:+ session_name +:+ "_rhythm.csv".

Definition signal_header : list (cell V) := [CText "timestamp_ms"; CText "adc_value"].
Definition annotation_header : list (cell V) :=
  [CText "segment_id"; CText "start_time_ms"; CText "end_time_ms";
   CText "rhythm_class"; CText "rhythm_label"; CText "confidence"].

Definition start_session (session_name : string) (time_now : Q) (st : state) : state :=
  let st := mk_state (signal_file st) (filtered_file st) (annotation_file st)
              (Some session_name) (buzzer st) (interpreter st) (inference_count st)
              (samples_written st) (Some time_now) 0 (files st) (status_queue st) in
  let st := writerow (signal_path session_name) signal_header
              (open_w (signal_path session_name) st) in
  let st := writerow (filtered_path session_name) signal_header
              (open_w (filtered_path session_name) st) in
  let st := writerow (annotation_path session_name) annotation_header
              (open_w (annotation_path session_name) st) in
  let st := mk_state (Some (signal_path session_name))
              (Some (filtered_path session_name))
              (Some (annotation_path session_name))
              (current_session st) (buzzer st) (interpreter st) (inference_count st)
              (samples_written st) (recording_start_time st) (recording_duration st)
              (files st) (status_queue st) in
  let st := status_put (STATUS, SessionStart session_name) st in
  let st := status_put (INFO, SignalFile (signal_path session_name)) st in
  status_put (INFO, RhythmFile (annotation_path session_name)) st.

(** The truth value of [self.recording_start_time]. *)
Definition started_at (st : state) : option Q :=
  match recording_start_time st with
  | Some t => if Qeq_bool t 0 then None else Some t
  | None => None
  end.

Definition stop_session (time_now : Q) (st : state) : state :=
  let duration :=
    match started_at st with
    | Some t => py_int (time_now - t)
    | None => recording_duration st
    end in
  let st := mk_state None None None
              (current_session st) (buzzer st) (interpreter st) (inference_count st)
              (samples_written st) (recording_start_time st) duration
              (files st) (status_queue st) in
  let st := status_put (STATUS, Saved (current_session st) (recording_duration st)) st in
  let st := status_put (STATUS, SessionStop (current_session st)) st in
  let st := status_put (INFO, SamplesWritten (samples_written st)) st in
  let st := status_put (INFO, InferencesPerformed (inference_count st)) st in
  mk_state (signal_file st) (filtered_file st) (annotation_file st)
    None (buzzer st) (interpreter st) 0 0
    (recording_start_time st) (recording_duration st) (files st) (status_queue st).

(** The prediction returned when no model is loaded and when invocation
    fails. *)
Definition default_prediction : prediction V :=
  {| class := 0; label := "NSR"; confidence := f_of_Z 0 |}.

(** [processed_signal.reshape(1, 1024, 1).astype(np.float32)] *)
Definition reshape_1_1024_1 (processed_signal : list V) : result (list V) :=
  if decide (length processed_signal = 1024)
  then Ok (f_float32 <$> processed_signal)
  else Raise ValueError.

(** The [try] block of [run_inference]. *)
Definition invoke_model (it : interp) (processed_signal : list V)
  : result (prediction V) :=
  input_details ← get_input_details it;
  output_details ← get_output_details it;
  input_data ← reshape_1_1024_1 processed_signal;
  input_index ← index0 input_details;
  it ← set_tensor input_index input_data it;
  it ← invoke it;
  output_index ← index0 output_details;
  output_data ← get_tensor output_index it;
  row ← index0 output_data;
  predicted_class ← np_argmax row;
  confidence ← np_max row;
  label ← match RHYTHM_CLASSES !! predicted_class with
          | Some l => Ok l
          | None => Raise KeyError
          end;
  Ok {| class := predicted_class; label := label; confidence := confidence |}.

Definition run_inference (processed_signal : list V) (st : state)
  : prediction V * state :=
  match interpreter st with
  | None => (default_prediction, st)
  | Some it =>
      match invoke_model it processed_signal with
      | Ok p => (p, st)
      | Raise e => (default_prediction, status_put (ERROR, InferenceFailed e) st)
      end
  end.

Definition write_signal_samples (segment : FilteringProcess.processed_segment V)
  (st : state) : state :=
  match signal_file st with
  | None => st
  | Some sig =>
      let timestamps := FilteringProcess.timestamp_ms segment in
      let raw_values := FilteringProcess.raw_signal segment in
      let filtered_values := FilteringProcess.filtered_signal segment in
      let st := foldl (λ st r, writerow sig [CInt r.1; CInt r.2] st) st
                  (zip timestamps raw_values) in
      let st :=
        match filtered_file st with
        | Some fil =>
            foldl (λ st r, writerow fil [CInt r.1; CFloat r.2] st) st
              (zip timestamps filtered_values)
        | None => st
        end in
      mk_state (signal_file st) (filtered_file st) (annotation_file st)
        (current_session st) (buzzer st) (interpreter st) (inference_count st)
        (samples_written st + length timestamps)
        (recording_start_time st) (recording_duration st) (files st) (status_queue st)
  end.

(** The on/off pattern of [_buzzer_alert]. *)
Definition _buzzer_alert (rhythm_class : nat) : list bool :=
  match rhythm_class with
  | 1 => [true; false; true; false; true; false]
  | 2 => [true; false; true; false]
  | 3 => [true; false]
  | _ => []
  end.

Definition write_rhythm_annotation (segment : FilteringProcess.processed_segment V)
  (p : prediction V) (time_now : Q) (st : state) : state :=
  match annotation_file st with
  | None => st
  | Some ann =>
      let st := writerow ann
                  [CInt (Z.of_nat (FilteringProcess.segment_id segment));
                   CInt (FilteringProcess.start_time segment);
                   CInt (FilteringProcess.end_time segment);
                   CInt (Z.of_nat (class p)); CText (label p);
                   CFixed4 (confidence p)] st in
      let st :=
        match buzzer st with
        | Some trace =>
            if decide (class p ≠ 0) then
              mk_state (signal_file st) (filtered_file st) (annotation_file st)
                (current_session st) (Some (trace ++ _buzzer_alert (class p)))
                (interpreter st) (inference_count st) (samples_written st)
                (recording_start_time st) (recording_duration st) (files st)
                (status_queue st)
            else st
        | None => st
        end in
      match started_at st with
      | Some t => status_put (STATUS, Rhythm (label p) (Some (py_int (time_now - t)))) st
      | None => status_put (STATUS, Rhythm (label p) None) st
      end
  end.

Definition process_segment (segment : FilteringProcess.processed_segment V)
  (time_now : Q) (st : state) : state :=
  let (p, st) := run_inference (FilteringProcess.processed_signal segment) st in
  let st := write_signal_samples segment st in
  let st := write_rhythm_annotation segment p time_now st in
  mk_state (signal_file st) (filtered_file st) (annotation_file st)
    (current_session st) (buzzer st) (interpreter st) (inference_count st + 1)
    (samples_written st) (recording_start_time st) (recording_duration st)
    (files st) (status_queue st).

(** One pass through the body of the [while] loop of [inference_loop]; the
    second component is the local [session_active]. *)
Definition inference_iteration (s : state * bool) (t : tick V) : state * bool :=
  let (st, session_active) := s in
  let (st, session_active) :=
    match control t with
    | Some msg =>
        if decide (msg = "STOP_SESSION" ∧ session_active = true)
        then (stop_session (now t) st, false)
        else (st, session_active)
    | None => (st, session_active)
    end in
  match segment t with
  | None => (st, session_active)
  | Some seg =>
      let st :=
        if session_active then st
        else start_session ("ecg_" +:+ stamp t) (now t) st in
      let st := process_segment seg (now t) st in
      let st :=
        if decide (inference_count st mod 10 = 0)
        then status_put (DEBUG, Inferences (inference_count st)) st
        else st in
      (st, true)
  end.

(** [inference_loop] over the passes made while it runs; [time_end] is the
    clock when the loop is left. *)
Definition inference_loop (ticks : list (tick V)) (time_end : Q) (st : state)
  : state :=
  let (st, session_active) :=
    foldl inference_iteration (status_put (INFO, Started) st, false) ticks in
  if session_active then stop_session time_end st else st.

End Inference.

End InferenceProcess.

(** *** The two arithmetics *)

(** Exact rationals, to run the stages on concrete inputs.  What is stated
    of the arithmetic itself is stated for binary64, below. *)
#[global] Instance Q_ops : FloatOps Q := {|
  f_add := Qplus; f_sub := Qminus; f_div := Qdiv;
  f_min := Qmin; f_max := Qmax;
  f_ltb := λ x y, negb (Qle_bool y x);
  f_eps := 1 # 100000000;
  f_of_Z := inject_Z;
  f_float32 := λ x, x;
  f_isfinite := λ _, true
|}.

(** A positive integer below [2^53] as a binary64 number. *)
Fixpoint float_of_pos (p : positive) : float :=
  match p with
  | xH => 1%float
  | xO p => (2 * float_of_pos p)%float
  | xI p => (2 * float_of_pos p + 1)%float
  end.

Definition float_of_Z (z : Z) : float :=
  match z with
  | Z0 => 0%float
  | Zpos p => float_of_pos p
  | Zneg p => (- float_of_pos p)%float
  end.

Definition float_isfinite (x : float) : bool :=
  negb (PrimFloat.is_nan x) && negb (PrimFloat.is_infinity x).

(** numpy's [minimum] and [maximum] hand a NaN operand through. *)
Definition float_min (x y : float) : float :=
  if PrimFloat.is_nan x then x else if PrimFloat.is_nan y then y
  else if PrimFloat.ltb y x then y else x.

Definition float_max (x y : float) : float :=
  if PrimFloat.is_nan x then x else if PrimFloat.is_nan y then y
  else if PrimFloat.ltb x y then y else x.

(** [astype(np.float32)]: the binary64 number is rounded to the nearest
    binary32 number, ties to even, and to an infinity beyond the binary32
    range; the result is held as the binary64 number of the same value. *)
Definition float_float32 (x : float) : float :=
  match Prim2SF x with
  | S754_finite s m e => SF2Prim (binary_round 24 128 s m e)
  | _ => x
  end.

(** The comparison of [np.argmax]: a NaN counts as the maximum, so the
    position returned is that of the first NaN when there is one. *)
Definition float_argmax_lt (best x : float) : bool :=
  if PrimFloat.is_nan best then false
  else if PrimFloat.is_nan x then true
  else PrimFloat.ltb best x.

(** IEEE binary64, the [float64] of numpy; [1e-8] is the nearest binary64
    number, as in Python. *)
#[global] Instance float_ops : FloatOps float := {|
  f_add := PrimFloat.add; f_sub := PrimFloat.sub; f_div := PrimFloat.div;
  f_min := float_min; f_max := float_max;
  f_ltb := float_argmax_lt;
  f_eps := 0x1.5798ee2308c3ap-27%float;
  f_of_Z := float_of_Z;
  f_float32 := float_float32;
  f_isfinite := float_isfinite
|}.

(* ===================================================================== *)
(** * Vocabulary of the properties *)
(* ===================================================================== *)

(** The marker starts at position [i] of [s]. *)
Definition marker_at (i : nat) (s : list byte) : Prop :=
  slice i (i + length AcquisitionProcess.MARKER) s = AcquisitionProcess.MARKER.

(** A stream that loses step [c] times: six zero bytes, then a marker. *)
Definition resync_storm (c : nat) : list byte :=
  mjoin (replicate c (replicate 6 x00 ++ AcquisitionProcess.MARKER)).

(** A stream with six bytes of garbage before one whole frame of zero
    samples. *)
Definition garbage_then_frame : list byte :=
  replicate 6 x00 ++ AcquisitionProcess.MARKER ++ replicate 1536 x00.

(** The samples carried by a sequence of queue items, in order. *)
Definition decode (packets : list (list byte * Q)) : list SegmentationProcess.sample :=
  mjoin ((λ item, default [] (SegmentationProcess._unpack_packet item.1)) <$> packets).

(** A queue item as the frame reader puts it: a payload of 256 samples. *)
Definition whole_packet (item : list byte * Q) : Prop :=
  length item.1 = 1536.

Definition ts_of (s : SegmentationProcess.sample) : Z := SegmentationProcess.uint32 s.1.
Definition adc_of (s : SegmentationProcess.sample) : Z := SegmentationProcess.uint16 s.2.

(** The [i]-th window over the sample stream [X], written out. *)
Definition window_of (X : list SegmentationProcess.sample) (i : nat)
  : SegmentationProcess.segment :=
  let lead := if decide (i = 0) then [] else slice (1024 * i) (1024 * i + 256) X in
  let core := slice (1024 * i) (1024 * i + 1024) X in
  let ext := lead ++ slice (1024 * i) (1024 * i + 1280) X in
  {| SegmentationProcess.segment_id := i;
     SegmentationProcess.extended_timestamp_ms := ts_of <$> ext;
     SegmentationProcess.extended_adc_value := adc_of <$> ext;
     SegmentationProcess.timestamp_ms := ts_of <$> core;
     SegmentationProcess.core_start_idx := length lead;
     SegmentationProcess.core_end_idx := length lead + 1024;
     SegmentationProcess.start_time := default 0%Z (head (ts_of <$> core));
     SegmentationProcess.end_time := default 0%Z (last (ts_of <$> core));
     SegmentationProcess.sample_count := 1024 |}.

(** What the windower's fields are after the samples [X] have arrived. *)
Record windower_inv (X : list SegmentationProcess.sample)
  (st : SegmentationProcess.state) : Prop := {
  inv_buffer :
    SegmentationProcess.segment_buffer st
    = drop (1024 * SegmentationProcess.segment_count st) X;
  inv_overlap :
    SegmentationProcess.overlap_buffer st
    = if decide (SegmentationProcess.segment_count st = 0) then []
      else slice (1024 * SegmentationProcess.segment_count st)
                 (1024 * SegmentationProcess.segment_count st + 256) X;
  inv_reached :
    SegmentationProcess.segment_count st = 0
    ∨ 1024 * SegmentationProcess.segment_count st + 256 ≤ length X;
  inv_pending :
    length X < 1024 * SegmentationProcess.segment_count st + 1280;
  inv_queue :
    SegmentationProcess.segment_queue st
    = window_of X <$> seq 0 (SegmentationProcess.segment_count st)
}.

(** [struct.pack('<IH', timestamp_ms, adc_value)], as the sampling device
    fills its buffer. *)
Definition le_byte (z : Z) (i : nat) : byte :=
  default x00 (Byte.of_N (Z.to_N ((z / 2 ^ (8 * Z.of_nat i)) mod 256))).

Definition pack_IH (timestamp_ms adc_value : Z) : list byte :=
  (le_byte timestamp_ms <$> seq 0 4) ++ (le_byte adc_value <$> seq 0 2).

(** Packet number [j] of a ramp: sample number [n] of the stream has
    timestamp [n] and value [n]. *)
Definition ramp_packet (j : nat) : list byte * Q :=
  (mjoin ((λ k, pack_IH (Z.of_nat (256 * j + k)) (Z.of_nat (256 * j + k)))
            <$> seq 0 256), 0%Q).

Definition ramp_packets (n : nat) : list (list byte * Q) := ramp_packet <$> seq 0 n.

(** The length of the extended arrays of the window emitted as number [i]. *)
Definition extended_length (i : nat) : nat :=
  if decide (i = 0) then 1280 else 1536.

(** The core bounds of the window emitted as number [i]. *)
Definition core_bounds (i : nat) : nat * nat :=
  if decide (i = 0) then (0, 1024) else (256, 1280).

(** A window of 1024 samples that is not constant: the ramp 0, 1, ..., 1023. *)
Definition ramp_window : list float :=
  (λ k, float_of_Z (Z.of_nat k)) <$> seq 0 1024.

(** Stand-ins for [scipy.signal], to run the filter stage on concrete
    windows: every design returns the one coefficient set there is, and
    [filtfilt] hands its input through. *)
Definition plain_iirnotch : Q → Q → Q → result unit := λ _ _ _, Ok tt.
Definition plain_remez : nat → list Q → list Q → Q → list Q → result unit :=
  λ _ _ _ _ _, Ok tt.
Definition plain_ellipord : Q → Q → Q → Q → result (nat * Q) := λ _ _ _ _, Ok (1, 1%Q).
Definition plain_ellip_high : nat → Q → Q → Q → result unit := λ _ _ _ _, Ok tt.
Definition plain_filtfilt {V} : unit → list V → result (list V) := λ _ x, Ok x.

(** The exception reported by an entry of the filter stage's status queue. *)
Definition reported_error (m : level * FilteringProcess.status_text)
  : option exception :=
  match m with
  | (ERROR, FilteringProcess.FilteringError e) => Some e
  | _ => None
  end.

(** A TFLite interpreter none of whose calls succeeds. *)
Definition broken_details : unit → result (list nat) :=
  λ _, Raise (LibraryError "get details").
Definition broken_set_tensor : nat → list Q → unit → result unit :=
  λ _ _ _, Raise (LibraryError "set_tensor").
Definition broken_invoke : unit → result unit := λ _, Raise (LibraryError "invoke").
Definition broken_get_tensor : nat → unit → result (list (list Q)) :=
  λ _ _, Raise (LibraryError "get_tensor").

(** An inference stage whose interpreter is loaded, and a processed segment
    of two samples. *)
Definition loaded_state : InferenceProcess.state Q unit :=
  InferenceProcess.mk_state None None None None None (Some tt) 0 0 None 0 ∅ [].

Definition short_segment : FilteringProcess.processed_segment Q :=
  FilteringProcess.mk_processed 7 [10; 13]%Z 10 13 [100; 200]%Z
    [0%Q; 1%Q] [0%Q; 1%Q] 1024.

(** The rows that the inference stage writes for a segment. *)
Definition signal_rows {V} (seg : FilteringProcess.processed_segment V)
  : list (list (InferenceProcess.cell V)) :=
  (λ r, [InferenceProcess.CInt r.1; InferenceProcess.CInt r.2])
    <$> zip (FilteringProcess.timestamp_ms seg) (FilteringProcess.raw_signal seg).

Definition filtered_rows {V} (seg : FilteringProcess.processed_segment V)
  : list (list (InferenceProcess.cell V)) :=
  (λ r, [InferenceProcess.CInt r.1; InferenceProcess.CFloat r.2])
    <$> zip (FilteringProcess.timestamp_ms seg) (FilteringProcess.filtered_signal seg).

Definition annotation_row {V} (seg : FilteringProcess.processed_segment V)
  (p : InferenceProcess.prediction V) : list (InferenceProcess.cell V) :=
  [InferenceProcess.CInt (Z.of_nat (FilteringProcess.segment_id seg));
   InferenceProcess.CInt (FilteringProcess.start_time seg);
   InferenceProcess.CInt (FilteringProcess.end_time seg);
   InferenceProcess.CInt (Z.of_nat (InferenceProcess.class p));
   InferenceProcess.CText (InferenceProcess.label p);
   InferenceProcess.CFixed4 (InferenceProcess.confidence p)].

(** Two passes of the inference loop: one that finds a segment, and one that
    finds the stop token together with a segment still in flight. *)
Definition first_tick : InferenceProcess.tick Q :=
  InferenceProcess.mk_tick None (Some short_segment) 1000 "041126_101500".

Definition stop_tick : InferenceProcess.tick Q :=
  InferenceProcess.mk_tick (Some "STOP_SESSION") (Some short_segment) 1005
    "041126_101505".

(** A sample whose two values fit the wire format. *)
Definition sample_in_range (s : SegmentationProcess.sample) : Prop :=
  (0 ≤ s.1 < 2 ^ 32)%Z ∧ (0 ≤ s.2 < 2 ^ 16)%Z.

(** The payload that the sampling device builds from a list of samples. *)
Definition pack_samples (samples : list SegmentationProcess.sample) : list byte :=
  mjoin ((λ s : SegmentationProcess.sample, pack_IH s.1 s.2) <$> samples).

(** The windower in step with a sample stream [X], whatever the sizes of
    the packets that brought it. *)
Definition windower_follows (X : list SegmentationProcess.sample)
  (st : SegmentationProcess.state) : Prop :=
  SegmentationProcess.segment_buffer st
  = drop (1024 * SegmentationProcess.segment_count st) X
  ∧ SegmentationProcess.overlap_buffer st
    = (if decide (SegmentationProcess.segment_count st = 0) then []
       else slice (1024 * SegmentationProcess.segment_count st)
                  (1024 * SegmentationProcess.segment_count st + 256) X)
  ∧ (SegmentationProcess.segment_count st = 0
     ∨ 1024 * SegmentationProcess.segment_count st + 256 ≤ length X)
  ∧ SegmentationProcess.segment_queue st
    = window_of X <$> seq 0 (SegmentationProcess.segment_count st)
  ∧ Forall (λ m, m.2 ≠ SegmentationProcess.SegmentationError IndexError)
           (SegmentationProcess.status_queue st).

(* ===================================================================== *)
(** ** deploy_pico.py *)
(* ===================================================================== *)

(** The sampling device.  Its timer, its ADC and its clock are inputs: the
    reading of [adc.read_u16()] is an argument of [_sample_callback], the
    value of [time.ticks_ms()] an argument of [start_recording], and
    [time.ticks_add] and the float computation
    [int((sample_count * 1000) / SAMPLE_RATE_HZ)] of the board are the
    variables [ticks_add] and [elapsed_ms].  [stdout] is the byte stream
    written to the USB serial line so far. *)
Module ECGAcquisition.

Definition SAMPLE_RATE_HZ : nat := 360.
Definition BUFFER_SIZE : nat := 256.
Definition MARKER : list byte := [x4d; x41; x52; x4b; x45; x52].

Record state := mk_state {
  is_recording : bool;
  sample_count : nat;
  adc_buffer : list byte;
  buffer_index : nat;
  start_time_ms : Z;
  led : bool;
  timer : bool;
  stdout : list byte
}.

(** [__init__]; [led0] is the level of the LED pin at that time. *)
Definition init (led0 : bool) : state :=
  mk_state false 0 (replicate (BUFFER_SIZE * 6) x00) 0 0 led0 false [].

(** [struct.pack_into('<IH', buffer, offset, timestamp_ms, adc_value)];
    [None] is the error raised when the six bytes do not fit. *)
Definition pack_into (buffer : list byte) (offset : nat) (timestamp_ms adc_value : Z)
  : option (list byte) :=
  if decide (offset + 6 ≤ length buffer)
  then Some (take offset buffer ++ pack_IH timestamp_ms adc_value
             ++ drop (offset + 6) buffer)
  else None.

(** [sys.stdout.buffer.write(data)] *)
Definition stdout_write (data : list byte) (st : state) : state :=
  mk_state (is_recording st) (sample_count st) (adc_buffer st) (buffer_index st)
           (start_time_ms st) (led st) (timer st) (stdout st ++ data).

(** [_flush_buffer]: the two writes sit in a [try] whose handler passes;
    [writes] is the number of them that succeed before one raises (2 when
    none does).  The index is reset in every case. *)
Definition _flush_buffer (writes : nat) (st : state) : state :=
  let data_size := buffer_index st * 6 in
  let st :=
    match writes with
    | 0 => st
    | 1 => stdout_write MARKER st
    | _ => stdout_write (slice 0 data_size (adc_buffer st)) (stdout_write MARKER st)
    end in
  mk_state (is_recording st) (sample_count st) (adc_buffer st) 0
           (start_time_ms st) (led st) (timer st) (stdout st).

Section Board.

Variable ticks_add : Z → Z → Z.
Variable elapsed_ms : nat → Z.

(** [start_recording]; [now] is [time.ticks_ms()]. *)
Definition start_recording (now : Z) (st : state) : state :=
  if is_recording st then st
  else mk_state true 0 (adc_buffer st) 0 now true true (stdout st).

(** [_sample_callback]; an error of [pack_into] leaves the callback before
    anything is updated. *)
Definition _sample_callback (writes : nat) (adc_value : Z) (st : state) : state :=
  if decide (buffer_index st < BUFFER_SIZE) then
    let timestamp_ms := ticks_add (start_time_ms st) (elapsed_ms (sample_count st)) in
    let offset := buffer_index st * 6 in
    match pack_into (adc_buffer st) offset timestamp_ms adc_value with
    | None => st
    | Some buffer =>
        let st := mk_state (is_recording st) (sample_count st + 1) buffer
                           (buffer_index st + 1) (start_time_ms st) (led st)
                           (timer st) (stdout st) in
        if decide (BUFFER_SIZE ≤ buffer_index st) then _flush_buffer writes st else st
    end
  else st.

(** [stop_recording] *)
Definition stop_recording (writes : nat) (st : state) : state :=
  if is_recording st then
    let st := mk_state false (sample_count st) (adc_buffer st) (buffer_index st)
                       (start_time_ms st) false false (stdout st) in
    if decide (0 < buffer_index st) then _flush_buffer writes st else st
  else st.

(** The timer fires once for every reading, the writes succeed. *)
Definition sample_all (readings : list Z) (st : state) : state :=
  foldl (λ st adc_value, _sample_callback 2 adc_value st) st readings.

End Board.

End ECGAcquisition.

(** Reading number [i] of a recording started at [now], as the callback
    stamps it. *)
Definition stamped (ticks_add : Z → Z → Z) (elapsed_ms : nat → Z) (now : Z)
  (readings : list Z) : list SegmentationProcess.sample :=
  imap (λ i adc_value, (ticks_add now (elapsed_ms i), adc_value)) readings.

(** A frame on the serial line. *)
Definition frame (samples : list SegmentationProcess.sample) : list byte :=
  ECGAcquisition.MARKER ++ pack_samples samples.

(** The frames of the full buffers of a sample stream. *)
Definition frames_of (samples : list SegmentationProcess.sample) : list (list byte) :=
  (λ j, frame (slice (256 * j) (256 * j + 256) samples))
    <$> seq 0 (length samples / 256).

(** A clock for examples: ticks wrap at [2 ^ 30], 360 samples a second. *)
Definition wrap_ticks_add (t d : Z) : Z := ((t + d) mod 2 ^ 30)%Z.
Definition exact_elapsed_ms (n : nat) : Z := (Z.of_nat n * 1000 / 360)%Z.

(** The count announced by a progress message of the filter stage. *)
Definition reported_progress (m : level * FilteringProcess.status_text)
  : option nat :=
  match m with
  | (DEBUG, FilteringProcess.Processed n) => Some n
  | _ => None
  end.

(** A segment whose core bounds lie beyond its arrays. *)
Definition coreless_segment : SegmentationProcess.segment :=
  SegmentationProcess.mk_segment 3 [1; 2]%Z [100; 200]%Z [] 2 1026 0 0 1024.

(** The inference stage between two sessions: no file open, no session
    name, the two counters at zero. *)
Definition session_closed {V interp} (st : InferenceProcess.state V interp) : Prop :=
  InferenceProcess.signal_file st = None
  ∧ InferenceProcess.filtered_file st = None
  ∧ InferenceProcess.annotation_file st = None
  ∧ InferenceProcess.current_session st = None
  ∧ InferenceProcess.inference_count st = 0
  ∧ InferenceProcess.samples_written st = 0.

(** The inference stage within a session: the session has a name, the
    three files of that name are the open files, and they exist in the
    output directory. *)
Definition session_open {V interp} (output_dir : string)
  (st : InferenceProcess.state V interp) : Prop :=
  ∃ name,
    InferenceProcess.current_session st = Some name
    ∧ InferenceProcess.signal_file st
      = Some (InferenceProcess.signal_path output_dir name)
    ∧ InferenceProcess.filtered_file st
      = Some (InferenceProcess.filtered_path output_dir name)
    ∧ InferenceProcess.annotation_file st
      = Some (InferenceProcess.annotation_path output_dir name)
    ∧ is_Some (InferenceProcess.files st
                 !! InferenceProcess.signal_path output_dir name)
    ∧ is_Some (InferenceProcess.files st
                 !! InferenceProcess.filtered_path output_dir name)
    ∧ is_Some (InferenceProcess.files st
                 !! InferenceProcess.annotation_path output_dir name).

(** The fields of the inference stage that only the session bookkeeping
    writes. *)
Definition counters {V interp} (st : InferenceProcess.state V interp)
  : nat * nat * option Q * Z * option interp :=
  (InferenceProcess.inference_count st, InferenceProcess.samples_written st,
   InferenceProcess.recording_start_time st, InferenceProcess.recording_duration st,
   InferenceProcess.interpreter st).

(** The number of time stamps of a run of processed segments. *)
Definition total_samples {V} (segs : list (FilteringProcess.processed_segment V)) : nat :=
  sum_list ((λ seg, length (FilteringProcess.timestamp_ms seg)) <$> segs).

(** A later pass of the same session: one more segment, no control token. *)
Definition next_tick : InferenceProcess.tick Q :=
  InferenceProcess.mk_tick None (Some short_segment) 1003 "041126_101503".

(** The pass that ends that session: the stop token and no segment. *)
Definition last_tick : InferenceProcess.tick Q :=
  InferenceProcess.mk_tick (Some "STOP_SESSION") None 1010 "041126_101510".

(* ===================================================================== *)
(** ** deploy_acquisition.py: the record button *)
(* ===================================================================== *)

(** [start_acquisition], [stop_acquisition], [toggle_recording] and
    [cleanup].  What the serial port answers is an input: every call on the
    port returns or raises, as the environment decides. *)
Module AcquisitionControl.

Inductive status_text :=
| Cleared (bytes_before : nat)
| PicoAck (response : string)
| BinaryInAck (e : string)
| NoAck
| RecordingStart
| RecordingStop
| Terminated.

(** The fields of [AcquisitionProcess] that the button callbacks read or
    write; [ser_open] is [self.ser and self.ser.is_open]. *)
Record state := mk_state {
  recording : bool;
  exiting : bool;
  ser_open : bool;
  status_queue : list (level * status_text);
  inf_control_queue : list string
}.

(** [self.ser.readline().decode().strip()]: the text, a
    [UnicodeDecodeError], or another exception. *)
Inductive ack_line :=
| AckText (response : string)
| AckUndecodable (e : string)
| AckFailed (e : exception).

(** The answers of the port during one [start_acquisition]:
    [in_waiting], [reset_input_buffer()], [write(b"START\n")] with
    [flush()], [in_waiting] after the pause, and the reading of the
    acknowledgement. *)
Record start_io := mk_start_io {
  in_waiting_before : result nat;
  reset_input_buffer : result unit;
  write_start : result unit;
  in_waiting_after : result nat;
  readline_ack : ack_line
}.

Definition status_put (m : level * status_text) (st : state) : state :=
  mk_state (recording st) (exiting st) (ser_open st) (status_queue st ++ [m])
           (inf_control_queue st).

Definition set_recording (r : bool) (st : state) : state :=
  mk_state r (exiting st) (ser_open st) (status_queue st) (inf_control_queue st).

(** [start_acquisition]: the state it leaves and the exception it raises,
    if any; [recording] is set before the port is touched. *)
Definition start_acquisition (io : start_io) (st : state) : state * option exception :=
  if recording st then (st, None)
  else
    let st := set_recording true st in
    match in_waiting_before io with
    | Raise e => (st, Some e)
    | Ok bytes_before =>
        match reset_input_buffer io with
        | Raise e => (st, Some e)
        | Ok _ =>
            let st := if decide (0 < bytes_before)
                      then status_put (DEBUG, Cleared bytes_before) st else st in
            match write_start io with
            | Raise e => (st, Some e)
            | Ok _ =>
                match in_waiting_after io with
                | Raise e => (st, Some e)
                | Ok waiting =>
                    if decide (0 < waiting) then
                      match readline_ack io with
                      | AckText response =>
                          (status_put (STATUS, RecordingStart)
                             (status_put (INFO, PicoAck response) st), None)
                      | AckUndecodable e =>
                          (status_put (STATUS, RecordingStart)
                             (status_put (WARN, BinaryInAck e) st), None)
                      | AckFailed e => (st, Some e)
                      end
                    else
                      (status_put (STATUS, RecordingStart)
                         (status_put (WARN, NoAck) st), None)
                end
            end
        end
    end.

(** [stop_acquisition]: whatever the write of [b"STOP\n"] does is caught
    and passed over. *)
Definition stop_acquisition (st : state) : state :=
  if negb (recording st) then st
  else
    let st := set_recording false st in
    let st := status_put (STATUS, RecordingStop) st in
    mk_state (recording st) (exiting st) (ser_open st) (status_queue st)
             (inf_control_queue st ++ ["STOP_SESSION"]).

(** [toggle_recording] *)
Definition toggle_recording (io : start_io) (st : state) : state * option exception :=
  if exiting st then (st, None)
  else if negb (recording st) then start_acquisition io st
  else (stop_acquisition st, None).

(** [cleanup]; [close] is what [self.ser.close()] does. *)
Definition cleanup (close : result unit) (st : state) : state * option exception :=
  let st := mk_state (recording st) true (ser_open st) (status_queue st)
                     (inf_control_queue st) in
  let st := if recording st then stop_acquisition st else st in
  if ser_open st then
    match close with
    | Raise e => (st, Some e)
    | Ok _ =>
        (status_put (INFO, Terminated)
           (mk_state (recording st) (exiting st) false (status_queue st)
                     (inf_control_queue st)), None)
    end
  else (status_put (INFO, Terminated) st, None).

(** A press of the record button: the callback runs, and an exception it
    raises ends the callback and nothing else. *)
Definition press (st : state) (io : start_io) : state := (toggle_recording io st).1.

End AcquisitionControl.

(** The [RECORDING_STOP] messages among the status messages. *)
Definition is_recording_stop (m : level * AcquisitionControl.status_text) : bool :=
  match m with
  | (STATUS, AcquisitionControl.RecordingStop) => true
  | _ => false
  end.

(** A port that answers as it should, and one that has gone away. *)
Definition good_port : AcquisitionControl.start_io :=
  AcquisitionControl.mk_start_io (Ok 3) (Ok tt) (Ok tt) (Ok 4)
    (AcquisitionControl.AckText "ACK").
Definition lost_port : AcquisitionControl.start_io :=
  AcquisitionControl.mk_start_io (Raise (LibraryError "SerialException")) (Ok tt)
    (Ok tt) (Ok 0) (AcquisitionControl.AckText "").
Definition idle_button : AcquisitionControl.state :=
  AcquisitionControl.mk_state false false true [] [].

(** The row of the signal file for a sample. *)
Definition sample_row {V} (s : SegmentationProcess.sample)
  : list (InferenceProcess.cell V) :=
  [InferenceProcess.CInt s.1; InferenceProcess.CInt s.2].

(** The first window of five ramp packets after the filter stage with the
    stand-in filters, and the pass of the inference loop that finds it. *)
Definition ramp_processed : FilteringProcess.processed_segment Q :=
  match FilteringProcess.process_segment (V := Q) plain_iirnotch plain_remez
          plain_ellipord plain_ellip_high plain_filtfilt
          (window_of (decode (ramp_packets 5)) 0) with
  | Ok p => p
  | Raise _ => short_segment
  end.

Definition ramp_tick : InferenceProcess.tick Q :=
  InferenceProcess.mk_tick None (Some ramp_processed) 1000 "041126_101500".

(* ===================================================================== *)
(** * Properties *)
(* ===================================================================== *)

(** ** Lists and slices *)

Lemma slice_0 {A} (n : nat) (l : list A) : slice 0 n l = take n l.
Proof. unfold slice. by rewrite Nat.sub_0_r. Qed.

Lemma slice_length {A} (a b : nat) (l : list A) :
  b ≤ length l → length (slice a b l) = b - a.
Proof. intros Hb. unfold slice. rewrite length_take, length_drop. lia. Qed.

Lemma slice_app_l {A} (a b : nat) (l k : list A) :
  b ≤ length l → slice a b (l ++ k) = slice a b l.
Proof.
  intros Hb. unfold slice.
  destruct (decide (a ≤ b)) as [Hab|Hab].
  - rewrite drop_app_le by lia. rewrite take_app_le; [done|].
    rewrite length_drop. lia.
  - replace (b - a) with 0 by lia. done.
Qed.

Lemma slice_drop {A} (n a b : nat) (l : list A) :
  slice a b (drop n l) = slice (n + a) (n + b) l.
Proof.
  unfold slice. rewrite drop_drop. f_equal. lia.
Qed.

Lemma slice_take_end {A} (a b : nat) (l : list A) :
  a ≤ b → drop a (take b l) = slice a b l.
Proof.
  intros Hab. unfold slice. rewrite take_drop_commute. do 2 f_equal. lia.
Qed.

Lemma drop_take_sub {A} (c n : nat) (l : list A) :
  drop c (take n l) = take (n - c) (drop c l).
Proof.
  destruct (decide (c ≤ n)) as [Hc|Hc].
  - rewrite take_drop_commute. do 2 f_equal. lia.
  - replace (n - c) with 0 by lia. rewrite take_0. apply drop_ge.
    rewrite length_take. lia.
Qed.

Lemma slice_slice {A} (a b c d : nat) (l : list A) :
  a + d ≤ b → slice c d (slice a b l) = slice (a + c) (a + d) l.
Proof.
  intros Hd. unfold slice. rewrite drop_take_sub, drop_drop, take_take.
  f_equal. lia.
Qed.

(** ** The frame reader *)

Section FrameReader.

Import AcquisitionProcess.

Lemma find_marker_fill_eq buffer s :
  find_marker_fill buffer s =
  if decide (length buffer < length MARKER) then
    match s with
    | [] => (None, [])
    | b :: s' => find_marker_fill (buffer ++ [b]) s'
    end
  else (Some buffer, s).
Proof. by destruct s. Qed.

Lemma find_marker_scan_eq buffer s :
  find_marker_scan buffer s =
  if decide (drop (length buffer - length MARKER) buffer = MARKER) then (true, s)
  else
    match s with
    | [] => (false, [])
    | b :: s' =>
        if decide (1000 < length (buffer ++ [b])) then (false, s')
        else find_marker_scan (buffer ++ [b]) s'
    end.
Proof. by destruct s. Qed.

Lemma find_marker_fill_enough s buffer :
  length buffer ≤ 6 → 6 ≤ length buffer + length s →
  find_marker_fill buffer s =
  (Some (buffer ++ take (6 - length buffer) s), drop (6 - length buffer) s).
Proof.
  revert buffer. induction s as [|b s IH]; intros buffer Hle Hge.
  - simpl in Hge. rewrite find_marker_fill_eq.
    change (length MARKER) with 6.
    destruct (decide _); [lia|]. by rewrite take_nil, drop_nil, app_nil_r.
  - rewrite find_marker_fill_eq. change (length MARKER) with 6.
    destruct (decide _) as [Hlt|Hlt].
    + rewrite IH; rewrite ?length_app; simpl in *; try lia.
      replace (6 - length buffer) with (S (6 - (length buffer + 1))) by lia.
      simpl. by rewrite <- app_assoc.
    + replace (6 - length buffer) with 0 by lia. simpl.
      by rewrite app_nil_r.
Qed.

Lemma find_marker_fill_short s buffer :
  length buffer + length s < 6 → find_marker_fill buffer s = (None, []).
Proof.
  revert buffer. induction s as [|b s IH]; intros buffer Hlt;
    rewrite find_marker_fill_eq; change (length MARKER) with 6;
    simpl in Hlt; destruct (decide _); try lia; [done|].
  apply IH. rewrite length_app. simpl. lia.
Qed.

(** The scan stops at the first position where the last six bytes read are
    the marker, with exactly those bytes consumed. *)
Lemma find_marker_scan_found d : ∀ k s0,
  6 ≤ k → k + d ≤ 1000 → k + d ≤ length s0 →
  (∀ j, k ≤ j < k + d → slice (j - 6) j s0 ≠ MARKER) →
  slice (k + d - 6) (k + d) s0 = MARKER →
  find_marker_scan (take k s0) (drop k s0) = (true, drop (k + d) s0).
Proof.
  induction d as [|d IH]; intros k s0 Hk Hbudget Hlen Hnone Hhit;
    rewrite find_marker_scan_eq; change (length MARKER) with 6;
    rewrite length_take, Nat.min_l by lia; rewrite slice_take_end by lia.
  - rewrite Nat.add_0_r in *. by rewrite decide_True.
  - rewrite decide_False by (apply Hnone; lia).
    destruct (drop k s0) as [|b s'] eqn:Hdrop.
    { apply (f_equal length) in Hdrop. rewrite length_drop in Hdrop.
      simpl in Hdrop. lia. }
    assert (Hb : s0 !! k = Some b).
    { rewrite <- (Nat.add_0_r k), <- lookup_drop, Hdrop. done. }
    rewrite <- (take_S_r _ _ _ Hb).
    assert (Hs' : s' = drop (S k) s0).
    { rewrite <- (Nat.add_1_r k), <- drop_drop, Hdrop. done. }
    rewrite length_take, Nat.min_l by lia.
    rewrite decide_False by lia. rewrite Hs'.
    rewrite IH; try lia.
    + f_equal. f_equal. lia.
    + intros j Hj. apply Hnone. lia.
    + rewrite <- Hhit. f_equal; lia.
Qed.

(** The scan fails when none of the windows it may look at is the marker:
    the stream ends or the buffer outgrows 1000 bytes. *)
Lemma find_marker_scan_exhausted d : ∀ k s0,
  6 ≤ k → k + d = 1000 → k ≤ length s0 →
  (∀ j, k ≤ j ≤ 1000 → slice (j - 6) j s0 ≠ MARKER) →
  (find_marker_scan (take k s0) (drop k s0)).1 = false.
Proof.
  induction d as [|d IH]; intros k s0 Hk Hd Hlen Hnone;
    rewrite find_marker_scan_eq; change (length MARKER) with 6;
    rewrite length_take, Nat.min_l by lia; rewrite slice_take_end by lia;
    rewrite decide_False by (apply Hnone; lia);
    destruct (drop k s0) as [|b s'] eqn:Hdrop; try done;
    assert (Hlt : k < length s0)
      by (apply (f_equal length) in Hdrop; rewrite length_drop in Hdrop;
          simpl in Hdrop; lia);
    assert (Hb : s0 !! k = Some b)
      by (rewrite <- (Nat.add_0_r k), <- lookup_drop, Hdrop; done);
    rewrite <- (take_S_r _ _ _ Hb);
    rewrite length_take, Nat.min_l by lia.
  - by rewrite decide_True by lia.
  - assert (Hs' : s' = drop (S k) s0).
    { rewrite <- (Nat.add_1_r k), <- drop_drop, Hdrop. done. }
    rewrite decide_False by lia.
    rewrite Hs'. apply IH; try lia. intros j Hj. apply Hnone. lia.
Qed.

Lemma marker_at_length i s : marker_at i s → i + 6 ≤ length s.
Proof.
  unfold marker_at, slice. intros Hm. apply (f_equal length) in Hm.
  rewrite length_take, length_drop in Hm. change (length MARKER) with 6 in Hm.
  lia.
Qed.

Lemma marker_at_drop n i s : marker_at i (drop n s) ↔ marker_at (n + i) s.
Proof.
  unfold marker_at. rewrite slice_drop. by rewrite Nat.add_assoc.
Qed.

Lemma marker_at_app_l i s k :
  i + 6 ≤ length s → marker_at i (s ++ k) ↔ marker_at i s.
Proof.
  intros Hi. unfold marker_at. by rewrite slice_app_l.
Qed.

(** [_find_marker] returns [True] at the first marker of the stream it
    reads, having consumed the stream up to and including that marker. *)
Lemma find_marker_first s0 q p :
  marker_at p s0 → (∀ i, i < p → ¬ marker_at i s0) → p + 6 ≤ 1000 →
  _find_marker (mk_state s0 q) = (true, mk_state (drop (p + 6) s0) q).
Proof.
  intros Hat Hfirst Hbudget.
  pose proof (marker_at_length _ _ Hat) as Hlen.
  unfold _find_marker. simpl.
  rewrite find_marker_fill_enough by (simpl; lia). simpl.
  rewrite (find_marker_scan_found p 6 s0); try lia.
  - by rewrite (Nat.add_comm 6 p).
  - intros j Hj Hm. apply (Hfirst (j - 6)); [lia|].
    unfold marker_at. change (length MARKER) with 6.
    by replace (j - 6 + 6) with j by lia.
  - unfold marker_at in Hat. change (length MARKER) with 6 in Hat.
    rewrite <- Hat. f_equal; lia.
Qed.

(** [_find_marker] returns [False] when no marker starts within the first
    995 positions of the stream it reads. *)
Lemma find_marker_budget s0 q :
  (∀ i, i + 6 ≤ 1000 → ¬ marker_at i s0) →
  (_find_marker (mk_state s0 q)).1 = false.
Proof.
  intros Hnone. unfold _find_marker. simpl.
  destruct (decide (length s0 < 6)) as [Hshort|Hlong].
  - by rewrite find_marker_fill_short by (simpl; lia).
  - rewrite find_marker_fill_enough by (simpl; lia). simpl.
    pose proof (find_marker_scan_exhausted 994 6 s0) as Hscan.
    destruct (find_marker_scan (take 6 s0) (drop 6 s0)) as [found s'].
    simpl in *. apply Hscan; try lia.
    intros j Hj Hm. apply (Hnone (j - 6)); [lia|].
    unfold marker_at. change (length MARKER) with 6.
    by replace (j - 6 + 6) with j by lia.
Qed.

(** In step: a marker followed by a whole payload is returned as it is. *)
Lemma read_packet_synced n payload rest q :
  length payload = PACKET_DATA_SIZE →
  _read_packet (S n) (mk_state (MARKER ++ payload ++ rest) q)
  = Returned (Some payload, mk_state rest q).
Proof.
  intros Hlen.
  cbn [_read_packet ser_read ser status_queue].
  rewrite take_app_length, drop_app_length.
  rewrite decide_False by (intros Hne; by apply Hne).
  rewrite take_app_length', drop_app_length' by done.
  by rewrite decide_False by (intros Hne; by apply Hne).
Qed.

(** Out of step: after the search has found and consumed the marker that
    follows the garbage [g], [_read_packet] starts over on what comes after
    that marker, where it reads six bytes to compare with the marker. *)
Lemma read_packet_resync n g tail q :
  6 ≤ length g ≤ 1000 →
  (∀ i, i < length g → ¬ marker_at i (g ++ MARKER)) →
  _read_packet (S n) (mk_state (g ++ MARKER ++ tail) q)
  = _read_packet n (mk_state tail (q ++ [(WARN, SyncLostGot (take 6 g))])).
Proof.
  intros Hlen Hfirst.
  assert (Hg0 : take 6 (g ++ MARKER ++ tail) = take 6 g)
    by (apply take_app_le; lia).
  assert (Hne : take 6 g ≠ MARKER).
  { intros Heq. apply (Hfirst 0); [lia|].
    unfold marker_at. rewrite slice_0. change (length MARKER) with 6.
    by rewrite take_app_le by lia. }
  cbn [_read_packet ser_read ser status_queue]. change (length MARKER) with 6.
  rewrite Hg0. rewrite decide_True by done.
  rewrite decide_True by (rewrite length_take; lia).
  unfold status_put. cbn [ser status_queue].
  rewrite (find_marker_first _ _ (length g - 6)); try lia.
  - rewrite drop_drop.
    replace (6 + (length g - 6 + 6)) with (length g + 6) by lia.
    rewrite (app_assoc g MARKER tail).
    rewrite drop_app_length' by (rewrite length_app; done). done.
  - apply marker_at_drop. replace (6 + (length g - 6)) with (length g) by lia.
    unfold marker_at, slice. rewrite drop_app_length.
    replace (length g + length MARKER - length g) with (length MARKER) by lia.
    by rewrite take_app_length.
  - intros i Hi Hm. apply marker_at_drop in Hm.
    apply (Hfirst (6 + i)); [lia|].
    rewrite (app_assoc g MARKER tail) in Hm.
    apply marker_at_app_l in Hm; [done|]. rewrite length_app. simpl. lia.
Qed.

(** Out of step with no marker starting at any of the first 1001 positions:
    [_read_packet] returns [None]. *)
Lemma read_packet_budget n s q :
  (∀ i, i ≤ 1000 → ¬ marker_at i s) →
  ∃ st', _read_packet (S n) (mk_state s q) = Returned (None, st').
Proof.
  intros Hnone.
  assert (Hne : take 6 s ≠ MARKER).
  { intros Heq. apply (Hnone 0); [lia|]. unfold marker_at. by rewrite slice_0. }
  cbn [_read_packet ser_read ser status_queue]. change (length MARKER) with 6.
  rewrite decide_True by done.
  match goal with
  | |- context [_find_marker ?st] =>
      pose proof (find_marker_budget (ser st) (status_queue st)) as Hb;
      destruct (_find_marker st) as [found st'] eqn:Hfm
  end.
  assert (found = false) as ->; [|by eexists].
  destruct (decide (length (take 6 s) = 6));
    unfold status_put in *; cbn [ser status_queue] in *;
    rewrite Hfm in Hb; apply Hb;
    intros i Hi Hm; apply marker_at_drop in Hm; apply (Hnone (6 + i)); auto; lia.
Qed.

(** Whenever the reader has to search for the marker, the frame behind the
    marker it finds is lost: the six bytes read next are payload, so the
    search starts again inside the payload and runs out of budget. *)
Lemma read_packet_resync_loses_payload n g payload rest q :
  6 ≤ length g ≤ 1000 →
  (∀ i, i < length g → ¬ marker_at i (g ++ MARKER)) →
  length payload = PACKET_DATA_SIZE →
  (∀ i, i ≤ 1000 → ¬ marker_at i payload) →
  ∃ st', _read_packet (S (S n)) (mk_state (g ++ MARKER ++ payload ++ rest) q)
         = Returned (None, st').
Proof.
  intros Hg Hfirst Hlen Hfree.
  rewrite read_packet_resync by done.
  apply read_packet_budget. intros i Hi Hm.
  apply (Hfree i Hi). apply marker_at_app_l in Hm; [done|].
  rewrite Hlen. unfold PACKET_DATA_SIZE, BUFFER_SIZE. lia.
Qed.

(** C1 (the code departs from the claim): six garbage bytes, the marker and
    a whole payload of 256 zero samples.  The search finds the marker and
    consumes it, then [_read_packet] reads the first six payload bytes as a
    marker, reports a second loss of step, searches the payload until the
    buffer passes 1000 bytes and returns [None]: the frame at position 6 is
    not emitted, and 529 bytes of its payload are left on the port. *)
Theorem read_packet_drops_frame_after_resync :
  _read_packet 1000 (mk_state garbage_then_frame [])
  = Returned (None,
              mk_state (replicate 529 x00)
                [(WARN, SyncLostGot (replicate 6 x00));
                 (WARN, SyncLostGot (replicate 6 x00))]).
Proof. vm_compute. reflexivity. Qed.

(** With no garbage the same frame is read. *)
Example read_packet_frame_in_step :
  _read_packet 1000 (mk_state (MARKER ++ replicate 1536 x00) [])
  = Returned (Some (replicate 1536 x00), mk_state [] []).
Proof. vm_compute. reflexivity. Qed.

(** *** Call depth *)

Lemma find_marker_scan_length s : ∀ buffer,
  length (find_marker_scan buffer s).2 ≤ length s.
Proof.
  induction s as [|b s IH]; intros buffer; rewrite find_marker_scan_eq;
    repeat case_decide; simpl; try lia.
  specialize (IH (buffer ++ [b])). lia.
Qed.

Lemma find_marker_consumes st st' :
  _find_marker st = (true, st') → length (ser st') + 6 ≤ length (ser st).
Proof.
  unfold _find_marker. intros Hfm.
  destruct (decide (length (ser st) < 6)) as [Hshort|Hlong].
  - rewrite find_marker_fill_short in Hfm by (simpl; lia). done.
  - rewrite find_marker_fill_enough in Hfm by (simpl; lia). simpl in Hfm.
    pose proof (find_marker_scan_length (drop 6 (ser st)) (take 6 (ser st))) as Hl.
    destruct (find_marker_scan _ _) as [found s']. simplify_eq. simpl in *.
    rewrite length_drop in Hl. lia.
Qed.

(** A stack of [n] frames is enough for a stream of fewer than [12 * n]
    bytes: every nested call is preceded by at least twelve bytes read. *)
Lemma read_packet_returns n : ∀ st,
  length (ser st) < 12 * n → ∃ r, _read_packet n st = Returned r.
Proof.
  induction n as [|n IH]; intros st Hlen; [lia|].
  cbn [_read_packet ser_read]. change (length MARKER) with 6.
  case_decide as Hm; [|case_decide; by eexists].
  match goal with
  | |- context [_find_marker ?st1] =>
      destruct (_find_marker st1) as [[] st2] eqn:Hfm; [|by eexists];
      assert (length (ser st1) = length (ser st) - 6) as Hst1
        by (case_decide; unfold status_put; cbn [ser]; by rewrite length_drop)
  end.
  apply find_marker_consumes in Hfm. apply IH. lia.
Qed.

Lemma resync_storm_S c :
  resync_storm (S c) = replicate 6 x00 ++ MARKER ++ resync_storm c.
Proof. unfold resync_storm. simpl. done. Qed.

Lemma resync_storm_length c : length (resync_storm c) = 12 * c.
Proof.
  induction c as [|c IH]; [done|].
  rewrite resync_storm_S, !length_app, IH. simpl. lia.
Qed.

Lemma read_packet_storm c : ∀ q,
  _read_packet c (mk_state (resync_storm c) q) = RecursionError.
Proof.
  induction c as [|c IH]; intros q; [done|].
  rewrite resync_storm_S, read_packet_resync; [apply IH|simpl; lia|].
  intros i Hi. simpl in Hi.
  do 6 (destruct i as [|i]; [vm_compute; discriminate|]). lia.
Qed.

(** C8 (counterexample): no constant bounds the call depth of
    [_read_packet] over all streams; whatever the number of frames granted,
    some stream makes the reader ask for one more. *)
Lemma read_packet_depth_unbounded :
  ¬ ∃ c, ∀ st, _read_packet c st ≠ RecursionError.
Proof.
  intros [c Hc]. apply (Hc (mk_state (resync_storm c) [])), read_packet_storm.
Qed.

(** C8 (as amended): [_read_packet] is recursive, one nested call for each
    successful marker search.  Its call depth on a stream of [n] bytes is at
    most [1 + n / 12], and this grows with the stream: [c] repetitions of
    six garbage bytes and a marker, [12 * c] bytes, need more than [c]
    frames. *)
Theorem read_packet_depth_linear :
  (∀ st, _read_packet (S (length (ser st) / 12)) st ≠ RecursionError)
  ∧ (∀ c, ∃ st, length (ser st) = 12 * c ∧ _read_packet c st = RecursionError).
Proof.
  split.
  - intros st.
    destruct (read_packet_returns (S (length (ser st) / 12)) st) as [r ->]; [|done].
    pose proof (Nat.div_mod_eq (length (ser st)) 12) as Hdm.
    pose proof (Nat.mod_upper_bound (length (ser st)) 12). lia.
  - intros c. exists (mk_state (resync_storm c) []). split.
    + apply resync_storm_length.
    + apply read_packet_storm.
Qed.

End FrameReader.

(** ** The segmentation windower *)

Section Windower.

Import SegmentationProcess.

Lemma slice_fmap {A B} (f : A → B) (a b : nat) (l : list A) :
  slice a b (f <$> l) = f <$> slice a b l.
Proof. unfold slice. by rewrite fmap_take, fmap_drop. Qed.

Lemma fmap_head {A B} (f : A → B) (l : list A) : head (f <$> l) = f <$> head l.
Proof. by destruct l. Qed.

Lemma slice_app_r {A} (a b : nat) (l k : list A) :
  slice (length l + a) (length l + b) (l ++ k) = slice a b k.
Proof.
  unfold slice. rewrite drop_app_ge by lia.
  f_equal; [lia|]. f_equal. lia.
Qed.

Lemma slice_shorter {A} (a b c : nat) (l : list A) :
  b ≤ c → take (b - a) (slice a c l) = slice a b l.
Proof. intros Hbc. unfold slice. rewrite take_take. f_equal. lia. Qed.

Lemma head_slice_is_Some {A} (a b : nat) (l : list A) :
  a < b → a < length l → is_Some (head (slice a b l)).
Proof.
  intros Hab Hal. rewrite head_is_Some. intros Hnil.
  apply (f_equal length) in Hnil. unfold slice in Hnil.
  rewrite length_take, length_drop in Hnil. simpl in Hnil. lia.
Qed.

Lemma last_slice_is_Some {A} (a b : nat) (l : list A) :
  a < b → a < length l → is_Some (last (slice a b l)).
Proof.
  intros Hab Hal. rewrite last_is_Some. intros Hnil.
  apply (f_equal length) in Hnil. unfold slice in Hnil.
  rewrite length_take, length_drop in Hnil. simpl in Hnil. lia.
Qed.

(** Windows that are complete in [X] do not change when more samples
    arrive. *)
Lemma window_of_app X P i :
  1024 * i + 1280 ≤ length X → window_of (X ++ P) i = window_of X i.
Proof.
  intros Hi. unfold window_of.
  rewrite !(slice_app_l _ _ X P) by lia. done.
Qed.

Lemma windows_of_app X P k :
  (k = 0 ∨ 1024 * k + 256 ≤ length X) →
  window_of (X ++ P) <$> seq 0 k = window_of X <$> seq 0 k.
Proof.
  intros Hk. apply list_fmap_ext. intros j i Hi.
  apply lookup_seq in Hi as [-> Hlt]. apply window_of_app. lia.
Qed.

(** [_create_segment] on a buffer that holds a whole window. *)
Lemma create_segment_window X st :
  segment_buffer st = drop (1024 * segment_count st) X →
  overlap_buffer st
  = (if decide (segment_count st = 0) then []
     else slice (1024 * segment_count st) (1024 * segment_count st + 256) X) →
  1024 * segment_count st + 1280 ≤ length X →
  _create_segment st
  = Some (window_of X (segment_count st),
          {| segment_buffer := drop (1024 * (segment_count st + 1)) X;
             overlap_buffer :=
               slice (1024 * (segment_count st + 1))
                     (1024 * (segment_count st + 1) + 256) X;
             segment_count := segment_count st + 1;
             segment_queue := segment_queue st;
             status_queue := status_queue st |}).
Proof.
  intros Hbuf Hov Hfull.
  set (k := segment_count st) in *.
  unfold _create_segment. rewrite Hbuf, Hov. fold k.
  unfold SEGMENT_SIZE, OVERLAP_SIZE.
  rewrite !slice_drop, drop_drop.
  replace (1024 * k + 0) with (1024 * k) by lia.
  replace (1024 * k + (1024 + 256)) with (1024 * k + 1280) by lia.
  replace (1024 * k + 1024) with (1024 * (k + 1)) by lia.
  replace (1024 * (k + 1) + 256) with (1024 * k + 1280) by lia.
  set (lead := if decide (k = 0) then [] else slice (1024 * k) (1024 * k + 256) X).
  assert (Hcore :
    slice (length lead) (length lead + 1024)
      ((λ s : sample, uint32 s.1) <$> lead ++ slice (1024 * k) (1024 * k + 1280) X)
    = ts_of <$> slice (1024 * k) (1024 * (k + 1)) X).
  { rewrite slice_fmap.
    rewrite <- (Nat.add_0_r (length lead)) at 1.
    rewrite slice_app_r, slice_0.
    replace 1024 with (1024 * (k + 1) - 1024 * k) at 1 by lia.
    rewrite slice_shorter by lia. done. }
  rewrite Hcore.
  destruct (head_slice_is_Some (1024 * k) (1024 * (k + 1)) X) as [t0 Ht0]; [lia..|].
  destruct (last_slice_is_Some (1024 * k) (1024 * (k + 1)) X) as [t1 Ht1]; [lia..|].
  assert (Hh : head (ts_of <$> slice (1024 * k) (1024 * (k + 1)) X) = Some (ts_of t0)).
  { rewrite fmap_head, Ht0. done. }
  assert (Hl : last (ts_of <$> slice (1024 * k) (1024 * (k + 1)) X) = Some (ts_of t1)).
  { rewrite fmap_last, Ht1. done. }
  rewrite Hh, Hl. unfold window_of. fold lead.
  replace (1024 * k + 1024) with (1024 * (k + 1)) by lia.
  rewrite Hh, Hl. simpl. done.
Qed.

Lemma unpack_IH_six chunk : length chunk = 6 → is_Some (unpack_IH chunk).
Proof.
  intros Hlen. do 7 (destruct chunk as [|? chunk]; try done).
Qed.

Lemma range_step_6 n : range_step (6 * n) 6 = (λ k, k * 6) <$> seq 0 n.
Proof.
  unfold range_step. do 2 f_equal.
  symmetry. apply (Nat.div_unique _ 6 n 5); lia.
Qed.

(** A payload of [n] six-byte fields unpacks into [n] samples. *)
Lemma unpack_packet_whole p n :
  length p = 6 * n → ∃ P, _unpack_packet p = Some P ∧ length P = n.
Proof.
  intros Hlen. unfold _unpack_packet. rewrite Hlen, range_step_6.
  destruct (mapM _ _) as [P|] eqn:HP.
  - exists P. split; [done|]. apply length_mapM in HP.
    by rewrite length_fmap, length_seq in HP.
  - apply mapM_None in HP. apply Exists_exists in HP as (i & Hi & Hnone).
    apply list_elem_of_fmap in Hi as (k & -> & Hk).
    apply elem_of_seq in Hk.
    destruct (unpack_IH_six (slice (k * 6) (k * 6 + 6) p)) as [x Hx].
    + rewrite slice_length by lia. lia.
    + congruence.
Qed.

Lemma decode_cons p t P packets :
  _unpack_packet p = Some P → decode ((p, t) :: packets) = P ++ decode packets.
Proof. intros HP. unfold decode. simpl. by rewrite HP. Qed.

Lemma decode_length packets :
  Forall whole_packet packets → length (decode packets) = 256 * length packets.
Proof.
  induction 1 as [|[p t] packets Hp _ IH]; [done|].
  destruct (unpack_packet_whole p 256 Hp) as (P & HP & HlenP).
  rewrite (decode_cons _ _ _ _ HP), length_app, IH, HlenP. simpl. lia.
Qed.

(** One packet more keeps the windower in line with the sample stream. *)
Lemma segmentation_step_inv X st p t P :
  windower_inv X st → _unpack_packet p = Some P → length P = 256 →
  windower_inv (X ++ P) (segmentation_step st (p, t)).
Proof.
  intros [Hbuf Hov Hreach Hpend Hq] HP HlenP.
  unfold segmentation_step. rewrite HP.
  set (k := segment_count st) in *.
  assert (Hk : 1024 * k ≤ length X) by (destruct Hreach; lia).
  assert (Hbuf' : segment_buffer (buffer_extend P st) = drop (1024 * k) (X ++ P)).
  { unfold buffer_extend. cbn [segment_buffer]. rewrite Hbuf.
    by rewrite drop_app_le by lia. }
  assert (Hov' : overlap_buffer (buffer_extend P st)
                 = if decide (k = 0) then []
                   else slice (1024 * k) (1024 * k + 256) (X ++ P)).
  { unfold buffer_extend. cbn [overlap_buffer]. rewrite Hov.
    case_decide; [done|]. rewrite slice_app_l; [done|]. destruct Hreach; lia. }
  assert (Hlen' : length (segment_buffer (buffer_extend P st))
                  = length X + 256 - 1024 * k).
  { rewrite Hbuf', length_drop, length_app. lia. }
  unfold SEGMENT_SIZE, OVERLAP_SIZE. rewrite Hlen'.
  destruct (decide (1024 + 256 ≤ length X + 256 - 1024 * k)) as [Hfull|Hfull].
  - rewrite (create_segment_window (X ++ P));
      [|exact Hbuf'|exact Hov'
       |cbn [buffer_extend segment_count]; rewrite length_app; fold k; lia].
    cbn [buffer_extend segment_count segment_queue status_queue]. fold k.
    match goal with
    | |- windower_inv _ (if ?c then _ else _) => destruct c
    end; unfold status_put, segment_put;
      cbn [segment_buffer overlap_buffer segment_count segment_queue status_queue];
      (split; cbn [segment_buffer overlap_buffer segment_count segment_queue];
       [done
       |by rewrite decide_False by lia
       |right; rewrite length_app; lia
       |rewrite length_app; lia
       |rewrite Hq, Nat.add_1_r, seq_S, fmap_app, windows_of_app by done; done]).
  - split; cbn [buffer_extend segment_buffer overlap_buffer segment_count segment_queue];
      fold k; [done|done| |rewrite length_app; lia|by rewrite Hq, windows_of_app].
    destruct Hreach; [by left|right; rewrite length_app; lia].
Qed.

Lemma segmentation_fold_inv packets : ∀ X st,
  windower_inv X st → Forall whole_packet packets →
  windower_inv (X ++ decode packets) (foldl segmentation_step st packets).
Proof.
  induction packets as [|[p t] packets IH]; intros X st Hinv Hall.
  - unfold decode. simpl. by rewrite app_nil_r.
  - apply Forall_cons in Hall as [Hp Hall].
    destruct (unpack_packet_whole p 256 Hp) as (P & HP & HlenP).
    rewrite (decode_cons _ _ _ _ HP), app_assoc. cbn [foldl].
    apply IH; [|done]. by apply segmentation_step_inv.
Qed.

(** After any run of whole packets the windower has emitted, in order,
    exactly the windows that the sample stream holds complete. *)
Lemma segmentation_loop_inv packets :
  Forall whole_packet packets →
  windower_inv (decode packets) (segmentation_loop packets init).
Proof.
  intros Hall. unfold segmentation_loop.
  apply (segmentation_fold_inv packets [] _); [|done].
  split; unfold status_put, init;
    cbn [segment_buffer overlap_buffer segment_count segment_queue].
  - by rewrite drop_nil.
  - done.
  - by left.
  - cbn [length]. lia.
  - done.
Qed.

(** *** The windows of a run *)

Lemma length_join_fields {A} (f : A → list byte) (l : list A) :
  (∀ x, length (f x) = 6) → length (mjoin (f <$> l)) = 6 * length l.
Proof.
  intros Hf. induction l as [|x l IH]; [done|].
  change (length (f x ++ mjoin (f <$> l)) = 6 * length (x :: l)).
  rewrite length_app, Hf, IH. cbn [length]. lia.
Qed.

Lemma ramp_packet_whole j : whole_packet (ramp_packet j).
Proof.
  unfold whole_packet, ramp_packet. cbn [fst].
  rewrite length_join_fields, length_seq; [done|].
  intros k. unfold pack_IH. by rewrite length_app, !length_fmap, !length_seq.
Qed.

Lemma ramp_packets_whole n : Forall whole_packet (ramp_packets n).
Proof.
  unfold ramp_packets. apply Forall_fmap, Forall_forall.
  intros j _. apply ramp_packet_whole.
Qed.

(** The run of a sequence of whole packets, read off the invariant. *)
Lemma segmentation_loop_windows packets :
  Forall whole_packet packets →
  let K := (length packets - 1) / 4 in
  segment_queue (segmentation_loop packets init)
  = window_of (decode packets) <$> seq 0 K
  ∧ (K = 0 ∨ 1024 * K + 256 ≤ length (decode packets)).
Proof.
  intros Hall K.
  destruct (segmentation_loop_inv packets Hall) as [_ _ Hreach Hpend Hq].
  pose proof (decode_length packets Hall) as Hlen.
  assert (HK : segment_count (segmentation_loop packets init) = K).
  { unfold K. set (k := segment_count _) in *.
    apply (Nat.div_unique _ 4 k (length packets - 1 - 4 * k)); destruct Hreach; lia. }
  rewrite HK in *. done.
Qed.

Lemma core_of_extended {B} (f : sample → B) X i (lead : list sample) :
  slice (length lead) (length lead + 1024)
        (f <$> lead ++ slice (1024 * i) (1024 * i + 1280) X)
  = f <$> slice (1024 * i) (1024 * i + 1024) X.
Proof.
  rewrite slice_fmap. f_equal.
  rewrite <- (Nat.add_0_r (length lead)) at 1.
  rewrite slice_app_r, slice_0.
  replace (take 1024) with (@take sample (1024 * i + 1024 - 1024 * i))
    by (f_equal; lia).
  by rewrite slice_shorter by lia.
Qed.

Lemma tail_of_extended {B} (f : sample → B) X i (lead : list sample) :
  slice (length lead + 1024) (length lead + 1024 + 256)
        (f <$> lead ++ slice (1024 * i) (1024 * i + 1280) X)
  = f <$> slice (1024 * i + 1024) (1024 * i + 1280) X.
Proof.
  rewrite slice_fmap. f_equal.
  rewrite <- Nat.add_assoc, slice_app_r, slice_slice by lia.
  f_equal.
Qed.

Lemma window_of_core_ts X i :
  slice (core_start_idx (window_of X i)) (core_end_idx (window_of X i))
        (extended_timestamp_ms (window_of X i))
  = ts_of <$> slice (1024 * i) (1024 * i + 1024) X.
Proof. apply core_of_extended. Qed.

Lemma window_of_core_adc X i :
  slice (core_start_idx (window_of X i)) (core_end_idx (window_of X i))
        (extended_adc_value (window_of X i))
  = adc_of <$> slice (1024 * i) (1024 * i + 1024) X.
Proof. apply core_of_extended. Qed.

Lemma window_of_bounds X i :
  1024 * i + 1280 ≤ length X →
  core_start_idx (window_of X i) = (core_bounds i).1
  ∧ core_end_idx (window_of X i) = (core_bounds i).2.
Proof.
  intros Hi. unfold window_of, core_bounds.
  cbn [core_start_idx core_end_idx].
  case_decide; [done|]. rewrite slice_length by lia.
  split; cbn [fst snd]; lia.
Qed.

Lemma window_of_extended_length X i :
  1024 * i + 1280 ≤ length X →
  length (extended_timestamp_ms (window_of X i)) = extended_length i
  ∧ length (extended_adc_value (window_of X i)) = extended_length i.
Proof.
  intros Hi. unfold window_of, extended_length.
  cbn [extended_timestamp_ms extended_adc_value].
  rewrite !length_fmap, !length_app. rewrite slice_length by lia.
  case_decide; [cbn [length]; lia|]. rewrite slice_length by lia. lia.
Qed.

Lemma take_add_slice {A} (a b : nat) (l : list A) :
  take (a + b) l = take a l ++ slice a (a + b) l.
Proof.
  unfold slice. replace (a + b - a) with b by lia.
  rewrite <- (take_drop a l) at 1.
  destruct (decide (a ≤ length l)) as [Hle|Hgt].
  - rewrite take_app_add'; [done|]. rewrite length_take. lia.
  - rewrite (drop_ge l a) by lia. rewrite take_nil, !app_nil_r.
    rewrite take_take. f_equal. lia.
Qed.

(** The cores of the first [K] windows, one after the other, are the first
    [1024 * K] samples: nothing is left out and nothing comes twice. *)
Lemma cores_tile {B} (f : sample → B) X K :
  mjoin ((λ i, f <$> slice (1024 * i) (1024 * i + 1024) X) <$> seq 0 K)
  = f <$> take (1024 * K) X.
Proof.
  induction K as [|K IH]; [by rewrite Nat.mul_0_r|].
  rewrite seq_S, fmap_app, join_app, IH.
  cbn [fmap list_fmap mjoin list_join]. rewrite app_nil_r.
  replace (1024 * S K) with (1024 * K + 1024) by lia.
  rewrite take_add_slice, fmap_app. done.
Qed.

(** C2 (counterexample): four ramp packets carry exactly 1024 samples, one
    full core window, and the windower has emitted nothing after them: it
    waits for the 256 samples that follow the core. *)
Lemma four_packets_emit_no_window :
  ¬ (∀ K packets,
       Forall whole_packet packets →
       length (decode packets) = SEGMENT_SIZE * K →
       length (segment_queue (segmentation_loop packets init)) = K).
Proof.
  intros Hclaim.
  specialize (Hclaim 1 (ramp_packets 4) (ramp_packets_whole 4)).
  assert (Hlen : length (decode (ramp_packets 4)) = SEGMENT_SIZE * 1)
    by (vm_compute; reflexivity).
  specialize (Hclaim Hlen).
  assert (Hnone : length (segment_queue (segmentation_loop (ramp_packets 4) init)) = 0)
    by (vm_compute; reflexivity).
  congruence.
Qed.

(** C2 (as amended): after [N] whole packets the windower has emitted
    exactly [K = (N - 1) / 4] windows (a window leaves once its 1024 core
    samples and the 256 samples after them are buffered, so [4 * K] packets
    give [K - 1] windows and [4 * K + 1] give [K]); their ids are
    [0 .. K-1] in order of emission, each core has 1024 samples, and
    [start_time] and [end_time] are the first and last timestamp of the core
    slice. *)
Theorem windower_emits_windows packets :
  Forall whole_packet packets →
  let K := (length packets - 1) / 4 in
  let out := segment_queue (segmentation_loop packets init) in
  length out = K
  ∧ segment_id <$> out = seq 0 K
  ∧ Forall (λ w,
      length (timestamp_ms w) = SEGMENT_SIZE
      ∧ sample_count w = SEGMENT_SIZE
      ∧ timestamp_ms w
        = slice (core_start_idx w) (core_end_idx w) (extended_timestamp_ms w)
      ∧ length (slice (core_start_idx w) (core_end_idx w) (extended_adc_value w))
        = SEGMENT_SIZE
      ∧ head (timestamp_ms w) = Some (start_time w)
      ∧ last (timestamp_ms w) = Some (end_time w)) out.
Proof.
  intros Hall K out.
  destruct (segmentation_loop_windows packets Hall) as [Hq HK].
  fold K in Hq, HK. subst out. rewrite Hq. clear Hq.
  set (X := decode packets) in *.
  split; [by rewrite length_fmap, length_seq|].
  split.
  { rewrite <- list_fmap_compose. rewrite <- (list_fmap_id (seq 0 K)) at 2.
    by apply list_fmap_ext. }
  apply Forall_fmap, Forall_seq. intros i Hi.
  assert (HiX : 1024 * i + 1280 ≤ length X) by (destruct HK; lia).
  unfold compose, SEGMENT_SIZE.
  rewrite window_of_core_ts, window_of_core_adc.
  unfold window_of at 1 2 3 4 5 6 7.
  cbn [timestamp_ms sample_count start_time end_time].
  rewrite !length_fmap, slice_length by lia.
  destruct (head_slice_is_Some (1024 * i) (1024 * i + 1024) X) as [t0 Ht0]; [lia..|].
  destruct (last_slice_is_Some (1024 * i) (1024 * i + 1024) X) as [t1 Ht1]; [lia..|].
  rewrite fmap_head, fmap_last, Ht0, Ht1.
  repeat split; lia.
Qed.

(** The witness of C2: nine ramp packets. *)
Lemma windower_emits_windows_witness :
  Forall whole_packet (ramp_packets 9)
  ∧ length (segment_queue (segmentation_loop (ramp_packets 9) init))
    = (length (ramp_packets 9) - 1) / 4.
Proof.
  split; [apply ramp_packets_whole|].
  exact (proj1 (windower_emits_windows (ramp_packets 9) (ramp_packets_whole 9))).
Defined.

(** C3 (counterexample): the one window emitted after five ramp packets,
    the first of the run, has extended arrays of 1280 entries, not 1536. *)
Lemma first_window_is_not_1536 :
  ¬ Forall (λ w, length (extended_adc_value w) = EXTENDED_SEGMENT_SIZE)
           (segment_queue (segmentation_loop (ramp_packets 5) init)).
Proof.
  intros Hall.
  assert (Hall' : Forall (λ n, n = EXTENDED_SEGMENT_SIZE)
            (length <$> (extended_adc_value
               <$> segment_queue (segmentation_loop (ramp_packets 5) init))))
    by (rewrite <- list_fmap_compose; apply Forall_fmap; exact Hall).
  clear Hall. rename Hall' into Hall.
  assert (Hlens : length <$> (extended_adc_value
                    <$> segment_queue (segmentation_loop (ramp_packets 5) init))
                  = [1280]) by (vm_compute; reflexivity).
  rewrite Hlens in Hall. apply Forall_cons in Hall as [Hbad _].
  unfold EXTENDED_SEGMENT_SIZE, SEGMENT_SIZE, OVERLAP_SIZE in Hbad. lia.
Qed.

(** C3 (as amended): the extended arrays handed to the filter stage have
    [core_len + 2 * overlap_len = 1536] entries for every window but the
    first one emitted, and [core_len + overlap_len = 1280] entries for the
    first one, whose leading overlap is empty. *)
Theorem extended_window_length packets :
  Forall whole_packet packets →
  let out := segment_queue (segmentation_loop packets init) in
  length <$> (extended_adc_value <$> out) = extended_length <$> seq 0 (length out)
  ∧ length <$> (extended_timestamp_ms <$> out)
    = extended_length <$> seq 0 (length out).
Proof.
  intros Hall out.
  destruct (segmentation_loop_windows packets Hall) as [Hq HK].
  subst out. rewrite Hq. clear Hq.
  set (K := (length packets - 1) / 4) in *. set (X := decode packets) in *.
  rewrite length_fmap, length_seq, <- !list_fmap_compose.
  split; apply list_fmap_ext; intros j i Hi;
    apply lookup_seq in Hi as [-> Hlt];
    apply window_of_extended_length; destruct HK; lia.
Qed.

(** The witness of C3: nine ramp packets, two windows. *)
Lemma extended_window_length_witness :
  Forall whole_packet (ramp_packets 9)
  ∧ length <$> (extended_adc_value
                  <$> segment_queue (segmentation_loop (ramp_packets 9) init))
    = extended_length
        <$> seq 0 (length (segment_queue (segmentation_loop (ramp_packets 9) init))).
Proof.
  split; [apply ramp_packets_whole|].
  exact (proj1 (extended_window_length (ramp_packets 9) (ramp_packets_whole 9))).
Defined.

(** C4: after [N] whole packets the windower has emitted
    [K = (N - 1) / 4] windows, and every window but the last one emitted is
    followed by a window that carries its overlap: for each [i] with
    [i + 1 < K] the queue holds a window [w] at position [i] and a window
    [w'] at position [i + 1]; the extended arrays of [w] end 256 entries
    after its core; the core of [w'] starts at entry 256 of its extended
    arrays; and the first 256 entries of the extended arrays of [w'] are
    those last 256 entries of the extended arrays of [w], time stamps and
    values alike.  The cores themselves, one after the other, are the first
    [1024 * K] samples of the stream: no gap and no repetition. *)
Theorem overlap_continuity packets :
  Forall whole_packet packets →
  let K := (length packets - 1) / 4 in
  let out := segment_queue (segmentation_loop packets init) in
  length out = K
  ∧ (∀ i, S i < K →
     ∃ w w', out !! i = Some w ∧ out !! S i = Some w'
       ∧ core_end_idx w + OVERLAP_SIZE = length (extended_timestamp_ms w)
       ∧ core_end_idx w + OVERLAP_SIZE = length (extended_adc_value w)
       ∧ core_start_idx w' = OVERLAP_SIZE
       ∧ take OVERLAP_SIZE (extended_timestamp_ms w')
         = slice (core_end_idx w) (core_end_idx w + OVERLAP_SIZE)
                 (extended_timestamp_ms w)
       ∧ take OVERLAP_SIZE (extended_adc_value w')
         = slice (core_end_idx w) (core_end_idx w + OVERLAP_SIZE)
                 (extended_adc_value w))
  ∧ mjoin ((λ w, slice (core_start_idx w) (core_end_idx w)
                       (extended_timestamp_ms w)) <$> out)
    = ts_of <$> take (SEGMENT_SIZE * K) (decode packets)
  ∧ mjoin ((λ w, slice (core_start_idx w) (core_end_idx w)
                       (extended_adc_value w)) <$> out)
    = adc_of <$> take (SEGMENT_SIZE * K) (decode packets).
Proof.
  intros Hall K out.
  destruct (segmentation_loop_windows packets Hall) as [Hq HK].
  fold K in Hq, HK. subst out. rewrite Hq. clear Hq.
  set (X := decode packets) in *.
  unfold OVERLAP_SIZE, SEGMENT_SIZE.
  split; [by rewrite length_fmap, length_seq|]. split; [|split].
  - intros i Hi.
    exists (window_of X i), (window_of X (S i)).
    assert (HiX : 1024 * S i + 1280 ≤ length X) by (destruct HK; lia).
    split; [rewrite list_lookup_fmap, lookup_seq_lt by lia; done|].
    split; [rewrite list_lookup_fmap, lookup_seq_lt by lia; done|].
    destruct (window_of_extended_length X i ltac:(lia)) as [Hlt Hla].
    destruct (window_of_bounds X i ltac:(lia)) as [_ Hce].
    destruct (window_of_bounds X (S i) ltac:(lia)) as [Hcs' _].
    split; [rewrite Hlt, Hce; unfold extended_length, core_bounds;
            case_decide; cbn [fst snd]; lia|].
    split; [rewrite Hla, Hce; unfold extended_length, core_bounds;
            case_decide; cbn [fst snd]; lia|].
    split; [rewrite Hcs'; unfold core_bounds;
            by rewrite (decide_False (P := S i = 0)) by lia|].
    clear Hlt Hla Hce Hcs'.
    unfold window_of.
    cbn [core_end_idx extended_adc_value extended_timestamp_ms].
    rewrite (decide_False (P := S i = 0)) by lia.
    rewrite !tail_of_extended.
    rewrite !fmap_app, !take_app_length'
      by (rewrite length_fmap, slice_length by lia; lia).
    replace (1024 * S i) with (1024 * i + 1024) by lia.
    replace (1024 * i + 1024 + 256) with (1024 * i + 1280) by lia.
    done.
  - rewrite <- list_fmap_compose.
    rewrite <- cores_tile. f_equal. apply list_fmap_ext. intros j i _.
    apply window_of_core_ts.
  - rewrite <- list_fmap_compose.
    rewrite <- cores_tile. f_equal. apply list_fmap_ext. intros j i _.
    apply window_of_core_adc.
Qed.

(** The witness of C4: nine ramp packets give two windows, and the second
    starts with the 256 entries that end the first. *)
Lemma overlap_continuity_witness :
  Forall whole_packet (ramp_packets 9)
  ∧ length (segment_queue (segmentation_loop (ramp_packets 9) init))
    = (length (ramp_packets 9) - 1) / 4
  ∧ ∃ w w',
      segment_queue (segmentation_loop (ramp_packets 9) init) !! 0 = Some w
      ∧ segment_queue (segmentation_loop (ramp_packets 9) init) !! 1 = Some w'
      ∧ core_end_idx w + OVERLAP_SIZE = length (extended_adc_value w)
      ∧ core_start_idx w' = OVERLAP_SIZE
      ∧ take OVERLAP_SIZE (extended_adc_value w')
        = slice (core_end_idx w) (core_end_idx w + OVERLAP_SIZE)
                (extended_adc_value w).
Proof.
  split; [apply ramp_packets_whole|].
  pose proof (overlap_continuity (ramp_packets 9) (ramp_packets_whole 9)) as Hc.
  cbv zeta in Hc. destruct Hc as (Hlen & Hov & _).
  split; [exact Hlen|].
  destruct (Hov 0) as (w & w' & Hw & Hw' & _ & Hend & Hstart & _ & Hadc).
  { vm_compute. constructor. }
  exists w, w'.
  exact (conj Hw (conj Hw' (conj Hend (conj Hstart Hadc)))).
Defined.

(** In every window after the first the leading overlap is also a copy of
    the first 256 samples of the window's own core: the overlap tail kept by
    [_create_segment] stays at the head of the buffer. *)
Lemma leading_overlap_repeats_core packets i w :
  Forall whole_packet packets →
  segment_queue (segmentation_loop packets init) !! S i = Some w →
  take OVERLAP_SIZE (extended_adc_value w)
  = take OVERLAP_SIZE (drop OVERLAP_SIZE (extended_adc_value w)).
Proof.
  intros Hall Hw.
  destruct (segmentation_loop_windows packets Hall) as [Hq HK].
  rewrite Hq in Hw. clear Hq.
  set (K := (length packets - 1) / 4) in *. set (X := decode packets) in *.
  apply list_lookup_fmap_Some in Hw as (? & -> & [-> Hi]%lookup_seq).
  assert (HiX : 1024 * S i + 1280 ≤ length X) by (destruct HK; lia).
  cbn [Nat.add]. unfold window_of, OVERLAP_SIZE. cbn [extended_adc_value].
  rewrite (decide_False (P := S i = 0)) by lia.
  rewrite fmap_app, take_app_length', drop_app_length'
    by (rewrite length_fmap, slice_length by lia; lia).
  rewrite <- fmap_take. f_equal. unfold slice. rewrite take_take.
  f_equal. lia.
Qed.

End Windower.

(** ** Min-max normalisation *)

Section Normalization.

Import FilteringProcess.

(** [x - x] is [+0] for every finite binary64 number. *)
Lemma SF64sub_diag x :
  match x with S754_finite _ _ _ | S754_zero _ => True | _ => False end →
  SF64sub x x = S754_zero false.
Proof.
  destruct x as [s| | |s m e]; try done; intros _.
  - by destruct s.
  - unfold SF64sub, SFsub. rewrite Z.min_id.
    unfold shl_align. rewrite (Z.sub_diag e). cbn [fst].
    rewrite Z.sub_diag. reflexivity.
Qed.

Lemma Prim2SF_finite x :
  float_isfinite x = true →
  match Prim2SF x with S754_finite _ _ _ | S754_zero _ => True | _ => False end.
Proof.
  unfold float_isfinite, Prim2SF. intros [Hnan Hinf]%andb_prop.
  apply negb_true_iff in Hnan, Hinf. rewrite Hnan, Hinf.
  destruct (is_zero x); [done|].
  destruct (Z.frexp x) as [r exp].
  destruct (shr_fexp _ _ _ _ _) as [shr e'].
  by destruct (shr_m shr).
Qed.

Lemma float_sub_diag x : float_isfinite x = true → (x - x)%float = 0%float.
Proof.
  intros Hfin. rewrite <- (SF2Prim_Prim2SF (x - x)), sub_spec.
  rewrite SF64sub_diag by (by apply Prim2SF_finite). reflexivity.
Qed.

Lemma float_min_diag x : float_min x x = x.
Proof. unfold float_min. by repeat case_match. Qed.

Lemma float_max_diag x : float_max x x = x.
Proof. unfold float_max. by repeat case_match. Qed.

Lemma foldl_diag (f : float → float → float) c n :
  f c c = c → foldl f c (replicate n c) = c.
Proof.
  intros Hf. induction n as [|n IH]; [done|]. cbn [replicate foldl]. by rewrite Hf.
Qed.

Lemma float_min_cases x y : float_min x y = x ∨ float_min x y = y.
Proof. unfold float_min. repeat case_match; auto. Qed.

Lemma float_max_cases x y : float_max x y = x ∨ float_max x y = y.
Proof. unfold float_max. repeat case_match; auto. Qed.

Lemma foldl_choice (f : float → float → float) l :
  (∀ x y, f x y = x ∨ f x y = y) → ∀ x, foldl f x l ∈ x :: l.
Proof.
  intros Hf. induction l as [|a l IH]; intros x; cbn [foldl]; [left|].
  specialize (IH (f x a)). apply elem_of_cons in IH as [->|IH]; [|by do 2 right].
  destruct (Hf x a) as [-> | ->]; [left|right; left].
Qed.




(** For the window [0, 1e9] the maximum is 1: the range is so wide that
    adding [1e-8] is lost in rounding. *)
Example normalize_binary64_wide :
  normalize_segment [0; 1000000000]%float = Ok [0; 1]%float.
Proof. vm_compute. reflexivity. Qed.

End Normalization.

(** ** The filter stage *)

Section FilterStage.

Import FilteringProcess.

Context {V : Type} `{FloatOps V} {coeffs : Type}.
Variable sp_iirnotch : Q → Q → Q → result coeffs.
Variable sp_remez : nat → list Q → list Q → Q → list Q → result coeffs.
Variable sp_ellipord : Q → Q → Q → Q → result (nat * Q).
Variable sp_ellip_high : nat → Q → Q → Q → result coeffs.
Variable sp_filtfilt : coeffs → list V → result (list V).

Local Abbreviation process :=
  (process_segment sp_iirnotch sp_remez sp_ellipord sp_ellip_high sp_filtfilt).
Local Abbreviation step :=
  (filtering_step sp_iirnotch sp_remez sp_ellipord sp_ellip_high sp_filtfilt).
Local Abbreviation loop :=
  (filtering_loop sp_iirnotch sp_remez sp_ellipord sp_ellip_high sp_filtfilt).

(** What a successful [process_segment] has done, call by call. *)
Lemma process_segment_steps seg p :
  process seg = Ok p →
  ∃ nb y1 fb y2 N Wn hb y3,
    sp_iirnotch NOTCH_FREQ_HZ NOTCH_Q SAMPLE_RATE_HZ = Ok nb
    ∧ sp_filtfilt nb ((λ x, f_float32 (f_of_Z x))
                        <$> SegmentationProcess.extended_adc_value seg) = Ok y1
    ∧ sp_remez fir_numtaps
        [0%Q; FIR_PASSBAND_HZ; FIR_STOPBAND_HZ; (SAMPLE_RATE_HZ / 2)%Q]
        [1%Q; 0%Q] SAMPLE_RATE_HZ [1.0%Q; (10 ^ 2)%Q] = Ok fb
    ∧ sp_filtfilt fb y1 = Ok y2
    ∧ sp_ellipord (HPF_PASSBAND_HZ / (SAMPLE_RATE_HZ / 2))%Q
        (HPF_STOPBAND_HZ / (SAMPLE_RATE_HZ / 2))%Q
        HPF_PASSBAND_RIPPLE_DB HPF_STOPBAND_ATTEN_DB = Ok (N, Wn)
    ∧ sp_ellip_high N HPF_PASSBAND_RIPPLE_DB HPF_STOPBAND_ATTEN_DB Wn = Ok hb
    ∧ sp_filtfilt hb y2 = Ok y3
    ∧ filtered_signal p
      = slice (SegmentationProcess.core_start_idx seg)
              (SegmentationProcess.core_end_idx seg) y3
    ∧ raw_signal p
      = slice (SegmentationProcess.core_start_idx seg)
              (SegmentationProcess.core_end_idx seg)
              (SegmentationProcess.extended_adc_value seg)
    ∧ normalize_segment (filtered_signal p) = Ok (processed_signal p).
Proof.
  unfold process_segment, apply_filtering_pipeline, apply_notch_filter,
    apply_fir_lowpass, apply_iir_highpass.
  intros Hp.
  destruct (sp_iirnotch _ _ _) as [nb|] eqn:Hnb; [|done].
  cbn [mbind result_bind] in Hp.
  destruct (sp_filtfilt nb _) as [y1|] eqn:Hy1; [|done].
  cbn [mbind result_bind] in Hp.
  destruct (sp_remez _ _ _ _ _) as [fb|] eqn:Hfb; [|done].
  cbn [mbind result_bind] in Hp.
  destruct (sp_filtfilt fb _) as [y2|] eqn:Hy2; [|done].
  cbn [mbind result_bind] in Hp.
  destruct (sp_ellipord _ _ _ _) as [[N Wn]|] eqn:Hord; [|done].
  cbn [mbind result_bind] in Hp.
  destruct (sp_ellip_high _ _ _ _) as [hb|] eqn:Hhb; [|done].
  cbn [mbind result_bind] in Hp.
  destruct (sp_filtfilt hb _) as [y3|] eqn:Hy3; [|done].
  cbn [mbind result_bind] in Hp.
  destruct (normalize_segment _) as [n|] eqn:Hn; [|done].
  cbn [mbind result_bind] in Hp. injection Hp as <-.
  exists nb, y1, fb, y2, N, Wn, hb, y3.
  cbn [filtered_signal raw_signal processed_signal]. done.
Qed.

(** C6 (as amended): a window emitted as number [i] that the filter stage
    processes goes through the notch design (61.0 Hz, Q = 10.0), the FIR
    equiripple low-pass design (150/180 Hz) and the elliptic high-pass
    design (1.0/0.05 Hz) in this order, each applied with [filtfilt]
    (forward-backward, zero-phase) to the whole extended array.  The core
    is then cut from the filtered and from the raw extended array at the
    bounds recorded in the segment: [overlap_len, overlap_len + core_len) =
    [256, 1280) for every window but the first, and [0, 1024) for the first
    window, which has no leading overlap.  Only the filtered core is
    normalised; the raw core holds samples [1024 * i, 1024 * i + 1024) of
    the stream unscaled. *)
Theorem filter_stage_on_windows packets i seg p :
  Forall whole_packet packets →
  SegmentationProcess.segment_queue
    (SegmentationProcess.segmentation_loop packets SegmentationProcess.init) !! i
  = Some seg →
  process seg = Ok p →
  ∃ nb y1 fb y2 N Wn hb y3,
    sp_iirnotch NOTCH_FREQ_HZ NOTCH_Q SAMPLE_RATE_HZ = Ok nb
    ∧ sp_filtfilt nb ((λ x, f_float32 (f_of_Z x))
                        <$> SegmentationProcess.extended_adc_value seg) = Ok y1
    ∧ sp_remez fir_numtaps
        [0%Q; FIR_PASSBAND_HZ; FIR_STOPBAND_HZ; (SAMPLE_RATE_HZ / 2)%Q]
        [1%Q; 0%Q] SAMPLE_RATE_HZ [1.0%Q; (10 ^ 2)%Q] = Ok fb
    ∧ sp_filtfilt fb y1 = Ok y2
    ∧ sp_ellipord (HPF_PASSBAND_HZ / (SAMPLE_RATE_HZ / 2))%Q
        (HPF_STOPBAND_HZ / (SAMPLE_RATE_HZ / 2))%Q
        HPF_PASSBAND_RIPPLE_DB HPF_STOPBAND_ATTEN_DB = Ok (N, Wn)
    ∧ sp_ellip_high N HPF_PASSBAND_RIPPLE_DB HPF_STOPBAND_ATTEN_DB Wn = Ok hb
    ∧ sp_filtfilt hb y2 = Ok y3
    ∧ filtered_signal p = slice (core_bounds i).1 (core_bounds i).2 y3
    ∧ raw_signal p
      = slice (core_bounds i).1 (core_bounds i).2
              (SegmentationProcess.extended_adc_value seg)
    ∧ raw_signal p = adc_of <$> slice (1024 * i) (1024 * i + 1024) (decode packets)
    ∧ normalize_segment (filtered_signal p) = Ok (processed_signal p).
Proof.
  intros Hall Hseg Hp.
  destruct (process_segment_steps seg p Hp)
    as (nb & y1 & fb & y2 & N & Wn & hb & y3 & ? & ? & ? & ? & ? & ? & ?
        & Hfilt & Hraw & Hnorm).
  destruct (segmentation_loop_windows packets Hall) as [Hq HK].
  rewrite Hq in Hseg. clear Hq.
  apply list_lookup_fmap_Some in Hseg as (? & -> & [-> Hi]%lookup_seq).
  cbn [Nat.add] in *.
  assert (HiX : 1024 * i + 1280 ≤ length (decode packets)) by (destruct HK; lia).
  destruct (window_of_bounds (decode packets) i HiX) as [Hcs Hce].
  exists nb, y1, fb, y2, N, Wn, hb, y3.
  rewrite <- Hcs, <- Hce. repeat split; try done.
  rewrite Hraw. apply window_of_core_adc.
Qed.

(** *** Failures *)

Lemma filtering_step_ok st seg p :
  process seg = Ok p →
  inference_queue (step st seg) = inference_queue st ++ [p]
  ∧ omap reported_error (status_queue (step st seg))
    = omap reported_error (status_queue st)
  ∧ processed_count (step st seg) = processed_count st + 1.
Proof.
  intros Hp. unfold filtering_step. rewrite Hp.
  cbn [processed_count]. case_decide;
    unfold status_put; cbn [inference_queue status_queue processed_count];
    rewrite ?omap_app; cbn [omap list_omap reported_error];
    by rewrite ?app_nil_r.
Qed.

Lemma filtering_step_raise st seg e :
  process seg = Raise e →
  inference_queue (step st seg) = inference_queue st
  ∧ omap reported_error (status_queue (step st seg))
    = omap reported_error (status_queue st) ++ [e]
  ∧ processed_count (step st seg) = processed_count st.
Proof.
  intros Hp. unfold filtering_step. rewrite Hp.
  unfold status_put; cbn [inference_queue status_queue processed_count].
  by rewrite omap_app.
Qed.

Lemma filtering_fold_outcome segments : ∀ st,
  inference_queue (foldl step st segments)
  = inference_queue st
    ++ omap (λ seg, match process seg with Ok p => Some p | Raise _ => None end)
            segments
  ∧ omap reported_error (status_queue (foldl step st segments))
    = omap reported_error (status_queue st)
      ++ omap (λ seg, match process seg with Raise e => Some e | Ok _ => None end)
              segments.
Proof.
  induction segments as [|seg segments IH]; intros st; cbn [foldl].
  - by rewrite !app_nil_r.
  - destruct (IH (step st seg)) as [-> ->].
    cbn [omap list_omap].
    destruct (process seg) as [p|e] eqn:Hp.
    + destruct (filtering_step_ok st seg p Hp) as (-> & -> & _).
      by rewrite <- app_assoc.
    + destruct (filtering_step_raise st seg e Hp) as (-> & -> & _).
      by rewrite <- app_assoc.
Qed.

(** X27. Whatever the filters do, the windows put on the inference queue
    are, in order, exactly those whose processing raises no exception; for
    each window whose processing raises, the exception is reported once on
    the status queue, the window is dropped, and the loop goes on with the
    next window. *)
Theorem filtering_loop_outcome segments st :
  inference_queue (loop segments st)
  = inference_queue st
    ++ omap (λ seg, match process seg with Ok p => Some p | Raise _ => None end)
            segments
  ∧ omap reported_error (status_queue (loop segments st))
    = omap reported_error (status_queue st)
      ++ omap (λ seg, match process seg with Raise e => Some e | Ok _ => None end)
              segments.
Proof.
  unfold filtering_loop.
  destruct (filtering_fold_outcome segments (status_put (INFO, Started) st))
    as [-> ->].
  unfold status_put. cbn [inference_queue status_queue].
  rewrite omap_app. cbn [omap list_omap reported_error]. by rewrite app_nil_r.
Qed.

End FilterStage.

(** *** The filter stage on concrete windows *)

Section FilterStageExamples.

Import FilteringProcess.

Local Abbreviation process_plain :=
  (process_segment (V := Q) plain_iirnotch plain_remez plain_ellipord
     plain_ellip_high plain_filtfilt).

(** The witness of C6: the second window of nine ramp packets. *)
Lemma filter_stage_on_windows_witness :
  ∃ seg p,
    Forall whole_packet (ramp_packets 9)
    ∧ SegmentationProcess.segment_queue
        (SegmentationProcess.segmentation_loop (ramp_packets 9)
           SegmentationProcess.init) !! 1 = Some seg
    ∧ process_plain seg = Ok p
    ∧ raw_signal p
      = adc_of <$> slice (1024 * 1) (1024 * 1 + 1024) (decode (ramp_packets 9)).
Proof.
  set (seg := window_of (decode (ramp_packets 9)) 1).
  assert (Hq : SegmentationProcess.segment_queue
                 (SegmentationProcess.segmentation_loop (ramp_packets 9)
                    SegmentationProcess.init) !! 1 = Some seg)
    by (vm_compute; reflexivity).
  assert (∃ p, process_plain seg = Ok p) as [p Hp]
    by (eexists; vm_compute; reflexivity).
  exists seg, p.
  split; [apply ramp_packets_whole|]. split; [exact Hq|]. split; [exact Hp|].
  destruct (filter_stage_on_windows plain_iirnotch plain_remez plain_ellipord
              plain_ellip_high plain_filtfilt (ramp_packets 9) 1 seg p
              (ramp_packets_whole 9) Hq Hp)
    as (? & ? & ? & ? & ? & ? & ? & ? & _ & _ & _ & _ & _ & _ & _ & _ & _ & Hraw & _).
  exact Hraw.
Defined.

(** C6 (counterexample): for the first window of a run the core is cut at
    [0, 1024), not at [overlap_len, overlap_len + core_len) = [256, 1280):
    after five ramp packets the raw core starts with sample 0, and the
    slice [256, 1280) of the extended array starts with sample 256. *)
Lemma first_window_core_is_not_256_1280 :
  ¬ (∀ seg p,
       seg ∈ SegmentationProcess.segment_queue
               (SegmentationProcess.segmentation_loop (ramp_packets 5)
                  SegmentationProcess.init) →
       process_plain seg = Ok p →
       raw_signal p
       = slice SegmentationProcess.OVERLAP_SIZE
               (SegmentationProcess.OVERLAP_SIZE + SegmentationProcess.SEGMENT_SIZE)
               (SegmentationProcess.extended_adc_value seg)).
Proof.
  intros Hclaim.
  set (seg := window_of (decode (ramp_packets 5)) 0).
  assert (Hq : SegmentationProcess.segment_queue
                 (SegmentationProcess.segmentation_loop (ramp_packets 5)
                    SegmentationProcess.init) !! 0 = Some seg)
    by (vm_compute; reflexivity).
  assert (∃ p, process_plain seg = Ok p) as [p Hp]
    by (eexists; vm_compute; reflexivity).
  specialize (Hclaim seg p (list_elem_of_lookup_2 _ _ _ Hq) Hp).
  destruct (process_segment_steps _ _ _ _ _ seg p Hp)
    as (? & ? & ? & ? & ? & ? & ? & ? & _ & _ & _ & _ & _ & _ & _ & _ & Hraw & _).
  rewrite Hraw in Hclaim. apply (f_equal head) in Hclaim.
  assert (H0 : head (slice (SegmentationProcess.core_start_idx seg)
                       (SegmentationProcess.core_end_idx seg)
                       (SegmentationProcess.extended_adc_value seg)) = Some 0%Z)
    by (vm_compute; reflexivity).
  assert (H256 : head (slice SegmentationProcess.OVERLAP_SIZE
                         (SegmentationProcess.OVERLAP_SIZE
                          + SegmentationProcess.SEGMENT_SIZE)
                         (SegmentationProcess.extended_adc_value seg))
                 = Some 256%Z)
    by (vm_compute; reflexivity).
  congruence.
Qed.

End FilterStageExamples.

(** ** Strings *)

Lemma list_ascii_of_string_app (s t : string) :
  String.list_ascii_of_string (s +:+ t)
  = String.list_ascii_of_string s ++ String.list_ascii_of_string t.
Proof. induction s as [|a s IH]; [done|]. simpl. by f_equal. Qed.

Lemma string_app_inj_r (s1 s2 t : string) : s1 +:+ t = s2 +:+ t → s1 = s2.
Proof.
  intros Heq. apply (f_equal String.list_ascii_of_string) in Heq.
  rewrite !list_ascii_of_string_app in Heq. apply app_inv_tail in Heq.
  rewrite <- (String.string_of_list_ascii_of_string s1), Heq.
  apply String.string_of_list_ascii_of_string.
Qed.

(** Two strings that are equal end alike. *)
Lemma string_app_ends (n : nat) (s1 s2 t1 t2 : string) :
  s1 +:+ t1 = s2 +:+ t2 →
  n ≤ String.length t1 → n ≤ String.length t2 →
  take n (reverse (String.list_ascii_of_string t1))
  = take n (reverse (String.list_ascii_of_string t2)).
Proof.
  intros Heq H1 H2. apply (f_equal String.list_ascii_of_string) in Heq.
  rewrite !list_ascii_of_string_app in Heq.
  apply (f_equal reverse) in Heq. rewrite !reverse_app in Heq.
  apply (f_equal (take n)) in Heq.
  assert (Hlen : ∀ t, length (String.list_ascii_of_string t) = String.length t).
  { clear. induction t as [|a t IH]; [done|]. simpl. by f_equal. }
  rewrite !take_app_le in Heq by (rewrite length_reverse, Hlen; lia). done.
Qed.

(** ** The inference stage *)

Section InferenceStage.

Import InferenceProcess.

Context {V : Type} `{FloatOps V} {interp : Type}.
Variable get_input_details : interp → result (list nat).
Variable get_output_details : interp → result (list nat).
Variable set_tensor : nat → list V → interp → result interp.
Variable invoke : interp → result interp.
Variable get_tensor : nat → interp → result (list (list V)).
Variable output_dir : string.

Local Abbreviation model :=
  (invoke_model get_input_details get_output_details set_tensor invoke get_tensor).
Local Abbreviation run :=
  (run_inference get_input_details get_output_details set_tensor invoke get_tensor).

(** C9: with no interpreter loaded, and whenever a call of the interpreter or
    the reading of its output raises, [run_inference] returns class 0, label
    "NSR", confidence 0, whatever the signal; the failure is put on the
    status queue and nothing else in the stage changes. *)
Theorem run_inference_safe_default processed_signal (st : state V interp) :
  interpreter st = None
  ∨ (∃ it e, interpreter st = Some it ∧ model it processed_signal = Raise e) →
  (run processed_signal st).1 = default_prediction
  ∧ class (run processed_signal st).1 = 0
  ∧ label (run processed_signal st).1 = "NSR"
  ∧ confidence (run processed_signal st).1 = f_of_Z 0
  ∧ ((run processed_signal st).2 = st
     ∨ ∃ e, (run processed_signal st).2 = status_put (ERROR, InferenceFailed e) st).
Proof.
  unfold run_inference. intros [Hnone|(it & e & Hit & Hraise)].
  - rewrite Hnone. cbn [fst snd]. repeat split; by left.
  - rewrite Hit, Hraise. cbn [fst snd]. repeat split. right. by exists e.
Qed.

(** A signal that is not 1024 samples long is one of the failures. *)
Lemma invoke_model_wrong_length it processed_signal ins outs :
  get_input_details it = Ok ins → get_output_details it = Ok outs →
  length processed_signal ≠ 1024 →
  model it processed_signal = Raise ValueError.
Proof.
  intros Hin Hout Hlen. unfold invoke_model, reshape_1_1024_1.
  rewrite Hin, Hout. cbn [mbind result_bind]. by rewrite decide_False.
Qed.

(** *** Sessions and files *)

Local Abbreviation start := (start_session (V := V) (interp := interp) output_dir).
Local Abbreviation iteration :=
  (inference_iteration get_input_details get_output_details set_tensor invoke
     get_tensor output_dir).
Local Abbreviation process :=
  (process_segment get_input_details get_output_details set_tensor invoke get_tensor).

Lemma set_files_id (st : state V interp) : set_files (files st) st = st.
Proof. by destruct st. Qed.

(** Writing rows one after the other appends them to the file. *)
Lemma foldl_writerow {A} (path : string) (g : A → list (cell V)) rows :
  ∀ (st : state V interp) old,
  files st !! path = Some old →
  foldl (λ st r, writerow path (g r) st) st rows
  = set_files (<[path := old ++ (g <$> rows)]> (files st)) st.
Proof.
  induction rows as [|r rows IH]; intros st old Hold; cbn [foldl].
  - cbn [fmap list_fmap]. rewrite app_nil_r, insert_id by done.
    by rewrite set_files_id.
  - rewrite (IH _ (old ++ [g r])).
    + unfold writerow, set_files at 2 3. cbn [files]. rewrite Hold.
      cbn [default]. rewrite insert_insert_eq.
      unfold set_files. cbn. by rewrite <- app_assoc.
    + unfold writerow, set_files. cbn [files]. rewrite Hold.
      cbn [default]. by rewrite lookup_insert_eq.
Qed.

(** The fields that the writing primitives leave alone. *)
Lemma status_put_files m (st : state V interp) :
  files (status_put m st) = files st.
Proof. done. Qed.

Lemma status_put_signal_file m (st : state V interp) :
  signal_file (status_put m st) = signal_file st.
Proof. done. Qed.

Lemma status_put_filtered_file m (st : state V interp) :
  filtered_file (status_put m st) = filtered_file st.
Proof. done. Qed.

Lemma status_put_annotation_file m (st : state V interp) :
  annotation_file (status_put m st) = annotation_file st.
Proof. done. Qed.

Lemma status_put_current_session m (st : state V interp) :
  current_session (status_put m st) = current_session st.
Proof. done. Qed.

Lemma writerow_signal_file path row (st : state V interp) :
  signal_file (writerow path row st) = signal_file st.
Proof. done. Qed.

Lemma writerow_filtered_file path row (st : state V interp) :
  filtered_file (writerow path row st) = filtered_file st.
Proof. done. Qed.

Lemma writerow_annotation_file path row (st : state V interp) :
  annotation_file (writerow path row st) = annotation_file st.
Proof. done. Qed.

Lemma writerow_current_session path row (st : state V interp) :
  current_session (writerow path row st) = current_session st.
Proof. done. Qed.

Lemma open_w_signal_file path (st : state V interp) :
  signal_file (open_w path st) = signal_file st.
Proof. done. Qed.

Lemma open_w_filtered_file path (st : state V interp) :
  filtered_file (open_w path st) = filtered_file st.
Proof. done. Qed.

Lemma open_w_annotation_file path (st : state V interp) :
  annotation_file (open_w path st) = annotation_file st.
Proof. done. Qed.

Lemma open_w_current_session path (st : state V interp) :
  current_session (open_w path st) = current_session st.
Proof. done. Qed.

Lemma set_files_signal_file fs (st : state V interp) :
  signal_file (set_files fs st) = signal_file st.
Proof. done. Qed.

Lemma set_files_filtered_file fs (st : state V interp) :
  filtered_file (set_files fs st) = filtered_file st.
Proof. done. Qed.

Lemma set_files_annotation_file fs (st : state V interp) :
  annotation_file (set_files fs st) = annotation_file st.
Proof. done. Qed.

Lemma set_files_current_session fs (st : state V interp) :
  current_session (set_files fs st) = current_session st.
Proof. done. Qed.

Lemma writerow_files path row (st : state V interp) :
  files (writerow path row st)
  = <[path := default [] (files st !! path) ++ [row]]> (files st).
Proof. done. Qed.

Lemma open_w_files path (st : state V interp) :
  files (open_w path st) = <[path := []]> (files st).
Proof. done. Qed.

Lemma set_files_files fs (st : state V interp) : files (set_files fs st) = fs.
Proof. done. Qed.

Create Rewrite HintDb inference_fields.

Hint Rewrite status_put_files status_put_signal_file status_put_filtered_file status_put_annotation_file status_put_current_session writerow_signal_file writerow_filtered_file writerow_annotation_file writerow_current_session open_w_signal_file open_w_filtered_file open_w_annotation_file open_w_current_session set_files_signal_file set_files_filtered_file set_files_annotation_file set_files_current_session writerow_files open_w_files set_files_files : inference_fields.

Lemma session_paths_distinct name :
  signal_path output_dir name ≠ filtered_path output_dir name
  ∧ signal_path output_dir name ≠ annotation_path output_dir name
  ∧ filtered_path output_dir name ≠ annotation_path output_dir name.
Proof.
  unfold signal_path, filtered_path, annotation_path.
  repeat split; intros Heq; do 3 apply (inj (String.append _)) in Heq; done.
Qed.

(** The files of two sessions with different names are different files. *)
Lemma session_paths_apart name name' :
  name ≠ name' →
  ∀ path path',
    path ∈ [signal_path output_dir name; filtered_path output_dir name;
            annotation_path output_dir name] →
    path' ∈ [signal_path output_dir name'; filtered_path output_dir name';
             annotation_path output_dir name'] →
    path ≠ path'.
Proof.
  intros Hne path path' Hp Hp' Heq. subst path'.
  unfold signal_path, filtered_path, annotation_path in *.
  repeat (apply elem_of_cons in Hp as [->|Hp]);
    [| | |by apply elem_of_nil in Hp];
    (repeat (apply elem_of_cons in Hp' as [Hp'|Hp']);
     [| | |by apply elem_of_nil in Hp']);
    do 2 apply (inj (String.append _)) in Hp';
    first [ by apply string_app_inj_r in Hp'
          | apply (string_app_ends 5) in Hp'; [done|cbn; lia..] ].
Qed.

(** [start_session] opens the three files of the session afresh, each with
    its header row, and touches no other file. *)
Lemma start_session_spec name time_now (st : state V interp) :
  signal_file (start name time_now st) = Some (signal_path output_dir name)
  ∧ filtered_file (start name time_now st) = Some (filtered_path output_dir name)
  ∧ annotation_file (start name time_now st) = Some (annotation_path output_dir name)
  ∧ current_session (start name time_now st) = Some name
  ∧ files (start name time_now st)
    = <[annotation_path output_dir name := [annotation_header]]>
        (<[filtered_path output_dir name := [signal_header]]>
           (<[signal_path output_dir name := [signal_header]]> (files st))).
Proof.
  unfold start_session. cbv zeta.
  autorewrite with inference_fields.
  cbn [signal_file filtered_file annotation_file current_session files].
  autorewrite with inference_fields.
  cbn [signal_file filtered_file annotation_file current_session files].
  rewrite !lookup_insert_eq, !insert_insert_eq. done.
Qed.

Lemma stop_session_files time_now (st : state V interp) :
  files (stop_session time_now st) = files st.
Proof. done. Qed.

Lemma run_inference_state processed_signal (st : state V interp) :
  (run processed_signal st).2 = st
  ∨ ∃ e, (run processed_signal st).2 = status_put (ERROR, InferenceFailed e) st.
Proof.
  unfold run_inference. destruct (interpreter st) as [it|]; [|by left].
  destruct (model it processed_signal) as [p|e]; [by left|right; by exists e].
Qed.

Lemma write_signal_samples_spec seg (st : state V interp) sig fil a b :
  signal_file st = Some sig → filtered_file st = Some fil → sig ≠ fil →
  files st !! sig = Some a → files st !! fil = Some b →
  files (write_signal_samples seg st)
  = <[fil := b ++ filtered_rows seg]> (<[sig := a ++ signal_rows seg]> (files st))
  ∧ signal_file (write_signal_samples seg st) = Some sig
  ∧ filtered_file (write_signal_samples seg st) = Some fil
  ∧ annotation_file (write_signal_samples seg st) = annotation_file st
  ∧ current_session (write_signal_samples seg st) = current_session st.
Proof.
  intros Hsig Hfil Hne Ha Hb. unfold write_signal_samples. rewrite Hsig.
  rewrite (foldl_writerow sig (λ r : Z * Z, [CInt r.1; CInt r.2]) _ st a Ha).
  cbv zeta. autorewrite with inference_fields. rewrite Hfil.
  erewrite (foldl_writerow fil (λ r : Z * V, [CInt r.1; CFloat r.2]));
    [|autorewrite with inference_fields; by rewrite lookup_insert_ne].
  cbn [filtered_file signal_file annotation_file current_session files].
  autorewrite with inference_fields. done.
Qed.

Lemma write_rhythm_annotation_spec seg p time_now (st : state V interp) ann c :
  annotation_file st = Some ann → files st !! ann = Some c →
  files (write_rhythm_annotation seg p time_now st)
  = <[ann := c ++ [annotation_row seg p]]> (files st)
  ∧ signal_file (write_rhythm_annotation seg p time_now st) = signal_file st
  ∧ filtered_file (write_rhythm_annotation seg p time_now st) = filtered_file st
  ∧ annotation_file (write_rhythm_annotation seg p time_now st) = Some ann
  ∧ current_session (write_rhythm_annotation seg p time_now st) = current_session st.
Proof.
  intros Hann Hc. unfold write_rhythm_annotation. rewrite Hann. cbv zeta.
  assert (Hput : ∀ m (st0 : state V interp),
    files st0 = <[ann := c ++ [annotation_row seg p]]> (files st)
    ∧ signal_file st0 = signal_file st ∧ filtered_file st0 = filtered_file st
    ∧ annotation_file st0 = Some ann ∧ current_session st0 = current_session st →
    files (status_put m st0) = <[ann := c ++ [annotation_row seg p]]> (files st)
    ∧ signal_file (status_put m st0) = signal_file st
    ∧ filtered_file (status_put m st0) = filtered_file st
    ∧ annotation_file (status_put m st0) = Some ann
    ∧ current_session (status_put m st0) = current_session st).
  { intros m st0 Hst0. by autorewrite with inference_fields. }
  assert (Hrow : ∀ st0 : state V interp,
    st0 = writerow ann (annotation_row seg p) st →
    files st0 = <[ann := c ++ [annotation_row seg p]]> (files st)
    ∧ signal_file st0 = signal_file st ∧ filtered_file st0 = filtered_file st
    ∧ annotation_file st0 = Some ann ∧ current_session st0 = current_session st).
  { intros st0 ->. autorewrite with inference_fields. by rewrite Hc. }
  fold (annotation_row seg p).
  specialize (Hrow _ eq_refl).
  set (st1 := writerow ann (annotation_row seg p) st) in *.
  assert (Hbuz : ∀ st2 : state V interp,
    st2 = match buzzer st1 with
          | Some trace =>
              if decide (class p ≠ 0)
              then mk_state (signal_file st1) (filtered_file st1)
                     (annotation_file st1) (current_session st1)
                     (Some (trace ++ _buzzer_alert (class p))) (interpreter st1)
                     (inference_count st1) (samples_written st1)
                     (recording_start_time st1) (recording_duration st1)
                     (files st1) (status_queue st1)
              else st1
          | None => st1
          end →
    files st2 = <[ann := c ++ [annotation_row seg p]]> (files st)
    ∧ signal_file st2 = signal_file st ∧ filtered_file st2 = filtered_file st
    ∧ annotation_file st2 = Some ann ∧ current_session st2 = current_session st).
  { intros st2 ->. destruct (buzzer st1); [case_decide|]; done. }
  specialize (Hbuz _ eq_refl).
  match goal with |- context [started_at ?st2] => set (st2' := st2) in * end.
  destruct (started_at st2'); by apply Hput.
Qed.

Lemma process_segment_spec seg time_now (st : state V interp) sig fil ann a b c :
  signal_file st = Some sig → filtered_file st = Some fil →
  annotation_file st = Some ann →
  sig ≠ fil → sig ≠ ann → fil ≠ ann →
  files st !! sig = Some a → files st !! fil = Some b → files st !! ann = Some c →
  files (process seg time_now st)
  = <[ann := c ++ [annotation_row seg
                     (run (FilteringProcess.processed_signal seg) st).1]]>
      (<[fil := b ++ filtered_rows seg]> (<[sig := a ++ signal_rows seg]> (files st)))
  ∧ signal_file (process seg time_now st) = Some sig
  ∧ filtered_file (process seg time_now st) = Some fil
  ∧ annotation_file (process seg time_now st) = Some ann
  ∧ current_session (process seg time_now st) = current_session st.
Proof.
  intros Hsig Hfil Hann Hsf Hsa Hfa Ha Hb Hc. unfold process_segment.
  pose proof (run_inference_state (FilteringProcess.processed_signal seg) st) as Hrun.
  destruct (run (FilteringProcess.processed_signal seg) st) as [p st1].
  cbn [fst snd] in *.
  assert (Hst1 : signal_file st1 = Some sig ∧ filtered_file st1 = Some fil
                 ∧ annotation_file st1 = Some ann ∧ files st1 = files st
                 ∧ current_session st1 = current_session st).
  { destruct Hrun as [->|[e ->]]; done. }
  destruct Hst1 as (Hsig1 & Hfil1 & Hann1 & Hfiles1 & Hcur1).
  rewrite <- Hfiles1 in Ha, Hb, Hc.
  destruct (write_signal_samples_spec seg st1 sig fil a b Hsig1 Hfil1 Hsf Ha Hb)
    as (Hf2 & Hsig2 & Hfil2 & Hann2 & Hcur2).
  set (st2 := write_signal_samples seg st1) in *.
  assert (Hc2 : files st2 !! ann = Some c).
  { rewrite Hf2, !lookup_insert_ne by done. done. }
  rewrite Hann1 in Hann2.
  destruct (write_rhythm_annotation_spec seg p time_now st2 ann c Hann2 Hc2)
    as (Hf3 & Hsig3 & Hfil3 & Hann3 & Hcur3).
  cbn [files signal_file filtered_file annotation_file current_session].
  rewrite Hf3, Hf2, Hfiles1, Hsig3, Hfil3, Hann3, Hcur3, Hcur2. done.
Qed.

(** C10: when a segment is taken from the queue and no session is active
    (none was, or the control token handled in the same pass has just closed
    it), the pass opens a session named after the clock before it processes
    the segment: the three files of that session are created afresh and hold
    their header followed by the rows of this segment, the session is
    active afterwards, and every other file of the output directory,
    those of the session just closed among them, is left as it was. *)
Theorem segment_without_session_opens_one (st : state V interp) active t seg :
  segment t = Some seg →
  active = false ∨ control t = Some "STOP_SESSION" →
  let name := "ecg_" +:+ stamp t in
  let st' := (iteration (st, active) t).1 in
  (iteration (st, active) t).2 = true
  ∧ current_session st' = Some name
  ∧ signal_file st' = Some (signal_path output_dir name)
  ∧ filtered_file st' = Some (filtered_path output_dir name)
  ∧ annotation_file st' = Some (annotation_path output_dir name)
  ∧ files st' !! signal_path output_dir name
    = Some (signal_header :: signal_rows seg)
  ∧ files st' !! filtered_path output_dir name
    = Some (signal_header :: filtered_rows seg)
  ∧ (∃ p, files st' !! annotation_path output_dir name
          = Some [annotation_header; annotation_row seg p])
  ∧ (∀ path, path ≠ signal_path output_dir name →
             path ≠ filtered_path output_dir name →
             path ≠ annotation_path output_dir name →
             files st' !! path = files st !! path)
  ∧ (∀ closed, closed ≠ name →
       files st' !! signal_path output_dir closed
       = files st !! signal_path output_dir closed
       ∧ files st' !! filtered_path output_dir closed
         = files st !! filtered_path output_dir closed
       ∧ files st' !! annotation_path output_dir closed
         = files st !! annotation_path output_dir closed).
Proof.
  intros Hseg Hidle name st'. subst st'. unfold inference_iteration.
  set (after_control :=
    match control t with
    | Some msg =>
        if decide (msg = "STOP_SESSION" ∧ active = true)
        then (stop_session (now t) st, false)
        else (st, active)
    | None => (st, active)
    end).
  assert (Hctl : after_control.2 = false ∧ files after_control.1 = files st).
  { unfold after_control. destruct Hidle as [->|Hstop].
    - destruct (control t); [case_decide|]; done.
    - rewrite Hstop. destruct active.
      + by rewrite decide_True.
      + by rewrite decide_False by (intros [_ ?]; done). }
  destruct after_control as [st0 active0]. cbn [fst snd] in Hctl.
  destruct Hctl as [-> Hfiles0]. rewrite Hseg. fold name.
  destruct (start_session_spec name (now t) st0)
    as (Hsig & Hfil & Hann & Hcur & Hfiles).
  destruct (session_paths_distinct name) as (Hsf & Hsa & Hfa).
  set (st1 := start name (now t) st0) in *.
  edestruct (process_segment_spec seg (now t) st1 _ _ _
               [signal_header] [signal_header] [annotation_header]
               Hsig Hfil Hann Hsf Hsa Hfa)
    as (Hf2 & Hsig2 & Hfil2 & Hann2 & Hcur2).
  { rewrite Hfiles, !lookup_insert_ne, lookup_insert_eq by done. done. }
  { rewrite Hfiles, lookup_insert_ne, lookup_insert_eq by done. done. }
  { rewrite Hfiles, lookup_insert_eq. done. }
  set (st2 := process seg (now t) st1) in *.
  assert (Hfinal : ∀ st3 : state V interp,
            st3 = (if decide (inference_count st2 mod 10 = 0)
                   then status_put (DEBUG, Inferences (inference_count st2)) st2
                   else st2) →
            files st3 = files st2 ∧ signal_file st3 = signal_file st2
            ∧ filtered_file st3 = filtered_file st2
            ∧ annotation_file st3 = annotation_file st2
            ∧ current_session st3 = current_session st2).
  { intros st3 ->. case_decide; done. }
  cbn [fst snd].
  destruct (Hfinal _ eq_refl) as (-> & -> & -> & -> & ->). clear Hfinal.
  rewrite Hf2, Hsig2, Hfil2, Hann2, Hcur2, Hcur, Hfiles, Hfiles0.
  split_and!; try done.
  - rewrite !lookup_insert_ne, lookup_insert_eq by done. done.
  - rewrite lookup_insert_ne, lookup_insert_eq by done. done.
  - eexists. rewrite lookup_insert_eq. done.
  - intros path H1 H2 H3. by rewrite !lookup_insert_ne by done.
  - intros closed Hclosed.
    pose proof (session_paths_apart closed name Hclosed) as Hapart.
    split_and!; rewrite !lookup_insert_ne; try done;
      apply not_eq_sym, Hapart; by repeat constructor.
Qed.

End InferenceStage.

(** The witness of C9: a loaded interpreter whose calls raise. *)
Lemma run_inference_safe_default_witness :
  (InferenceProcess.interpreter loaded_state = None
   ∨ ∃ it e, InferenceProcess.interpreter loaded_state = Some it
             ∧ InferenceProcess.invoke_model broken_details broken_details
                 broken_set_tensor broken_invoke broken_get_tensor it [0%Q; 1%Q]
               = Raise e)
  ∧ (InferenceProcess.run_inference broken_details broken_details
       broken_set_tensor broken_invoke broken_get_tensor [0%Q; 1%Q] loaded_state).1
    = InferenceProcess.default_prediction.
Proof.
  assert (Hhyp : InferenceProcess.interpreter loaded_state = None
   ∨ ∃ it e, InferenceProcess.interpreter loaded_state = Some it
             ∧ InferenceProcess.invoke_model broken_details broken_details
                 broken_set_tensor broken_invoke broken_get_tensor it [0%Q; 1%Q]
               = Raise e).
  { right. exists tt, (LibraryError "get details"). split; reflexivity. }
  split; [exact Hhyp|].
  exact (proj1 (run_inference_safe_default broken_details broken_details
                  broken_set_tensor broken_invoke broken_get_tensor
                  [0%Q; 1%Q] loaded_state Hhyp)).
Defined.

(** *** The inference stage on concrete passes *)

Section InferenceExamples.

Import InferenceProcess.

Local Abbreviation pass :=
  (inference_iteration broken_details broken_details broken_set_tensor
     broken_invoke broken_get_tensor "deployment_data").

(** The witness of C10. *)
Lemma segment_without_session_opens_one_witness :
  segment first_tick = Some short_segment
  ∧ (false = false ∨ control first_tick = Some "STOP_SESSION")
  ∧ (pass (loaded_state, false) first_tick).2 = true.
Proof.
  split; [reflexivity|]. split; [left; reflexivity|].
  exact (proj1 (segment_without_session_opens_one broken_details broken_details
                  broken_set_tensor broken_invoke broken_get_tensor
                  "deployment_data" loaded_state false first_tick short_segment
                  eq_refl (or_introl eq_refl))).
Defined.

(** A window in flight when the session is stopped: the pass that handles
    the token closes session [ecg_041126_101500], whose signal file keeps its
    two rows, and writes the window into the new session
    [ecg_041126_101505]. *)
Example window_in_flight_at_stop :
  let st := (pass (pass (loaded_state, false) first_tick) stop_tick).1 in
  current_session st = Some "ecg_041126_101505"
  ∧ files st !! "deployment_data/ecg_041126_101500_signal.csv"
    = Some [[CText "timestamp_ms"; CText "adc_value"];
            [CInt 10; CInt 100]; [CInt 13; CInt 200]]
  ∧ files st !! "deployment_data/ecg_041126_101505_signal.csv"
    = Some [[CText "timestamp_ms"; CText "adc_value"];
            [CInt 10; CInt 100]; [CInt 13; CInt 200]]
  ∧ files st !! "deployment_data/ecg_041126_101505_rhythm.csv"
    = Some [[CText "segment_id"; CText "start_time_ms"; CText "end_time_ms";
             CText "rhythm_class"; CText "rhythm_label"; CText "confidence"];
            [CInt 7; CInt 10; CInt 13; CInt 0; CText "NSR"; CFixed4 0%Q]].
Proof. vm_compute. repeat split. Qed.

End InferenceExamples.

(** ** More on the frame reader *)

Section FrameReaderMore.

Import AcquisitionProcess.

Lemma find_marker_scan_sound s : ∀ buffer,
  ∃ consumed,
    s = consumed ++ (find_marker_scan buffer s).2
    ∧ ((find_marker_scan buffer s).1 = true →
       drop (length (buffer ++ consumed) - 6) (buffer ++ consumed) = MARKER)
    ∧ (length buffer ≤ 1000 → length (buffer ++ consumed) ≤ 1001).
Proof.
  induction s as [|b s IH]; intros buffer; rewrite find_marker_scan_eq;
    change (length MARKER) with 6.
  - exists []. rewrite app_nil_r. case_decide; cbn [fst snd]; split_and!; try done;
      intros; lia.
  - case_decide as Hm; [|case_decide as Hlen].
    + exists []. rewrite app_nil_r. cbn [fst snd]. split_and!; [done|done|lia].
    + exists [b]. cbn [fst snd]. split_and!; [done|done|].
      rewrite length_app. cbn [length]. lia.
    + destruct (IH (buffer ++ [b])) as (consumed & Hs & Hfound & Hbound).
      exists (b :: consumed).
      replace (buffer ++ b :: consumed) with ((buffer ++ [b]) ++ consumed)
        by (by rewrite <- app_assoc).
      split_and!; [cbn [app]; by f_equal|done|]. intros _. apply Hbound. lia.
Qed.

(** What a search for the marker consumes. *)
Lemma find_marker_consumed st :
  status_queue (_find_marker st).2 = status_queue st
  ∧ ∃ consumed,
      ser st = consumed ++ ser (_find_marker st).2
      ∧ length consumed ≤ 1001
      ∧ ((_find_marker st).1 = true →
         6 ≤ length consumed
         ∧ drop (length consumed - 6) consumed = MARKER).
Proof.
  unfold _find_marker.
  destruct (decide (length (ser st) < 6)) as [Hshort|Hlong].
  - rewrite find_marker_fill_short by (cbn [length]; lia). cbn [fst snd ser status_queue].
    split; [done|]. exists (ser st). rewrite app_nil_r. split_and!; [done|lia|done].
  - rewrite find_marker_fill_enough by (cbn [length]; lia).
    cbn [length app]. rewrite Nat.sub_0_r.
    destruct (find_marker_scan_sound (drop 6 (ser st)) (take 6 (ser st)))
      as (consumed & Hs & Hfound & Hbound).
    destruct (find_marker_scan _ _) as [found s'].
    cbn [fst snd ser status_queue] in *. split; [done|].
    exists (take 6 (ser st) ++ consumed).
    assert (Hlen6 : length (take 6 (ser st)) = 6) by (rewrite length_take; lia).
    split_and!.
    + by rewrite <- app_assoc, <- Hs, take_drop.
    + apply Hbound. lia.
    + intros Hf. split; [rewrite length_app; lia|by apply Hfound].
Qed.

(** X1. [_find_marker] only reads: the bytes it leaves are a suffix of the
    stream, it never takes more than 1001 bytes, it leaves the status queue
    alone, and when it returns [True] the last six bytes it took are the
    marker. *)
Theorem find_marker_sound st :
  status_queue (_find_marker st).2 = status_queue st
  ∧ ∃ consumed,
      ser st = consumed ++ ser (_find_marker st).2
      ∧ length consumed ≤ 1001
      ∧ ((_find_marker st).1 = true →
         6 ≤ length consumed
         ∧ drop (length consumed - 6) consumed = MARKER).
Proof. apply find_marker_consumed. Qed.

(** X2. [_find_marker] finds the first marker: when the marker first occurs
    at position [p] of the stream and ends within the first 1000 bytes, the
    search returns [True] with the stream consumed up to the end of that
    marker. *)
Theorem find_marker_finds_first_marker s q p :
  marker_at p s → (∀ i, i < p → ¬ marker_at i s) → p + 6 ≤ 1000 →
  _find_marker (mk_state s q) = (true, mk_state (drop (p + 6) s) q).
Proof. apply find_marker_first. Qed.

Lemma find_marker_finds_first_marker_witness :
  marker_at 2 ([x00; x01] ++ MARKER ++ [x02])
  ∧ (∀ i, i < 2 → ¬ marker_at i ([x00; x01] ++ MARKER ++ [x02]))
  ∧ 2 + 6 ≤ 1000
  ∧ _find_marker (mk_state ([x00; x01] ++ MARKER ++ [x02]) [])
    = (true, mk_state (drop (2 + 6) ([x00; x01] ++ MARKER ++ [x02])) []).
Proof.
  assert (H1 : marker_at 2 ([x00; x01] ++ MARKER ++ [x02])) by reflexivity.
  assert (H2 : ∀ i, i < 2 → ¬ marker_at i ([x00; x01] ++ MARKER ++ [x02])).
  { intros i Hi. do 2 (destruct i as [|i]; [vm_compute; discriminate|]). lia. }
  assert (H3 : 2 + 6 ≤ 1000) by lia.
  split_and!; [exact H1|exact H2|exact H3|].
  exact (find_marker_finds_first_marker _ [] 2 H1 H2 H3).
Defined.

(** X3. What [_read_packet] returns as a packet stood in the stream right
    behind a marker, has exactly [PACKET_DATA_SIZE] bytes, and the port is
    left at the byte after it. *)
Theorem read_packet_sound limit : ∀ st data st',
  _read_packet limit st = Returned (Some data, st') →
  length data = PACKET_DATA_SIZE
  ∧ ∃ consumed, ser st = consumed ++ MARKER ++ data ++ ser st'.
Proof.
  induction limit as [|limit IH]; intros st data st' Hread; [done|].
  cbn [_read_packet ser_read] in Hread. change (length MARKER) with 6 in Hread.
  case_decide as Hm.
  - match type of Hread with
    | context [_find_marker ?st1] =>
        pose proof (find_marker_consumed st1) as (_ & consumed & Hcons & _);
        assert (Hst1 : ser st1 = drop 6 (ser st))
          by (case_decide; reflexivity);
        destruct (_find_marker st1) as [[] st2]; [|done]
    end.
    cbn [fst snd] in Hcons.
    destruct (IH _ _ _ Hread) as (Hlen & consumed' & Hser). split; [done|].
    exists (take 6 (ser st) ++ consumed ++ consumed').
    rewrite <- (take_drop 6 (ser st)) at 1. rewrite <- Hst1, Hcons, Hser.
    by rewrite <- !app_assoc.
  - cbn [ser status_queue] in Hread.
    case_decide as Hlen; [done|].
    injection Hread as <- <-. split; [done|]. exists []. cbn [app ser].
    rewrite <- Hm, !take_drop. done.
Qed.

Lemma read_packet_sound_witness :
  _read_packet 1 (mk_state (MARKER ++ replicate 1536 x00) [])
  = Returned (Some (replicate 1536 x00), mk_state [] [])
  ∧ length (replicate 1536 x00) = PACKET_DATA_SIZE.
Proof.
  assert (H : _read_packet 1 (mk_state (MARKER ++ replicate 1536 x00) [])
              = Returned (Some (replicate 1536 x00), mk_state [] []))
    by (vm_compute; reflexivity).
  split; [exact H|]. exact (proj1 (read_packet_sound 1 _ _ _ H)).
Defined.

(** A marker followed by a payload that ends early. *)
Lemma read_packet_short limit partial q :
  length partial < PACKET_DATA_SIZE →
  _read_packet (S limit) (mk_state (MARKER ++ partial) q)
  = Returned (None,
              mk_state [] (q ++ [(WARN, IncompletePacket (length partial)
                                          PACKET_DATA_SIZE)])).
Proof.
  intros Hlen. cbn [_read_packet ser_read ser status_queue].
  rewrite take_app_length, drop_app_length.
  rewrite decide_False by (intros Hne; by apply Hne).
  rewrite take_ge, drop_ge by lia.
  rewrite decide_True by lia. done.
Qed.

(** X4. A marker followed by less than a whole payload: the bytes are
    taken, one warning gives their number, and [None] is returned without a
    search for the next marker. *)
Theorem read_packet_truncated limit partial q :
  length partial < PACKET_DATA_SIZE →
  _read_packet (S limit) (mk_state (MARKER ++ partial) q)
  = Returned (None,
              mk_state [] (q ++ [(WARN, IncompletePacket (length partial)
                                          PACKET_DATA_SIZE)])).
Proof. apply read_packet_short. Qed.

Lemma read_packet_truncated_witness :
  length [x01; x02; x03] < PACKET_DATA_SIZE
  ∧ _read_packet 1 (mk_state (MARKER ++ [x01; x02; x03]) [])
    = Returned (None,
                mk_state [] ([] ++ [(WARN, IncompletePacket (length [x01; x02; x03])
                                             PACKET_DATA_SIZE)])).
Proof.
  assert (H : length [x01; x02; x03] < PACKET_DATA_SIZE)
    by (unfold PACKET_DATA_SIZE, BUFFER_SIZE; cbn [length]; lia).
  split; [exact H|]. exact (read_packet_truncated 0 _ [] H).
Defined.

Lemma no_marker_in_zeros n i : ¬ marker_at i (replicate n x00).
Proof.
  unfold marker_at, slice. rewrite drop_replicate, take_replicate.
  destruct (_ `min` _); discriminate.
Qed.

(** X5. Out of step with no marker starting at any of the first 1001
    positions, [_read_packet] gives up: it returns [None], has put exactly
    one warning on the status queue, and has taken at most 1007 bytes. *)
Theorem read_packet_gives_up limit s q :
  (∀ i, i ≤ 1000 → ¬ marker_at i s) →
  ∃ st' w,
    _read_packet (S limit) (mk_state s q) = Returned (None, st')
    ∧ status_queue st' = q ++ [(WARN, w)]
    ∧ length s ≤ length (ser st') + 1007.
Proof.
  intros Hnone.
  assert (Hne : take 6 s ≠ MARKER).
  { intros Heq. apply (Hnone 0); [lia|]. unfold marker_at. by rewrite slice_0. }
  cbn [_read_packet ser_read ser status_queue]. change (length MARKER) with 6.
  rewrite decide_True by done.
  match goal with
  | |- context [_find_marker ?st1] =>
      assert (Hst1 : ser st1 = drop 6 s ∧ ∃ w, status_queue st1 = q ++ [(WARN, w)])
        by (case_decide; (split; [reflexivity|eexists; reflexivity]));
      pose proof (find_marker_budget (ser st1) (status_queue st1)) as Hb;
      pose proof (find_marker_consumed st1) as (Hstatus & consumed & Hcons & Hlen & _);
      assert (Heta : mk_state (ser st1) (status_queue st1) = st1)
        by (by destruct st1);
      rewrite Heta in Hb; clear Heta;
      destruct (_find_marker st1) as [found st2]
  end.
  destruct Hst1 as [Hser [w Hw]]. cbn [fst snd] in *.
  assert (found = false) as ->.
  { apply Hb. intros i Hi Hm. rewrite Hser in Hm. apply marker_at_drop in Hm.
    apply (Hnone (6 + i)); [lia|done]. }
  exists st2, w. split_and!; [done|congruence|].
  apply (f_equal length) in Hcons, Hser.
  rewrite length_app in Hcons. rewrite length_drop in Hser. lia.
Qed.

Lemma read_packet_gives_up_witness :
  (∀ i, i ≤ 1000 → ¬ marker_at i (replicate 1200 x00))
  ∧ ∃ st' w,
      _read_packet 1 (mk_state (replicate 1200 x00) []) = Returned (None, st')
      ∧ status_queue st' = [] ++ [(WARN, w)]
      ∧ length (replicate 1200 x00) ≤ length (ser st') + 1007.
Proof.
  assert (H : ∀ i, i ≤ 1000 → ¬ marker_at i (replicate 1200 x00))
    by (intros i _; apply no_marker_in_zeros).
  split; [exact H|]. exact (read_packet_gives_up 0 _ [] H).
Defined.

End FrameReaderMore.

(** ** Sample fields *)

(** ** Bytes and fields *)

Section Fields.

Import SegmentationProcess.
Local Open Scope Z_scope.

Lemma byte_val_le_byte z i :
  byte_val (le_byte z i) = (z / 2 ^ (8 * Z.of_nat i)) mod 256.
Proof.
  unfold byte_val, le_byte.
  set (m := (z / 2 ^ (8 * Z.of_nat i)) mod 256).
  assert (Hm : 0 ≤ m < 256) by (apply Z.mod_pos_bound; lia).
  pose proof (Byte.to_of_N_option_map (Z.to_N m)) as Hof.
  replace (N.leb (Z.to_N m) 255) with true in Hof
    by (symmetry; apply N.leb_le; lia).
  destruct (Byte.of_N (Z.to_N m)) as [b|]; [|discriminate].
  injection Hof as Hof. cbn [default id]. rewrite Hof. lia.
Qed.

Lemma testbit_field z k n :
  0 ≤ k → 0 ≤ n →
  Z.testbit (Z.shiftl ((z / 2 ^ k) mod 2 ^ 8) k) n
  = if decide (k ≤ n < k + 8) then Z.testbit z n else false.
Proof.
  intros Hk Hn. rewrite Z.shiftl_spec by done.
  case_decide as Hin.
  - rewrite Z.mod_pow2_bits_low by lia. rewrite Z.div_pow2_bits by lia.
    f_equal. lia.
  - destruct (decide (n < k)).
    + apply Z.testbit_neg_r. lia.
    + apply Z.mod_pow2_bits_high. lia.
Qed.

Lemma le32_value z :
  0 ≤ z < 2 ^ 32 →
  Z.lor ((z / 2 ^ 0) mod 2 ^ 8)
    (Z.lor (Z.shiftl ((z / 2 ^ 8) mod 2 ^ 8) 8)
       (Z.lor (Z.shiftl ((z / 2 ^ 16) mod 2 ^ 8) 16)
              (Z.shiftl ((z / 2 ^ 24) mod 2 ^ 8) 24))) = z.
Proof.
  intros Hz. apply Z.bits_inj'. intros n Hn.
  rewrite <- (Z.shiftl_0_r ((z / 2 ^ 0) mod 2 ^ 8)).
  rewrite !Z.lor_spec, !testbit_field by lia.
  repeat case_decide; rewrite ?orb_false_r, ?orb_false_l; try done; try lia.
  symmetry. rewrite <- (Z.mod_small z (2 ^ 32)) by lia.
  apply Z.mod_pow2_bits_high. lia.
Qed.

Lemma le16_value z :
  0 ≤ z < 2 ^ 16 →
  Z.lor ((z / 2 ^ 0) mod 2 ^ 8) (Z.shiftl ((z / 2 ^ 8) mod 2 ^ 8) 8) = z.
Proof.
  intros Hz. apply Z.bits_inj'. intros n Hn.
  rewrite <- (Z.shiftl_0_r ((z / 2 ^ 0) mod 2 ^ 8)).
  rewrite !Z.lor_spec, !testbit_field by lia.
  repeat case_decide; rewrite ?orb_false_r, ?orb_false_l; try done; try lia.
  symmetry. rewrite <- (Z.mod_small z (2 ^ 16)) by lia.
  apply Z.mod_pow2_bits_high. lia.
Qed.

(** The fields that [struct.pack('<IH', ...)] writes are read back by
    [struct.unpack('<IH', ...)]. *)
Lemma unpack_pack_IH ts adc :
  0 ≤ ts < 2 ^ 32 → 0 ≤ adc < 2 ^ 16 →
  unpack_IH (pack_IH ts adc) = Some (ts, adc).
Proof.
  intros Hts Hadc. unfold pack_IH. cbn [seq fmap list_fmap app unpack_IH].
  rewrite !byte_val_le_byte.
  change (8 * Z.of_nat 0) with 0. change (8 * Z.of_nat 1) with 8.
  change (8 * Z.of_nat 2) with 16. change (8 * Z.of_nat 3) with 24.
  change 256 with (2 ^ 8).
  by rewrite le32_value, le16_value.
Qed.

(** What [struct.unpack('<IH', ...)] returns fits the two fields. *)
Lemma unpack_IH_range chunk ts adc :
  unpack_IH chunk = Some (ts, adc) → 0 ≤ ts < 2 ^ 32 ∧ 0 ≤ adc < 2 ^ 16.
Proof.
  unfold unpack_IH.
  destruct chunk as [|b0 [|b1 [|b2 [|b3 [|b4 [|b5 [|]]]]]]]; try done.
  intros [= <- <-].
  assert (Hb : ∀ b, 0 ≤ byte_val b < 2 ^ 8).
  { intros b. unfold byte_val.
    pose proof (Byte.to_N_bounded b) as Hle.
    change (2 ^ 8) with 256. lia. }
  assert (Hlor : ∀ n a b, 0 ≤ n → 0 ≤ a < 2 ^ n → 0 ≤ b < 2 ^ n → 0 ≤ Z.lor a b < 2 ^ n).
  { intros n a b Hn Ha Hb'.
    assert (Hnn : 0 ≤ Z.lor a b) by (apply Z.lor_nonneg; lia).
    split; [done|].
    destruct (decide (n = 0)) as [->|Hn0].
    { change (2 ^ 0) with 1 in *. assert (a = 0) as -> by lia.
      assert (b = 0) as -> by lia. done. }
    destruct (decide (Z.lor a b = 0)) as [->|Hnz]; [lia|].
    apply Z.log2_lt_pow2; [lia|].
    rewrite Z.log2_lor by lia.
    apply Z.max_lub_lt.
    - destruct (decide (a = 0)) as [->|]; [cbn; lia|apply Z.log2_lt_pow2; lia].
    - destruct (decide (b = 0)) as [->|]; [cbn; lia|apply Z.log2_lt_pow2; lia]. }
  assert (Hsh : ∀ b k, 0 ≤ k → 0 ≤ Z.shiftl (byte_val b) k < 2 ^ (k + 8)).
  { intros b k Hk. rewrite Z.shiftl_mul_pow2 by lia.
    rewrite Z.pow_add_r by lia. specialize (Hb b). nia. }
  pose proof (Hb b0). pose proof (Hb b4).
  pose proof (Hsh b1 8). pose proof (Hsh b2 16). pose proof (Hsh b3 24).
  pose proof (Hsh b5 8).
  split; repeat apply Hlor; try lia.
Qed.

End Fields.

(** ** Packing and unpacking *)

Section Unpacking.

Import SegmentationProcess.

Lemma pack_IH_length ts adc : length (pack_IH ts adc) = 6.
Proof. unfold pack_IH. by rewrite length_app, !length_fmap, !length_seq. Qed.

Lemma pack_samples_length samples : length (pack_samples samples) = 6 * length samples.
Proof.
  unfold pack_samples. apply length_join_fields. intros s. apply pack_IH_length.
Qed.

Lemma slice_join_fields {A} (f : A → list byte) (l : list A) :
  (∀ x, length (f x) = 6) →
  ∀ j x, l !! j = Some x → slice (j * 6) (j * 6 + 6) (mjoin (f <$> l)) = f x.
Proof.
  intros Hf. induction l as [|a l IH]; intros j x Hj; [done|].
  change (mjoin (f <$> a :: l)) with (f a ++ mjoin (f <$> l)).
  destruct j as [|j].
  - injection Hj as ->. unfold slice. cbn [Nat.mul Nat.add drop].
    replace (6 - 0) with (length (f x)) by (rewrite Hf; lia).
    apply take_app_length.
  - cbn [lookup list_lookup] in Hj.
    replace (S j * 6) with (length (f a) + j * 6) by (rewrite Hf; lia).
    rewrite <- Nat.add_assoc, slice_app_r. by apply IH.
Qed.

Lemma unpack_packet_packed samples :
  Forall sample_in_range samples →
  _unpack_packet (pack_samples samples) = Some samples.
Proof.
  intros Hrange. unfold _unpack_packet.
  rewrite pack_samples_length, range_step_6.
  apply mapM_Some_2, Forall2_same_length_lookup_2.
  { by rewrite length_fmap, length_seq. }
  intros j i s Hi Hs.
  apply list_lookup_fmap_Some in Hi as (k & -> & [-> _]%lookup_seq).
  cbn [Nat.add]. unfold pack_samples.
  rewrite (slice_join_fields _ samples (λ s, pack_IH_length s.1 s.2) j s Hs).
  destruct (proj1 (Forall_lookup _ _) Hrange j s Hs) as [Hts Hadc].
  rewrite unpack_pack_IH by done. by destruct s.
Qed.

(** X6. Round trip: the payload packed from samples that fit the wire
    format unpacks into the same samples, however many there are. *)
Theorem unpack_pack_samples samples :
  Forall sample_in_range samples →
  _unpack_packet (pack_samples samples) = Some samples.
Proof. apply unpack_packet_packed. Qed.

Lemma unpack_pack_samples_witness :
  Forall sample_in_range [(5, 7); (4294967295, 65535)]%Z
  ∧ _unpack_packet (pack_samples [(5, 7); (4294967295, 65535)]%Z)
    = Some [(5, 7); (4294967295, 65535)]%Z.
Proof.
  assert (H : Forall sample_in_range [(5, 7); (4294967295, 65535)]%Z).
  { repeat constructor; cbn; lia. }
  split; [exact H|]. exact (unpack_pack_samples _ H).
Defined.

Lemma range_step_length stop : length (range_step stop 6) = (stop + 5) / 6.
Proof.
  unfold range_step. rewrite length_fmap, length_seq. f_equal. lia.
Qed.

Lemma unpack_packet_length (packet_data : list byte) samples :
  _unpack_packet packet_data = Some samples →
  6 * length samples = length packet_data ∧ Forall sample_in_range samples.
Proof.
  intros HP. unfold _unpack_packet in HP.
  pose proof (length_mapM _ _ _ HP) as Hlen.
  rewrite range_step_length in Hlen.
  apply mapM_Some_1 in HP.
  split.
  - destruct (decide (length packet_data = 0)) as [H0|H0].
    { rewrite H0 in *. cbn in Hlen. lia. }
    assert (Hlast : range_step (length packet_data) 6
                      !! ((length packet_data + 5) / 6 - 1)
                    = Some (((length packet_data + 5) / 6 - 1) * 6)).
    { unfold range_step. rewrite list_lookup_fmap, lookup_seq_lt; [done|].
      replace (length packet_data + 6 - 1) with (length packet_data + 5) by lia.
      pose proof (Nat.div_mod_eq (length packet_data + 5) 6).
      pose proof (Nat.mod_upper_bound (length packet_data + 5) 6). lia. }
    destruct (Forall2_lookup_l _ _ _ _ _ HP Hlast) as (s & _ & Hs).
    assert (Hsix : length (slice (((length packet_data + 5) / 6 - 1) * 6)
                             (((length packet_data + 5) / 6 - 1) * 6 + 6)
                             packet_data) = 6).
    { unfold unpack_IH in Hs.
      destruct (slice _ _ packet_data) as [|? [|? [|? [|? [|? [|? [|]]]]]]];
        done. }
    unfold slice in Hsix. rewrite length_take, length_drop in Hsix.
    pose proof (Nat.div_mod_eq (length packet_data + 5) 6).
    pose proof (Nat.mod_upper_bound (length packet_data + 5) 6). lia.
  - apply Forall_lookup. intros j [ts adc] Hj.
    destruct (Forall2_lookup_r _ _ _ _ _ HP Hj) as (i & _ & Hi).
    by apply unpack_IH_range in Hi.
Qed.

(** X7. [_unpack_packet] succeeds exactly on the payloads whose length is a
    multiple of six; it then yields one sample for every six bytes, each
    within the ranges of a u32 and a u16. *)
Theorem unpack_packet_multiple_of_six (packet_data : list byte) :
  (is_Some (_unpack_packet packet_data) ↔ length packet_data `mod` 6 = 0)
  ∧ ∀ samples, _unpack_packet packet_data = Some samples →
      6 * length samples = length packet_data
      ∧ Forall sample_in_range samples.
Proof.
  pose proof (unpack_packet_length packet_data) as Hsome.
  split; [|exact Hsome]. split.
  - intros [samples HP]. destruct (Hsome samples HP) as [Hlen _].
    rewrite <- Hlen. by rewrite Nat.mul_comm, Nat.Div0.mod_mul.
  - intros Hmod.
    destruct (unpack_packet_whole packet_data (length packet_data / 6))
      as (P & HP & _); [|by rewrite HP].
    pose proof (Nat.div_mod_eq (length packet_data) 6). lia.
Qed.

(** X8. A packet whose length is not a multiple of six is dropped whole:
    the step reports the error and changes nothing else, no sample of the
    packet reaches the buffer. *)
Theorem malformed_packet_is_dropped st packet_data arrival_time :
  length packet_data `mod` 6 ≠ 0 →
  segmentation_step st (packet_data, arrival_time)
  = status_put (ERROR, SegmentationError StructError) st.
Proof.
  intros Hmod. unfold segmentation_step.
  destruct (_unpack_packet packet_data) as [samples|] eqn:HP; [|done].
  destruct (unpack_packet_length packet_data samples HP) as [Hlen _].
  exfalso. apply Hmod. rewrite <- Hlen.
  by rewrite Nat.mul_comm, Nat.Div0.mod_mul.
Qed.

Lemma malformed_packet_is_dropped_witness :
  segmentation_step init ([x00; x01; x02; x03; x04; x05; x06], 0%Q)
  = status_put (ERROR, SegmentationError StructError) init.
Proof. apply malformed_packet_is_dropped. vm_compute. discriminate. Defined.

End Unpacking.

(** ** The windower on any packets *)

Section WindowerAnyPackets.

Import SegmentationProcess.

Lemma decode_snoc packets p t :
  decode (packets ++ [(p, t)]) = decode packets ++ default [] (_unpack_packet p).
Proof.
  unfold decode. rewrite fmap_app, join_app. cbn. by rewrite app_nil_r.
Qed.

Lemma segmentation_step_follows X st p t :
  windower_follows X st →
  windower_follows (X ++ default [] (_unpack_packet p)) (segmentation_step st (p, t))
  ∧ segment_count (segmentation_step st (p, t)) ≤ segment_count st + 1.
Proof.
  intros (Hbuf & Hov & Hreach & Hq & Hst).
  unfold segmentation_step.
  destruct (_unpack_packet p) as [P|] eqn:HP; cbn [default id].
  { set (k := segment_count st) in *.
    assert (Hk : 1024 * k ≤ length X) by (destruct Hreach; lia).
    assert (Hbuf' : segment_buffer (buffer_extend P st) = drop (1024 * k) (X ++ P)).
    { unfold buffer_extend. cbn [segment_buffer]. rewrite Hbuf.
      by rewrite drop_app_le by lia. }
    assert (Hov' : overlap_buffer (buffer_extend P st)
                   = if decide (k = 0) then []
                     else slice (1024 * k) (1024 * k + 256) (X ++ P)).
    { unfold buffer_extend. cbn [overlap_buffer]. rewrite Hov.
      case_decide; [done|]. rewrite slice_app_l; [done|]. destruct Hreach; lia. }
    assert (Hlen' : length (segment_buffer (buffer_extend P st))
                    = length X + length P - 1024 * k).
    { rewrite Hbuf', length_drop, length_app. lia. }
    unfold SEGMENT_SIZE, OVERLAP_SIZE. rewrite Hlen'.
    destruct (decide (1024 + 256 ≤ length X + length P - 1024 * k)) as [Hfull|Hfull].
    - rewrite (create_segment_window (X ++ P));
        [|exact Hbuf'|exact Hov'
         |cbn [buffer_extend segment_count]; rewrite length_app; fold k; lia].
      cbn [buffer_extend segment_count segment_queue status_queue]. fold k.
      match goal with
      | |- context [if ?c then _ else _] => destruct c
      end; unfold status_put, segment_put, windower_follows;
        cbn [segment_buffer overlap_buffer segment_count segment_queue status_queue];
        (split; [|lia]); split_and!;
        try done;
        try (by rewrite decide_False by lia);
        try (right; rewrite length_app; lia);
        try (rewrite Hq, Nat.add_1_r, seq_S, fmap_app, windows_of_app by done; done).
      apply Forall_app. split; [done|]. by repeat constructor.
    - split; [|cbn [buffer_extend segment_count]; lia].
      unfold windower_follows.
      cbn [buffer_extend segment_buffer overlap_buffer segment_count segment_queue
           status_queue]. fold k.
      split_and!; [done|done| |by rewrite Hq, windows_of_app|done].
      destruct Hreach; [by left|right; rewrite length_app; lia]. }
  rewrite app_nil_r. split; [|cbn [status_put segment_count]; lia].
  unfold windower_follows, status_put.
  cbn [segment_buffer overlap_buffer segment_count segment_queue status_queue].
  split_and!; try done.
  apply Forall_app. split; [done|]. by repeat constructor.
Qed.

Lemma segmentation_fold_follows packets : ∀ X st,
  windower_follows X st →
  windower_follows (X ++ decode packets) (foldl segmentation_step st packets)
  ∧ segment_count (foldl segmentation_step st packets)
    ≤ segment_count st + length packets.
Proof.
  induction packets as [|[p t] packets IH]; intros X st Hinv.
  - unfold decode. cbn. rewrite app_nil_r. split; [done|lia].
  - destruct (segmentation_step_follows X st p t Hinv) as [Hstep Hcount].
    destruct (IH _ _ Hstep) as [Hrest Hcount'].
    cbn [foldl length]. split; [|lia].
    replace (decode ((p, t) :: packets))
      with (default [] (_unpack_packet p) ++ decode packets) by done.
    by rewrite app_assoc.
Qed.

Lemma segmentation_loop_follows packets :
  windower_follows (decode packets) (segmentation_loop packets init)
  ∧ segment_count (segmentation_loop packets init) ≤ length packets.
Proof.
  unfold segmentation_loop.
  apply (segmentation_fold_follows packets [] (status_put (INFO, Started) init)).
  unfold windower_follows, status_put, init.
  cbn [segment_buffer overlap_buffer segment_count segment_queue status_queue].
  split_and!; try done; [by left|by repeat constructor].
Qed.

Lemma segmentation_loop_count packets :
  length (segment_queue (segmentation_loop packets init))
  = segment_count (segmentation_loop packets init).
Proof.
  destruct (segmentation_loop_follows packets) as [(_ & _ & _ & Hq & _) _].
  by rewrite Hq, length_fmap, length_seq.
Qed.

(** X9. The windows depend on the sample stream alone.  Whatever the sizes
    of the packets, and with malformed packets dropped, the windows put on
    the queue are windows [0, 1, ...] of the decoded stream, at most one per
    packet, every one of them complete in the stream; and [_create_segment]
    never fails inside the loop. *)
Theorem windows_follow_the_stream (packets : list (list byte * Q)) :
  let st := segmentation_loop packets init in
  segment_queue st = window_of (decode packets) <$> seq 0 (length (segment_queue st))
  ∧ length (segment_queue st) ≤ length packets
  ∧ (length (segment_queue st) = 0
     ∨ 1024 * length (segment_queue st) + 256 ≤ length (decode packets))
  ∧ Forall (λ m, m.2 ≠ SegmentationError IndexError) (status_queue st).
Proof.
  intros st. subst st. rewrite segmentation_loop_count.
  destruct (segmentation_loop_follows packets) as [(_ & _ & Hreach & Hq & Hst) Hn].
  done.
Qed.

(** X10. No sample is lost and none is repeated: the cores of the windows
    emitted so far, followed by the samples still in the buffer, are the
    decoded stream, for the time stamps and for the ADC values alike. *)
Theorem windower_keeps_every_sample (packets : list (list byte * Q)) :
  let st := segmentation_loop packets init in
  mjoin ((λ w, slice (core_start_idx w) (core_end_idx w) (extended_timestamp_ms w))
           <$> segment_queue st)
    ++ (ts_of <$> segment_buffer st)
  = ts_of <$> decode packets
  ∧ mjoin ((λ w, slice (core_start_idx w) (core_end_idx w) (extended_adc_value w))
             <$> segment_queue st)
      ++ (adc_of <$> segment_buffer st)
    = adc_of <$> decode packets.
Proof.
  intros st. subst st.
  destruct (segmentation_loop_follows packets) as [(Hbuf & _ & _ & Hq & _) _].
  rewrite Hq, Hbuf. set (K := segment_count _). set (X := decode packets).
  rewrite <- !list_fmap_compose.
  split.
  - rewrite <- (take_drop (1024 * K) X) at 3.
    rewrite fmap_app, <- cores_tile. do 2 f_equal.
    apply list_fmap_ext. intros _ i _. apply window_of_core_ts.
  - rewrite <- (take_drop (1024 * K) X) at 3.
    rewrite fmap_app, <- cores_tile. do 2 f_equal.
    apply list_fmap_ext. intros _ i _. apply window_of_core_adc.
Qed.

(** X11. With whole packets, as the frame reader delivers them, the buffers
    stay bounded: after every packet fewer than 1280 samples are buffered
    and the overlap buffer holds at most 256. *)
Theorem windower_buffers_bounded (packets : list (list byte * Q)) :
  Forall whole_packet packets →
  length (segment_buffer (segmentation_loop packets init)) < SEGMENT_SIZE + OVERLAP_SIZE
  ∧ length (overlap_buffer (segmentation_loop packets init)) ≤ OVERLAP_SIZE.
Proof.
  intros Hall.
  destruct (segmentation_loop_inv packets Hall) as [Hbuf Hov _ Hpend _].
  rewrite Hbuf, Hov, length_drop. unfold SEGMENT_SIZE, OVERLAP_SIZE.
  split; [lia|]. case_decide; [cbn; lia|].
  unfold slice. rewrite length_take. lia.
Qed.

Lemma windower_buffers_bounded_witness :
  length (segment_buffer (segmentation_loop (ramp_packets 6) init))
    < SEGMENT_SIZE + OVERLAP_SIZE
  ∧ length (overlap_buffer (segmentation_loop (ramp_packets 6) init)) ≤ OVERLAP_SIZE.
Proof. exact (windower_buffers_bounded (ramp_packets 6) (ramp_packets_whole 6)). Defined.

End WindowerAnyPackets.

(** ** Decoded values *)

Section ExactValues.

Import SegmentationProcess.

Lemma decode_in_range (packets : list (list byte * Q)) :
  Forall sample_in_range (decode packets).
Proof.
  unfold decode. apply Forall_lookup. intros j s Hs.
  apply list_elem_of_lookup_2, list_elem_of_join in Hs as (P & Hs & HP).
  apply list_elem_of_fmap in HP as ([p t] & -> & _). cbn [fst] in Hs.
  destruct (_unpack_packet p) as [P|] eqn:HP; cbn [default id] in Hs.
  - destruct (unpack_packet_length p P HP) as [_ Hall].
    by apply (proj1 (Forall_forall _ _) Hall).
  - by apply not_elem_of_nil in Hs.
Qed.

Lemma ts_of_in_range (l : list sample) :
  Forall sample_in_range l → ts_of <$> l = fst <$> l.
Proof.
  intros Hall. apply list_fmap_ext. intros j s Hs.
  destruct (proj1 (Forall_lookup _ _) Hall j s Hs) as [Hts _].
  unfold ts_of, uint32. by apply Z.mod_small.
Qed.

Lemma adc_of_in_range (l : list sample) :
  Forall sample_in_range l → adc_of <$> l = snd <$> l.
Proof.
  intros Hall. apply list_fmap_ext. intros j s Hs.
  destruct (proj1 (Forall_lookup _ _) Hall j s Hs) as [_ Hadc].
  unfold adc_of, uint16. by apply Z.mod_small.
Qed.

Lemma slice_in_range a b (l : list sample) :
  Forall sample_in_range l → Forall sample_in_range (slice a b l).
Proof. intros Hall. unfold slice. by apply Forall_take, Forall_drop. Qed.

(** X12. The conversions to [uint32] and [uint16] never change a value
    that came out of [_unpack_packet]: the core of window [i] holds the
    time stamps and ADC values of samples [1024 i .. 1024 i + 1023] of the
    decoded stream as they were decoded. *)
Theorem windows_hold_decoded_values (packets : list (list byte * Q)) :
  let out := segment_queue (segmentation_loop packets init) in
  let stream i := slice (1024 * i) (1024 * i + 1024) (decode packets) in
  timestamp_ms <$> out = (λ i, fst <$> stream i) <$> seq 0 (length out)
  ∧ (λ w, slice (core_start_idx w) (core_end_idx w) (extended_timestamp_ms w)) <$> out
    = (λ i, fst <$> stream i) <$> seq 0 (length out)
  ∧ (λ w, slice (core_start_idx w) (core_end_idx w) (extended_adc_value w)) <$> out
    = (λ i, snd <$> stream i) <$> seq 0 (length out)
  ∧ Forall (λ w, length (timestamp_ms w) = SEGMENT_SIZE) out.
Proof.
  intros out stream. subst out stream. rewrite segmentation_loop_count.
  destruct (segmentation_loop_follows packets) as [(_ & _ & Hreach & Hq & _) _].
  rewrite Hq. set (K := segment_count _) in *. set (X := decode packets) in *.
  assert (Hrange : ∀ i, Forall sample_in_range (slice (1024 * i) (1024 * i + 1024) X)).
  { intros i. apply slice_in_range, decode_in_range. }
  rewrite <- !list_fmap_compose.
  split_and!.
  - apply list_fmap_ext. intros _ i _. unfold compose, window_of.
    cbn [timestamp_ms]. apply ts_of_in_range, Hrange.
  - apply list_fmap_ext. intros _ i _. unfold compose.
    etrans; [apply window_of_core_ts|apply ts_of_in_range, Hrange].
  - apply list_fmap_ext. intros _ i _. unfold compose.
    etrans; [apply window_of_core_adc|apply adc_of_in_range, Hrange].
  - apply Forall_fmap, Forall_forall. intros i Hi. apply elem_of_seq in Hi.
    unfold compose, window_of. cbn [timestamp_ms]. rewrite length_fmap, slice_length; [unfold SEGMENT_SIZE; lia|].
    destruct Hreach; lia.
Qed.

End ExactValues.

(** ** The sampling device *)

Section Device.

Import ECGAcquisition.

Variable ticks_add : Z → Z → Z.
Variable elapsed_ms : nat → Z.

Lemma pack_samples_snoc l (s : SegmentationProcess.sample) :
  pack_samples (l ++ [s]) = pack_samples l ++ pack_IH s.1 s.2.
Proof.
  unfold pack_samples. rewrite fmap_app, join_app. cbn. by rewrite ?app_nil_r.
Qed.

Lemma stamped_snoc now readings r :
  stamped ticks_add elapsed_ms now (readings ++ [r])
  = stamped ticks_add elapsed_ms now readings
    ++ [(ticks_add now (elapsed_ms (length readings)), r)].
Proof.
  unfold stamped. rewrite imap_app. cbn. by rewrite Nat.add_0_r.
Qed.

Lemma stamped_length now readings :
  length (stamped ticks_add elapsed_ms now readings) = length readings.
Proof. unfold stamped. apply length_imap. Qed.

Lemma frames_of_app_short samples extra :
  length (samples ++ extra) / 256 = length samples / 256 →
  frames_of (samples ++ extra) = frames_of samples.
Proof.
  intros Hdiv. unfold frames_of. rewrite Hdiv.
  apply list_fmap_ext. intros i j Hj. apply lookup_seq in Hj as [-> Hj].
  cbn [Nat.add]. rewrite slice_app_l; [done|].
  pose proof (Nat.div_mod_eq (length samples) 256). lia.
Qed.

Lemma frames_of_app_full samples extra :
  length (samples ++ extra) = 256 * (length samples / 256) + 256 →
  frames_of (samples ++ extra)
  = frames_of samples
    ++ [frame (drop (256 * (length samples / 256)) (samples ++ extra))].
Proof.
  intros Hlen. unfold frames_of. set (m := length samples / 256) in *.
  replace (length (samples ++ extra) / 256) with (S m).
  2:{ apply (Nat.div_unique _ 256 (S m) 0); lia. }
  rewrite seq_S, fmap_app. cbn [Nat.add fmap list_fmap]. f_equal.
  - apply list_fmap_ext. intros i j Hj. apply lookup_seq in Hj as [-> Hj].
    cbn [Nat.add]. rewrite slice_app_l; [done|].
    pose proof (Nat.div_mod_eq (length samples) 256). lia.
  - do 2 f_equal. unfold slice. apply take_ge. rewrite length_drop. lia.
Qed.

(** What [sample_all] keeps true from the start of a recording. *)
Definition device_inv (out0 : list byte) (now : Z) (readings : list Z) (st : state)
  : Prop :=
  let samples := stamped ticks_add elapsed_ms now readings in
  sample_count st = length readings
  ∧ buffer_index st = length readings `mod` 256
  ∧ length (adc_buffer st) = 1536
  ∧ take (6 * buffer_index st) (adc_buffer st)
    = pack_samples (drop (256 * (length readings / 256)) samples)
  ∧ start_time_ms st = now
  ∧ is_recording st = true
  ∧ stdout st = out0 ++ mjoin (frames_of samples).

Lemma sample_callback_inv out0 now readings r st :
  device_inv out0 now readings st →
  device_inv out0 now (readings ++ [r])
    (_sample_callback ticks_add elapsed_ms 2 r st).
Proof.
  intros (Hcount & Hidx & Hlen & Hbuf & Hstart & Hrec & Hout).
  pose proof (Nat.div_mod_eq (length readings) 256) as Hdm.
  pose proof (Nat.mod_upper_bound (length readings) 256 ltac:(lia)) as Hmod.
  set (n := length readings) in *. set (k := n `mod` 256) in *.
  set (m := n / 256) in *.
  unfold _sample_callback, BUFFER_SIZE. rewrite Hidx, Hcount, Hstart.
  rewrite decide_True by lia.
  unfold pack_into. rewrite decide_True by lia.
  cbn [buffer_index].
  set (s := (ticks_add now (elapsed_ms n), r)).
  assert (Htake : take (6 * (k + 1))
                    (take (k * 6) (adc_buffer st) ++ pack_IH s.1 s.2
                     ++ drop (k * 6 + 6) (adc_buffer st))
                  = pack_samples (drop (256 * m)
                      (stamped ticks_add elapsed_ms now readings ++ [s]))).
  { rewrite drop_app_le by (rewrite stamped_length; fold n; lia).
    rewrite pack_samples_snoc, <- Hbuf, Hidx. fold k.
    rewrite app_assoc.
    replace (6 * (k + 1))
      with (length (take (k * 6) (adc_buffer st) ++ pack_IH s.1 s.2)).
    2:{ rewrite length_app, length_take, pack_IH_length. lia. }
    rewrite take_app_length. do 2 f_equal. lia. }
  assert (Hlen' : length (take (k * 6) (adc_buffer st) ++ pack_IH s.1 s.2
                          ++ drop (k * 6 + 6) (adc_buffer st)) = 1536).
  { rewrite !length_app, length_take, length_drop, pack_IH_length. lia. }
  assert (Hn' : length (readings ++ [r]) = n + 1).
  { rewrite length_app. cbn. done. }
  destruct (decide (256 ≤ k + 1)) as [Hfull|Hpart].
  - assert (Hk : k = 255) by lia.
    assert (Hmod' : (n + 1) `mod` 256 = 0).
    { symmetry. apply (Nat.mod_unique _ 256 (m + 1)); lia. }
    assert (Hdiv' : (n + 1) / 256 = m + 1).
    { symmetry. apply (Nat.div_unique _ 256 _ 0); lia. }
    unfold device_inv, _flush_buffer, stdout_write.
    cbn [sample_count buffer_index adc_buffer start_time_ms is_recording stdout].
    rewrite Hn', Hmod', Hdiv', stamped_snoc. fold n s.
    split_and!; try done.
    + rewrite Nat.mul_0_r, take_0.
      rewrite drop_ge; [done|].
      rewrite length_app, stamped_length. fold n. cbn [length]. lia.
    + rewrite frames_of_app_full.
      2:{ rewrite length_app, stamped_length. fold n m. cbn [length]. lia. }
      rewrite stamped_length. fold n m.
      rewrite join_app. cbn [mjoin list_join]. rewrite app_nil_r.
      rewrite Hout, <- !app_assoc. do 2 f_equal.
      unfold frame. f_equal.
      rewrite <- Htake. unfold slice. rewrite drop_0.
      replace ((k + 1) * 6 - 0) with (6 * (k + 1)) by lia. done.
  - assert (Hmod' : (n + 1) `mod` 256 = k + 1).
    { symmetry. apply (Nat.mod_unique _ 256 m); lia. }
    assert (Hdiv' : (n + 1) / 256 = m).
    { symmetry. apply (Nat.div_unique _ 256 _ (k + 1)); lia. }
    unfold device_inv.
    cbn [sample_count buffer_index adc_buffer start_time_ms is_recording stdout].
    rewrite Hn', Hmod', Hdiv', stamped_snoc. fold n s.
    split_and!; try done.
    rewrite frames_of_app_short; [done|].
    rewrite length_app, stamped_length. fold n. cbn [length].
    by rewrite Hdiv'.
Qed.

Lemma sample_all_inv out0 now more : ∀ readings st,
  device_inv out0 now readings st →
  device_inv out0 now (readings ++ more) (sample_all ticks_add elapsed_ms more st).
Proof.
  induction more as [|r more IH]; intros readings st Hinv.
  - by rewrite app_nil_r.
  - cbn [sample_all foldl].
    replace (readings ++ r :: more) with ((readings ++ [r]) ++ more)
      by (by rewrite <- app_assoc).
    apply IH. by apply sample_callback_inv.
Qed.

Lemma start_recording_inv now st :
  is_recording st = false → length (adc_buffer st) = 1536 →
  device_inv (stdout st) now [] (start_recording now st).
Proof.
  intros Hrec Hlen. unfold start_recording, device_inv. rewrite Hrec.
  cbn [sample_count buffer_index adc_buffer start_time_ms is_recording stdout].
  split_and!; try done. by rewrite app_nil_r.
Qed.

Lemma device_run now readings st :
  is_recording st = false → length (adc_buffer st) = 1536 →
  device_inv (stdout st) now readings
    (sample_all ticks_add elapsed_ms readings (start_recording now st)).
Proof.
  intros Hrec Hlen.
  apply (sample_all_inv (stdout st) now readings [] _).
  by apply start_recording_inv.
Qed.

(** X13. From the start of a recording the device sends one frame for every
    256 readings, the marker followed by the 256 stamped samples packed in
    order, and nothing else; the readings after the last full buffer wait
    in the buffer. *)
Theorem device_streams_full_buffers now readings st :
  is_recording st = false → length (adc_buffer st) = 1536 →
  let st' := sample_all ticks_add elapsed_ms readings (start_recording now st) in
  stdout st'
  = stdout st ++ mjoin (frames_of (stamped ticks_add elapsed_ms now readings))
  ∧ buffer_index st' = length readings `mod` 256
  ∧ sample_count st' = length readings.
Proof.
  intros Hrec Hlen st'. subst st'.
  destruct (device_run now readings st Hrec Hlen)
    as (Hcount & Hidx & _ & _ & _ & _ & Hout).
  done.
Qed.

Lemma frames_of_one samples :
  length samples = 256 → frames_of samples = [frame samples].
Proof.
  intros Hlen. unfold frames_of. rewrite Hlen.
  change (256 / 256) with 1. cbn [seq fmap list_fmap]. do 2 f_equal.
  unfold slice. rewrite drop_0. apply take_ge. lia.
Qed.

(** X14. End to end: the frame the device sends for 256 readings is
    returned by [_read_packet] as one payload, with nothing put on the
    status queue, and [_unpack_packet] turns that payload back into the 256
    stamped samples, provided the readings are 16-bit values and the ticks
    fit 32 bits. *)
Theorem device_frame_is_received now readings st limit rest q :
  is_recording st = false → length (adc_buffer st) = 1536 → stdout st = [] →
  length readings = 256 →
  (∀ t d, (0 ≤ ticks_add t d < 2 ^ 32)%Z) →
  Forall (λ r, (0 ≤ r < 2 ^ 16)%Z) readings →
  let st' := sample_all ticks_add elapsed_ms readings (start_recording now st) in
  ∃ payload,
    AcquisitionProcess._read_packet (S limit)
      (AcquisitionProcess.mk_state (stdout st' ++ rest) q)
    = Returned (Some payload, AcquisitionProcess.mk_state rest q)
    ∧ SegmentationProcess._unpack_packet payload
      = Some (stamped ticks_add elapsed_ms now readings).
Proof.
  intros Hrec Hlen Hout Hn Hticks Hread st'. subst st'.
  destruct (device_run now readings st Hrec Hlen)
    as (_ & _ & _ & _ & _ & _ & Hstd).
  rewrite Hstd, Hout, frames_of_one by (by rewrite stamped_length).
  cbn [mjoin list_join app]. rewrite app_nil_r.
  exists (pack_samples (stamped ticks_add elapsed_ms now readings)).
  split.
  - unfold frame. rewrite <- app_assoc.
    apply read_packet_synced.
    rewrite pack_samples_length, stamped_length, Hn. done.
  - apply unpack_packet_packed.
    apply Forall_lookup. intros i [ts adc] Hi.
    unfold stamped in Hi. apply list_lookup_imap_Some in Hi as (r & Hr & [= -> ->]).
    split; cbn [fst snd]; [apply Hticks|].
    by apply (proj1 (Forall_lookup _ _) Hread i r).
Qed.

(** X15. A recording stopped with a partly filled buffer ends in a short
    frame: after the frames of the full buffers the device writes the
    marker and the readings left over, [6 + 6 * (n mod 256)] bytes for [n]
    readings, fewer than the 1542 bytes of a full frame; the
    recording flag is cleared and the buffer index is back at zero. *)
Theorem stop_sends_short_frame now readings st :
  is_recording st = false → length (adc_buffer st) = 1536 →
  length readings `mod` 256 ≠ 0 →
  let samples := stamped ticks_add elapsed_ms now readings in
  let rest := drop (256 * (length readings / 256)) samples in
  let st' := stop_recording 2
               (sample_all ticks_add elapsed_ms readings (start_recording now st)) in
  stdout st' = stdout st ++ mjoin (frames_of samples) ++ frame rest
  ∧ length (frame rest) = 6 + 6 * (length readings `mod` 256)
  ∧ length (frame rest) < AcquisitionProcess.PACKET_SIZE
  ∧ is_recording st' = false
  ∧ buffer_index st' = 0.
Proof.
  intros Hrec Hlen Hmod samples rest st'. subst st'.
  destruct (device_run now readings st Hrec Hlen)
    as (_ & Hidx & _ & Hbuf & _ & Hrec' & Hstd).
  fold samples in Hbuf, Hstd. fold rest in Hbuf.
  pose proof (Nat.div_mod_eq (length readings) 256) as Hdm.
  pose proof (Nat.mod_upper_bound (length readings) 256 ltac:(lia)) as Hlt.
  assert (Hrest : length rest = length readings `mod` 256).
  { unfold rest, samples. rewrite length_drop, stamped_length. lia. }
  assert (Hframe : length (frame rest) = 6 + 6 * (length readings `mod` 256)).
  { unfold frame. rewrite length_app, pack_samples_length, Hrest. done. }
  unfold stop_recording. rewrite Hrec'. cbn [buffer_index].
  rewrite Hidx, decide_True by lia.
  unfold _flush_buffer, stdout_write.
  cbn [stdout is_recording buffer_index adc_buffer].
  unfold slice. rewrite drop_0. rewrite Hidx in Hbuf.
  replace (length readings `mod` 256 * 6 - 0)
    with (6 * (length readings `mod` 256)) by lia.
  rewrite Hbuf, Hstd.
  split_and!; try done.
  - unfold frame. by rewrite <- !app_assoc.
  - rewrite Hframe.
    unfold AcquisitionProcess.PACKET_SIZE, AcquisitionProcess.PACKET_DATA_SIZE,
      AcquisitionProcess.BUFFER_SIZE, AcquisitionProcess.MARKER.
    cbn [length]. lia.
Qed.

End Device.

Lemma device_streams_full_buffers_witness :
  let st' := ECGAcquisition.sample_all wrap_ticks_add exact_elapsed_ms
               (Z.of_nat <$> seq 0 300)
               (ECGAcquisition.start_recording 5 (ECGAcquisition.init false)) in
  ECGAcquisition.stdout st'
  = ECGAcquisition.stdout (ECGAcquisition.init false)
    ++ mjoin (frames_of (stamped wrap_ticks_add exact_elapsed_ms 5
                           (Z.of_nat <$> seq 0 300)))
  ∧ ECGAcquisition.buffer_index st' = length (Z.of_nat <$> seq 0 300) `mod` 256
  ∧ ECGAcquisition.sample_count st' = length (Z.of_nat <$> seq 0 300).
Proof.
  apply (device_streams_full_buffers wrap_ticks_add exact_elapsed_ms 5
           (Z.of_nat <$> seq 0 300) (ECGAcquisition.init false)).
  - reflexivity.
  - vm_compute. reflexivity.
Defined.

Lemma wrap_ticks_add_range t d : (0 ≤ wrap_ticks_add t d < 2 ^ 32)%Z.
Proof.
  unfold wrap_ticks_add.
  pose proof (Z.mod_pos_bound (t + d) (2 ^ 30) ltac:(lia)). lia.
Qed.

Lemma device_frame_is_received_witness :
  let st' := ECGAcquisition.sample_all wrap_ticks_add exact_elapsed_ms
               (Z.of_nat <$> seq 0 256)
               (ECGAcquisition.start_recording 5 (ECGAcquisition.init false)) in
  ∃ payload,
    AcquisitionProcess._read_packet 1
      (AcquisitionProcess.mk_state (ECGAcquisition.stdout st' ++ []) [])
    = Returned (Some payload, AcquisitionProcess.mk_state [] [])
    ∧ SegmentationProcess._unpack_packet payload
      = Some (stamped wrap_ticks_add exact_elapsed_ms 5 (Z.of_nat <$> seq 0 256)).
Proof.
  apply (device_frame_is_received wrap_ticks_add exact_elapsed_ms 5
           (Z.of_nat <$> seq 0 256) (ECGAcquisition.init false) 0 [] []).
  - reflexivity.
  - vm_compute. reflexivity.
  - reflexivity.
  - vm_compute. reflexivity.
  - exact wrap_ticks_add_range.
  - apply (bool_decide_unpack _). vm_compute. exact I.
Defined.

Lemma stop_sends_short_frame_witness :
  let samples := stamped wrap_ticks_add exact_elapsed_ms 5 (Z.of_nat <$> seq 0 300) in
  let rest := drop (256 * (length (Z.of_nat <$> seq 0 300) / 256)) samples in
  let st' := ECGAcquisition.stop_recording 2
               (ECGAcquisition.sample_all wrap_ticks_add exact_elapsed_ms
                  (Z.of_nat <$> seq 0 300)
                  (ECGAcquisition.start_recording 5 (ECGAcquisition.init false))) in
  ECGAcquisition.stdout st'
  = ECGAcquisition.stdout (ECGAcquisition.init false)
    ++ mjoin (frames_of samples) ++ frame rest
  ∧ length (frame rest) = 6 + 6 * (length (Z.of_nat <$> seq 0 300) `mod` 256)
  ∧ length (frame rest) < AcquisitionProcess.PACKET_SIZE
  ∧ ECGAcquisition.is_recording st' = false
  ∧ ECGAcquisition.buffer_index st' = 0.
Proof.
  apply (stop_sends_short_frame wrap_ticks_add exact_elapsed_ms 5
           (Z.of_nat <$> seq 0 300) (ECGAcquisition.init false)).
  - reflexivity.
  - vm_compute. reflexivity.
  - vm_compute. discriminate.
Defined.

(** ** More on the filter stage *)

Section FilterStageMore.

Import FilteringProcess.

Context {V : Type} `{FloatOps V} {coeffs : Type}.
Variable sp_iirnotch : Q → Q → Q → result coeffs.
Variable sp_remez : nat → list Q → list Q → Q → list Q → result coeffs.
Variable sp_ellipord : Q → Q → Q → Q → result (nat * Q).
Variable sp_ellip_high : nat → Q → Q → Q → result coeffs.
Variable sp_filtfilt : coeffs → list V → result (list V).

Local Abbreviation pipeline :=
  (apply_filtering_pipeline sp_iirnotch sp_remez sp_ellipord sp_ellip_high sp_filtfilt).
Local Abbreviation process :=
  (process_segment sp_iirnotch sp_remez sp_ellipord sp_ellip_high sp_filtfilt).
Local Abbreviation step :=
  (filtering_step sp_iirnotch sp_remez sp_ellipord sp_ellip_high sp_filtfilt).
Local Abbreviation loop :=
  (filtering_loop sp_iirnotch sp_remez sp_ellipord sp_ellip_high sp_filtfilt).

(** X17. A segment whose core comes out empty, because its bounds lie
    beyond the filtered array, is not forwarded: the normalisation raises
    [ValueError] on the empty core, and the loop reports that error and
    leaves the inference queue and the counter as they were. *)
Theorem empty_core_is_reported st seg filtered_extended :
  pipeline (SegmentationProcess.extended_adc_value seg) = Ok filtered_extended →
  length filtered_extended ≤ SegmentationProcess.core_start_idx seg →
  process seg = Raise ValueError
  ∧ step st seg = status_put (ERROR, FilteringError ValueError) st.
Proof.
  intros Hpipe Hshort.
  assert (Hp : process seg = Raise ValueError).
  { unfold process_segment. rewrite Hpipe. cbn [mbind result_bind].
    unfold slice. rewrite (drop_ge filtered_extended) by done.
    rewrite take_nil. reflexivity. }
  split; [done|]. unfold filtering_step. by rewrite Hp.
Qed.

Lemma filtering_step_progress st seg :
  omap reported_progress (status_queue st)
  = (λ k, 10 * (k + 1)) <$> seq 0 (processed_count st / 10) →
  omap reported_progress (status_queue (step st seg))
  = (λ k, 10 * (k + 1)) <$> seq 0 (processed_count (step st seg) / 10)
  ∧ length (inference_queue (step st seg)) + processed_count st
    = length (inference_queue st) + processed_count (step st seg).
Proof.
  intros Hinv. unfold filtering_step.
  destruct (process seg) as [p|e].
  - cbn [processed_count].
    pose proof (Nat.div_mod_eq (processed_count st) 10) as Hdm.
    pose proof (Nat.mod_upper_bound (processed_count st) 10 ltac:(lia)) as Hlt.
    pose proof (Nat.div_mod_eq (processed_count st + 1) 10) as Hdm'.
    pose proof (Nat.mod_upper_bound (processed_count st + 1) 10 ltac:(lia)) as Hlt'.
    case_decide as Hten.
    + unfold status_put. cbn [status_queue processed_count inference_queue].
      rewrite omap_app, Hinv. cbn [omap list_omap reported_progress].
      assert (Hdiv : (processed_count st + 1) / 10 = processed_count st / 10 + 1)
        by lia.
      rewrite Hdiv.
      replace (processed_count st / 10 + 1) with (S (processed_count st / 10))
        by lia.
      rewrite seq_S, fmap_app, length_app.
      cbn [fmap list_fmap Nat.add length]. split; [|lia].
      do 3 f_equal. lia.
    + cbn [status_queue processed_count inference_queue].
      assert (Hdiv : (processed_count st + 1) / 10 = processed_count st / 10)
        by lia.
      rewrite Hdiv, length_app. cbn [length]. split; [done|lia].
  - unfold status_put. cbn [status_queue processed_count inference_queue].
    rewrite omap_app, Hinv. cbn [omap list_omap reported_progress].
    by rewrite app_nil_r.
Qed.

Lemma filtering_fold_progress segments : ∀ st,
  omap reported_progress (status_queue st)
  = (λ k, 10 * (k + 1)) <$> seq 0 (processed_count st / 10) →
  omap reported_progress (status_queue (foldl step st segments))
  = (λ k, 10 * (k + 1)) <$> seq 0 (processed_count (foldl step st segments) / 10)
  ∧ length (inference_queue (foldl step st segments)) + processed_count st
    = length (inference_queue st) + processed_count (foldl step st segments).
Proof.
  induction segments as [|seg segments IH]; intros st Hinv; cbn [foldl]; [done|].
  destruct (filtering_step_progress st seg Hinv) as [Hinv' Hlen].
  destruct (IH _ Hinv') as [Hq Hlen'].
  split; [done|lia].
Qed.

(** X18. Counting in the filter stage: started from [__init__], the loop's
    [processed_count] is the number of segments it has put on the inference
    queue, and the progress messages on the status queue are
    "10 segments processed", "20 segments processed", ... in order, one for
    every tenth forwarded segment and no other. *)
Theorem filtering_loop_counts segments :
  let st := loop segments init in
  processed_count st = length (inference_queue st)
  ∧ omap reported_progress (status_queue st)
    = (λ k, 10 * (k + 1)) <$> seq 0 (length (inference_queue st) / 10).
Proof.
  intros st. subst st. unfold filtering_loop.
  destruct (filtering_fold_progress segments (status_put (INFO, Started) init))
    as [Hq Hlen]; [done|].
  cbn [status_put init processed_count inference_queue length] in Hlen.
  assert (Hcount : processed_count
                     (foldl step (status_put (INFO, Started) init) segments)
                   = length (inference_queue
                       (foldl step (status_put (INFO, Started) init) segments)))
    by lia.
  split; [done|]. by rewrite <- Hcount.
Qed.

End FilterStageMore.

Lemma empty_core_is_reported_witness :
  FilteringProcess.process_segment (V := Q) plain_iirnotch plain_remez
    plain_ellipord plain_ellip_high plain_filtfilt coreless_segment
  = Raise ValueError
  ∧ FilteringProcess.filtering_step (V := Q) plain_iirnotch plain_remez
      plain_ellipord plain_ellip_high plain_filtfilt
      FilteringProcess.init coreless_segment
    = FilteringProcess.status_put
        (ERROR, FilteringProcess.FilteringError ValueError) FilteringProcess.init.
Proof.
  apply (empty_core_is_reported (V := Q) plain_iirnotch plain_remez plain_ellipord
           plain_ellip_high plain_filtfilt FilteringProcess.init coreless_segment
           [100; 200]%Q).
  - vm_compute. reflexivity.
  - vm_compute. lia.
Defined.

(** ** More on the inference stage *)

Section InferenceStageMore.

Import InferenceProcess.

Context {V : Type} `{FloatOps V} {interp : Type}.
Variable get_input_details : interp → result (list nat).
Variable get_output_details : interp → result (list nat).
Variable set_tensor : nat → list V → interp → result interp.
Variable invoke : interp → result interp.
Variable get_tensor : nat → interp → result (list (list V)).
Variable output_dir : string.

Local Abbreviation model :=
  (invoke_model get_input_details get_output_details set_tensor invoke get_tensor).
Local Abbreviation run :=
  (run_inference get_input_details get_output_details set_tensor invoke get_tensor).
Local Abbreviation iteration :=
  (inference_iteration get_input_details get_output_details set_tensor invoke
     get_tensor output_dir).
Local Abbreviation process :=
  (process_segment get_input_details get_output_details set_tensor invoke get_tensor).
Local Abbreviation loop :=
  (inference_loop get_input_details get_output_details set_tensor invoke
     get_tensor output_dir).

Lemma result_bind_Ok {A B} (m : result A) (f : A → result B) b :
  m ≫= f = Ok b → ∃ a, m = Ok a ∧ f a = Ok b.
Proof. destruct m as [a|e]; [by exists a|done]. Qed.

Lemma invoke_model_label it processed_signal p :
  model it processed_signal = Ok p →
  RHYTHM_CLASSES !! class p = Some (label p)
  ∧ length processed_signal = 1024.
Proof.
  unfold invoke_model. intros Hm.
  apply result_bind_Ok in Hm as (ins & _ & Hm).
  apply result_bind_Ok in Hm as (outs & _ & Hm).
  apply result_bind_Ok in Hm as (input_data & Hshape & Hm).
  apply result_bind_Ok in Hm as (input_index & _ & Hm).
  apply result_bind_Ok in Hm as (it1 & _ & Hm).
  apply result_bind_Ok in Hm as (it2 & _ & Hm).
  apply result_bind_Ok in Hm as (output_index & _ & Hm).
  apply result_bind_Ok in Hm as (output_data & _ & Hm).
  apply result_bind_Ok in Hm as (row & _ & Hm).
  apply result_bind_Ok in Hm as (predicted_class & _ & Hm).
  apply result_bind_Ok in Hm as (conf & _ & Hm).
  apply result_bind_Ok in Hm as (lbl & Hlbl & Hm).
  injection Hm as <-. cbn [class label]. split.
  - by destruct (RHYTHM_CLASSES !! predicted_class) as [l|]; [injection Hlbl as ->|].
  - unfold reshape_1_1024_1 in Hshape. by case_decide.
Qed.

Lemma rhythm_class_bound c l : RHYTHM_CLASSES !! c = Some l → c < 4.
Proof.
  intros Hc. destruct (decide (c < 4)) as [|Hge]; [done|].
  unfold RHYTHM_CLASSES in Hc.
  rewrite !lookup_insert_ne, lookup_singleton_ne in Hc by lia. done.
Qed.

(** X19. Whatever the interpreter computes, the prediction that
    [run_inference] returns is consistent: its class is one of 0..3 and its
    label is the entry of [RHYTHM_CLASSES] for that class.  A model whose
    highest output has an index outside the table does not get through: the
    [KeyError] is caught and the prediction is the default one. *)
Theorem run_inference_label_matches_class processed_signal (st : state V interp) :
  let p := (run processed_signal st).1 in
  RHYTHM_CLASSES !! class p = Some (label p)
  ∧ class p < 4
  ∧ (p = default_prediction ∨ length processed_signal = 1024).
Proof.
  intros p. subst p.
  assert (Hgoal : RHYTHM_CLASSES !! class (run processed_signal st).1
                  = Some (label (run processed_signal st).1)
                  ∧ ((run processed_signal st).1 = default_prediction
                     ∨ length processed_signal = 1024)).
  { unfold run_inference. destruct (interpreter st) as [it|]; [|split; [done|by left]].
    destruct (model it processed_signal) as [p|e] eqn:Hm; [|split; [done|by left]].
    destruct (invoke_model_label it processed_signal p Hm). split; [done|by right]. }
  destruct Hgoal as [Hlabel Hlen].
  split_and!; [done| |done]. by eapply rhythm_class_bound.
Qed.

(** *** Sessions over the whole loop *)

Lemma status_put_counters m (st : state V interp) :
  counters (status_put m st) = counters st.
Proof. done. Qed.

Lemma writerow_counters path row (st : state V interp) :
  counters (writerow path row st) = counters st.
Proof. done. Qed.

Lemma set_files_counters fs (st : state V interp) :
  counters (set_files fs st) = counters st.
Proof. done. Qed.

Lemma status_put_status_queue m (st : state V interp) :
  status_queue (status_put m st) = status_queue st ++ [m].
Proof. done. Qed.

Create Rewrite HintDb session_fields.

Hint Rewrite @status_put_files @status_put_signal_file @status_put_filtered_file @status_put_annotation_file @status_put_current_session status_put_counters status_put_status_queue set_files_counters @set_files_files writerow_counters : session_fields.

Lemma stop_session_closed time_now (st : state V interp) :
  session_closed (stop_session time_now st)
  ∧ files (stop_session time_now st) = files st
  ∧ status_queue (stop_session time_now st)
    = status_queue st
      ++ [(STATUS, Saved (current_session st)
                     (match started_at st with
                      | Some t => py_int (time_now - t)
                      | None => recording_duration st
                      end));
          (STATUS, SessionStop (current_session st));
          (INFO, SamplesWritten (samples_written st));
          (INFO, InferencesPerformed (inference_count st))].
Proof.
  unfold stop_session, session_closed. cbv zeta.
  cbn [signal_file filtered_file annotation_file current_session inference_count
       samples_written files status_queue].
  autorewrite with session_fields.
  cbn [signal_file filtered_file annotation_file current_session inference_count
       samples_written files status_queue recording_duration].
  split_and!; try done; by rewrite <- !app_assoc.
Qed.

Lemma foldl_writerow_counters {A} (path : string) (g : A → list (cell V)) rows :
  ∀ st : state V interp,
  counters (foldl (λ st r, writerow path (g r) st) st rows) = counters st.
Proof.
  induction rows as [|r rows IH]; intros st; cbn [foldl]; [done|].
  by rewrite IH.
Qed.

Lemma counters_fields (st st' : state V interp) :
  counters st' = counters st →
  inference_count st' = inference_count st
  ∧ samples_written st' = samples_written st
  ∧ recording_start_time st' = recording_start_time st
  ∧ recording_duration st' = recording_duration st
  ∧ interpreter st' = interpreter st.
Proof. unfold counters. intros [= -> -> -> -> ->]. done. Qed.

Lemma write_signal_samples_counters seg (st : state V interp) sig :
  signal_file st = Some sig →
  counters (write_signal_samples seg st)
  = (inference_count st,
     samples_written st + length (FilteringProcess.timestamp_ms seg),
     recording_start_time st, recording_duration st, interpreter st).
Proof.
  intros Hsig. unfold write_signal_samples. rewrite Hsig. cbv zeta.
  set (st1 := foldl _ st _).
  assert (H1 : counters st1 = counters st) by apply foldl_writerow_counters.
  set (st2 := match filtered_file st1 with Some _ => _ | None => _ end).
  assert (H2 : counters st2 = counters st).
  { unfold st2. destruct (filtered_file st1); [|done].
    by rewrite foldl_writerow_counters. }
  clearbody st2. clear H1. clearbody st1.
  apply counters_fields in H2 as (Hc & Hw & Ht & Hd & Hi).
  unfold counters.
  cbn [inference_count samples_written recording_start_time recording_duration
       interpreter].
  by rewrite Hc, Hw, Ht, Hd, Hi.
Qed.

Lemma write_rhythm_annotation_counters seg p time_now (st : state V interp) :
  counters (write_rhythm_annotation seg p time_now st) = counters st.
Proof.
  unfold write_rhythm_annotation. destruct (annotation_file st) as [ann|]; [|done].
  cbv zeta.
  set (st1 := writerow ann _ st).
  assert (H1 : counters st1 = counters st) by done. clearbody st1.
  set (st2 := match buzzer st1 with Some _ => _ | None => _ end).
  assert (H2 : counters st2 = counters st).
  { unfold st2. destruct (buzzer st1); [case_decide|]; done. }
  clearbody st2.
  destruct (started_at st2); by rewrite status_put_counters.
Qed.

Lemma process_segment_counters seg time_now (st : state V interp) sig :
  signal_file st = Some sig →
  counters (process seg time_now st)
  = (inference_count st + 1,
     samples_written st + length (FilteringProcess.timestamp_ms seg),
     recording_start_time st, recording_duration st, interpreter st).
Proof.
  intros Hsig. unfold process_segment.
  pose proof (run_inference_state get_input_details get_output_details set_tensor
                invoke get_tensor (FilteringProcess.processed_signal seg) st) as Hrun.
  destruct (run (FilteringProcess.processed_signal seg) st) as [p st1].
  cbn [fst snd] in Hrun.
  assert (Hst1 : signal_file st1 = Some sig ∧ counters st1 = counters st).
  { destruct Hrun as [->|[e ->]]; done. }
  clear Hrun. destruct Hst1 as [Hsig1 Hc1].
  pose proof (write_signal_samples_counters seg st1 sig Hsig1) as Hc2.
  set (st2 := write_signal_samples seg st1) in *.
  pose proof (write_rhythm_annotation_counters seg p time_now st2) as Hc3.
  set (st3 := write_rhythm_annotation seg p time_now st2) in *.
  apply counters_fields in Hc1 as (Hc & Hw & Ht & Hd & Hi).
  rewrite Hc2 in Hc3. clearbody st3.
  unfold counters in *.
  cbn [inference_count samples_written recording_start_time recording_duration
       interpreter].
  injection Hc3 as -> -> -> -> ->.
  by rewrite Hc, Hw, Ht, Hd, Hi.
Qed.

Lemma start_session_counters name time_now (st : state V interp) :
  counters (start_session output_dir name time_now st)
  = (inference_count st, samples_written st, Some time_now, 0%Z, interpreter st).
Proof. reflexivity. Qed.

(** The progress message at the end of a pass changes nothing but the
    status queue. *)
Lemma progress_put_fields (st : state V interp) :
  let st' := if decide (inference_count st mod 10 = 0)
             then status_put (DEBUG, Inferences (inference_count st)) st
             else st in
  files st' = files st ∧ signal_file st' = signal_file st
  ∧ filtered_file st' = filtered_file st
  ∧ annotation_file st' = annotation_file st
  ∧ current_session st' = current_session st
  ∧ counters st' = counters st.
Proof. cbv zeta. case_decide; done. Qed.

(** A pass that finds a segment while a session is open. *)
Lemma iteration_in_session (st : state V interp) t seg sig fil ann a b c :
  segment t = Some seg → control t ≠ Some "STOP_SESSION" →
  signal_file st = Some sig → filtered_file st = Some fil →
  annotation_file st = Some ann →
  sig ≠ fil → sig ≠ ann → fil ≠ ann →
  files st !! sig = Some a → files st !! fil = Some b → files st !! ann = Some c →
  (iteration (st, true) t).2 = true
  ∧ files (iteration (st, true) t).1
    = <[ann := c ++ [annotation_row seg
                       (run (FilteringProcess.processed_signal seg) st).1]]>
        (<[fil := b ++ filtered_rows seg]>
           (<[sig := a ++ signal_rows seg]> (files st)))
  ∧ signal_file (iteration (st, true) t).1 = Some sig
  ∧ filtered_file (iteration (st, true) t).1 = Some fil
  ∧ annotation_file (iteration (st, true) t).1 = Some ann
  ∧ current_session (iteration (st, true) t).1 = current_session st
  ∧ counters (iteration (st, true) t).1
    = (inference_count st + 1,
       samples_written st + length (FilteringProcess.timestamp_ms seg),
       recording_start_time st, recording_duration st, interpreter st).
Proof.
  intros Hseg Hctl Hsig Hfil Hann Hsf Hsa Hfa Ha Hb Hc.
  unfold inference_iteration.
  assert (Hafter : match control t with
                   | Some msg =>
                       if decide (msg = "STOP_SESSION" ∧ true = true)
                       then (stop_session (now t) st, false)
                       else (st, true)
                   | None => (st, true)
                   end = (st, true)).
  { destruct (control t) as [msg|]; [|done].
    rewrite decide_False; [done|]. intros [-> _]. by apply Hctl. }
  rewrite Hafter, Hseg.
  destruct (process_segment_spec get_input_details get_output_details set_tensor
              invoke get_tensor seg (now t) st sig fil ann a b c
              Hsig Hfil Hann Hsf Hsa Hfa Ha Hb Hc)
    as (Hf2 & Hsig2 & Hfil2 & Hann2 & Hcur2).
  pose proof (process_segment_counters seg (now t) st sig Hsig) as Hc2.
  set (st2 := process seg (now t) st) in *.
  destruct (progress_put_fields st2) as (Hf3 & Hsig3 & Hfil3 & Hann3 & Hcur3 & Hc3).
  cbn [fst snd].
  rewrite Hf3, Hsig3, Hfil3, Hann3, Hcur3, Hc3. done.
Qed.

(** X21. A segment that arrives while a session is open is appended to the
    three files of that session: its sample rows, its filtered rows and one
    annotation row go behind what the files hold, no header is written
    again, the session stays as it is, [inference_count] grows by one and
    [samples_written] by the number of time stamps of the segment. *)
Theorem segment_in_session_appends (st : state V interp) t seg sig fil ann a b c :
  segment t = Some seg → control t ≠ Some "STOP_SESSION" →
  signal_file st = Some sig → filtered_file st = Some fil →
  annotation_file st = Some ann →
  sig ≠ fil → sig ≠ ann → fil ≠ ann →
  files st !! sig = Some a → files st !! fil = Some b → files st !! ann = Some c →
  (iteration (st, true) t).2 = true
  ∧ files (iteration (st, true) t).1
    = <[ann := c ++ [annotation_row seg
                       (run (FilteringProcess.processed_signal seg) st).1]]>
        (<[fil := b ++ filtered_rows seg]>
           (<[sig := a ++ signal_rows seg]> (files st)))
  ∧ signal_file (iteration (st, true) t).1 = Some sig
  ∧ filtered_file (iteration (st, true) t).1 = Some fil
  ∧ annotation_file (iteration (st, true) t).1 = Some ann
  ∧ current_session (iteration (st, true) t).1 = current_session st
  ∧ inference_count (iteration (st, true) t).1 = inference_count st + 1
  ∧ samples_written (iteration (st, true) t).1
    = samples_written st + length (FilteringProcess.timestamp_ms seg).
Proof.
  intros Hseg Hctl Hsig Hfil Hann Hsf Hsa Hfa Ha Hb Hc.
  destruct (iteration_in_session st t seg sig fil ann a b c
              Hseg Hctl Hsig Hfil Hann Hsf Hsa Hfa Ha Hb Hc)
    as (Hact & Hfiles & Hs & Hf & Han & Hcur & Hcount).
  unfold counters in Hcount. injection Hcount as Hn Hw _ _ _.
  done.
Qed.

Lemma iteration_idle (st : state V interp) t :
  control t ≠ Some "STOP_SESSION" → segment t = None →
  iteration (st, true) t = (st, true).
Proof.
  intros Hctl Hseg. unfold inference_iteration. rewrite Hseg.
  destruct (control t) as [msg|]; [|done].
  rewrite decide_False; [done|]. intros [-> _]. by apply Hctl.
Qed.

(** A pass that finds a segment and no session is a pass within the session
    it opens. *)
Lemma iteration_after_start (st : state V interp) t seg :
  segment t = Some seg →
  iteration (st, false) t
  = iteration (start_session output_dir ("ecg_" +:+ stamp t) (now t) st, true)
      (mk_tick None (Some seg) (now t) (stamp t)).
Proof.
  intros Hseg. unfold inference_iteration. rewrite Hseg.
  cbn [control segment now stamp].
  destruct (control t) as [msg|]; [|done].
  rewrite decide_False; [done|]. by intros [_ ?].
Qed.

Lemma iterations_in_session rest :
  ∀ (st : state V interp) sig fil ann a b c,
  Forall (λ t, control t ≠ Some "STOP_SESSION") rest →
  signal_file st = Some sig → filtered_file st = Some fil →
  annotation_file st = Some ann →
  sig ≠ fil → sig ≠ ann → fil ≠ ann →
  files st !! sig = Some a → files st !! fil = Some b → files st !! ann = Some c →
  (foldl iteration (st, true) rest).2 = true
  ∧ files (foldl iteration (st, true) rest).1 !! sig
    = Some (a ++ mjoin (signal_rows <$> omap segment rest))
  ∧ files (foldl iteration (st, true) rest).1 !! fil
    = Some (b ++ mjoin (filtered_rows <$> omap segment rest))
  ∧ (∃ ps, length ps = length (omap segment rest)
           ∧ files (foldl iteration (st, true) rest).1 !! ann
             = Some (c ++ zip_with annotation_row (omap segment rest) ps))
  ∧ (∀ path, path ≠ sig → path ≠ fil → path ≠ ann →
       files (foldl iteration (st, true) rest).1 !! path = files st !! path)
  ∧ current_session (foldl iteration (st, true) rest).1 = current_session st
  ∧ counters (foldl iteration (st, true) rest).1
    = (inference_count st + length (omap segment rest),
       samples_written st + total_samples (omap segment rest),
       recording_start_time st, recording_duration st, interpreter st).
Proof.
  induction rest as [|t rest IH];
    intros st sig fil ann a b c Hctl Hsig Hfil Hann Hsf Hsa Hfa Ha Hb Hc.
  { cbn [foldl omap list_omap fmap list_fmap mjoin list_join zip_with length fst snd].
    unfold total_samples. cbn [fmap list_fmap sum_list].
    rewrite !app_nil_r, !Nat.add_0_r. split_and!; try done. by exists []. }
  apply Forall_cons in Hctl as [Hctl_t Hctl].
  cbn [foldl]. destruct (segment t) as [seg|] eqn:Hseg.
  - destruct (iteration_in_session st t seg sig fil ann a b c
                Hseg Hctl_t Hsig Hfil Hann Hsf Hsa Hfa Ha Hb Hc)
      as (Hact & Hfiles & Hs1 & Hf1 & Han1 & Hcur1 & Hcount1).
    destruct (iteration (st, true) t) as [st1 active1]. cbn [fst snd] in *.
    subst active1.
    assert (Hcnt : inference_count st1 = inference_count st + 1
                   ∧ samples_written st1
                     = samples_written st
                       + length (FilteringProcess.timestamp_ms seg)
                   ∧ recording_start_time st1 = recording_start_time st
                   ∧ recording_duration st1 = recording_duration st
                   ∧ interpreter st1 = interpreter st).
    { unfold counters in Hcount1. by injection Hcount1 as -> -> -> -> ->. }
    destruct Hcnt as (Hn & Hw & Ht & Hd & Hi).
    destruct (IH st1 sig fil ann (a ++ signal_rows seg) (b ++ filtered_rows seg)
                (c ++ [annotation_row seg
                         (run (FilteringProcess.processed_signal seg) st).1])
                Hctl Hs1 Hf1 Han1 Hsf Hsa Hfa)
      as (Hact' & Hsig' & Hfil' & (ps & Hps & Hann') & Hother & Hcur' & Hcount').
    { rewrite Hfiles, !lookup_insert_ne, lookup_insert_eq by done. done. }
    { rewrite Hfiles, lookup_insert_ne, lookup_insert_eq by done. done. }
    { rewrite Hfiles, lookup_insert_eq. done. }
    cbn [omap list_omap]. rewrite Hseg.
    cbn [fmap list_fmap mjoin list_join length].
    split_and!; try done.
    + by rewrite Hsig', <- app_assoc.
    + by rewrite Hfil', <- app_assoc.
    + exists ((run (FilteringProcess.processed_signal seg) st).1 :: ps).
      split; [cbn [length]; by rewrite Hps|].
      rewrite Hann', <- app_assoc. done.
    + intros path H1 H2 H3. rewrite (Hother path H1 H2 H3), Hfiles.
      by rewrite !lookup_insert_ne by done.
    + by rewrite Hcur', Hcur1.
    + rewrite Hcount', Hn, Hw, Ht, Hd, Hi. unfold total_samples.
      cbn [fmap list_fmap sum_list]. unfold id. do 4 f_equal; lia.
  - rewrite (iteration_idle st t Hctl_t Hseg).
    cbn [omap list_omap]. rewrite Hseg.
    by apply IH.
Qed.

(** A whole session: the pass that opens it and the passes that follow
    without a stop token. *)
Lemma session_run (st : state V interp) t0 seg0 rest :
  segment t0 = Some seg0 →
  Forall (λ t, control t ≠ Some "STOP_SESSION") rest →
  (foldl iteration (st, false) (t0 :: rest)).2 = true
  ∧ files (foldl iteration (st, false) (t0 :: rest)).1
      !! signal_path output_dir ("ecg_" +:+ stamp t0)
    = Some (signal_header :: mjoin (signal_rows <$> seg0 :: omap segment rest))
  ∧ files (foldl iteration (st, false) (t0 :: rest)).1
      !! filtered_path output_dir ("ecg_" +:+ stamp t0)
    = Some (signal_header :: mjoin (filtered_rows <$> seg0 :: omap segment rest))
  ∧ (∃ ps, length ps = length (seg0 :: omap segment rest)
           ∧ files (foldl iteration (st, false) (t0 :: rest)).1
               !! annotation_path output_dir ("ecg_" +:+ stamp t0)
             = Some (annotation_header
                     :: zip_with annotation_row (seg0 :: omap segment rest) ps))
  ∧ (∀ path, path ≠ signal_path output_dir ("ecg_" +:+ stamp t0) →
             path ≠ filtered_path output_dir ("ecg_" +:+ stamp t0) →
             path ≠ annotation_path output_dir ("ecg_" +:+ stamp t0) →
       files (foldl iteration (st, false) (t0 :: rest)).1 !! path = files st !! path)
  ∧ current_session (foldl iteration (st, false) (t0 :: rest)).1
    = Some ("ecg_" +:+ stamp t0)
  ∧ counters (foldl iteration (st, false) (t0 :: rest)).1
    = (inference_count st + length (seg0 :: omap segment rest),
       samples_written st + total_samples (seg0 :: omap segment rest),
       Some (now t0), 0%Z, interpreter st).
Proof.
  intros Hseg Hctl. cbn [foldl].
  rewrite (iteration_after_start st t0 seg0 Hseg).
  set (name := "ecg_" +:+ stamp t0).
  destruct (start_session_spec output_dir name (now t0) st)
    as (Hsig & Hfil & Hann & Hcur & Hfiles).
  pose proof (start_session_counters name (now t0) st) as Hcount.
  destruct (session_paths_distinct output_dir name) as (Hsf & Hsa & Hfa).
  set (st1 := start_session output_dir name (now t0) st) in *.
  clearbody st1.
  set (t0' := mk_tick None (Some seg0) (now t0) (stamp t0)).
  edestruct (iteration_in_session st1 t0' seg0 _ _ _
               [signal_header] [signal_header] [annotation_header]
               eq_refl ltac:(done) Hsig Hfil Hann Hsf Hsa Hfa)
    as (Hact & Hfiles2 & Hsig2 & Hfil2 & Hann2 & Hcur2 & Hcount2).
  { rewrite Hfiles, !lookup_insert_ne, lookup_insert_eq by done. done. }
  { rewrite Hfiles, lookup_insert_ne, lookup_insert_eq by done. done. }
  { rewrite Hfiles, lookup_insert_eq. done. }
  destruct (iteration (st1, true) t0') as [st2 active2]. cbn [fst snd] in *.
  subst active2.
  assert (Hcnt1 : inference_count st1 = inference_count st
                  ∧ samples_written st1 = samples_written st
                  ∧ recording_start_time st1 = Some (now t0)
                  ∧ recording_duration st1 = 0%Z
                  ∧ interpreter st1 = interpreter st).
  { unfold counters in Hcount. by injection Hcount as -> -> -> -> ->. }
  destruct Hcnt1 as (Hn1 & Hw1 & Ht1 & Hd1 & Hi1).
  rewrite Hn1, Hw1, Ht1, Hd1, Hi1 in Hcount2.
  assert (Hcnt2 : inference_count st2 = inference_count st + 1
                  ∧ samples_written st2
                    = samples_written st
                      + length (FilteringProcess.timestamp_ms seg0)
                  ∧ recording_start_time st2 = Some (now t0)
                  ∧ recording_duration st2 = 0%Z
                  ∧ interpreter st2 = interpreter st).
  { unfold counters in Hcount2. by injection Hcount2 as -> -> -> -> ->. }
  destruct Hcnt2 as (Hn2 & Hw2 & Ht2 & Hd2 & Hi2).
  destruct (iterations_in_session rest st2 _ _ _
              ([signal_header] ++ signal_rows seg0)
              ([signal_header] ++ filtered_rows seg0)
              ([annotation_header]
               ++ [annotation_row seg0
                     (run (FilteringProcess.processed_signal seg0) st1).1])
              Hctl Hsig2 Hfil2 Hann2 Hsf Hsa Hfa)
    as (Hact' & Hsig' & Hfil' & (ps & Hps & Hann') & Hother & Hcur' & Hcount').
  { rewrite Hfiles2, !lookup_insert_ne, lookup_insert_eq by done. done. }
  { rewrite Hfiles2, lookup_insert_ne, lookup_insert_eq by done. done. }
  { rewrite Hfiles2, lookup_insert_eq. done. }
  cbn [fmap list_fmap mjoin list_join length].
  split_and!; try done.
  - exists ((run (FilteringProcess.processed_signal seg0) st1).1 :: ps).
    split; [cbn [length]; by rewrite Hps|]. by rewrite Hann'.
  - intros path H1 H2 H3. rewrite (Hother path H1 H2 H3), Hfiles2.
    rewrite !lookup_insert_ne by done. rewrite Hfiles.
    by rewrite !lookup_insert_ne by done.
  - by rewrite Hcur', Hcur2.
  - rewrite Hcount', Hn2, Hw2, Ht2, Hd2, Hi2. unfold total_samples.
    cbn [fmap list_fmap sum_list]. unfold id. do 4 f_equal; lia.
Qed.

(** The files of a session when the loop is left. *)
Lemma session_loop_files (st : state V interp) t0 seg0 rest time_end :
  segment t0 = Some seg0 →
  Forall (λ t, control t ≠ Some "STOP_SESSION") rest →
  let name := "ecg_" +:+ stamp t0 in
  let segs := seg0 :: omap segment rest in
  let st' := loop (t0 :: rest) time_end st in
  files st' !! signal_path output_dir name
  = Some (signal_header :: mjoin (signal_rows <$> segs))
  ∧ files st' !! filtered_path output_dir name
    = Some (signal_header :: mjoin (filtered_rows <$> segs))
  ∧ (∃ ps, length ps = length segs
           ∧ files st' !! annotation_path output_dir name
             = Some (annotation_header :: zip_with annotation_row segs ps))
  ∧ (∀ path, path ≠ signal_path output_dir name →
             path ≠ filtered_path output_dir name →
             path ≠ annotation_path output_dir name →
       files st' !! path = files st !! path).
Proof.
  intros Hseg Hctl name segs st'. subst name segs st'. unfold inference_loop.
  destruct (session_run (status_put (INFO, Started) st) t0 seg0 rest Hseg Hctl)
    as (Hact & Hsig & Hfil & Hann & Hother & _ & _).
  destruct (foldl _ _ (t0 :: rest)) as [st1 active1]. cbn [fst snd] in *.
  subst active1.
  destruct (stop_session_closed time_end st1) as (_ & -> & _).
  done.
Qed.

(** X22. A session that is opened by a segment and runs without a stop
    token until the loop is left holds every segment that arrived, in order
    of arrival: the signal file is the header followed by the sample rows of
    all segments, the filtered file likewise, the annotation file is the
    header followed by one row per segment; the files of other sessions are
    as they were before. *)
Theorem session_files_hold_all_segments (st : state V interp) t0 seg0 rest time_end :
  segment t0 = Some seg0 →
  Forall (λ t, control t ≠ Some "STOP_SESSION") rest →
  let name := "ecg_" +:+ stamp t0 in
  let segs := seg0 :: omap segment rest in
  let st' := loop (t0 :: rest) time_end st in
  files st' !! signal_path output_dir name
  = Some (signal_header :: mjoin (signal_rows <$> segs))
  ∧ files st' !! filtered_path output_dir name
    = Some (signal_header :: mjoin (filtered_rows <$> segs))
  ∧ (∃ ps, length ps = length segs
           ∧ files st' !! annotation_path output_dir name
             = Some (annotation_header :: zip_with annotation_row segs ps))
  ∧ (∀ path, path ≠ signal_path output_dir name →
             path ≠ filtered_path output_dir name →
             path ≠ annotation_path output_dir name →
       files st' !! path = files st !! path).
Proof. apply session_loop_files. Qed.

(** *** The flag and the session *)

(** A pass that finds the stop token while a session is active is the pass
    that follows [stop_session] with no session active and no token. *)
Lemma iteration_stop (st : state V interp) t :
  control t = Some "STOP_SESSION" →
  iteration (st, true) t
  = iteration (stop_session (now t) st, false)
      (mk_tick None (segment t) (now t) (stamp t)).
Proof.
  intros Hctl. unfold inference_iteration. cbn [control segment now stamp].
  rewrite Hctl. cbv beta iota. rewrite decide_True by done. done.
Qed.

Lemma iteration_closed_idle (st : state V interp) t :
  segment t = None → iteration (st, false) t = (st, false).
Proof.
  intros Hseg. unfold inference_iteration. rewrite Hseg.
  destruct (control t) as [msg|]; [|done].
  rewrite decide_False; [done|]. by intros [_ ?].
Qed.

Lemma start_session_open name time_now (st : state V interp) :
  session_open output_dir (start_session output_dir name time_now st).
Proof.
  destruct (start_session_spec output_dir name time_now st)
    as (Hsig & Hfil & Hann & Hcur & Hfiles).
  destruct (session_paths_distinct output_dir name) as (Hsf & Hsa & Hfa).
  exists name. rewrite Hfiles. split_and!; try done.
  - rewrite !lookup_insert_ne, lookup_insert_eq by done. done.
  - rewrite lookup_insert_ne, lookup_insert_eq by done. done.
  - rewrite lookup_insert_eq. done.
Qed.

(** A pass within a session, without the stop token, stays within it. *)
Lemma iteration_open_stays (st : state V interp) t :
  session_open output_dir st → control t ≠ Some "STOP_SESSION" →
  (iteration (st, true) t).2 = true
  ∧ session_open output_dir (iteration (st, true) t).1.
Proof.
  intros (name & Hcur & Hsig & Hfil & Hann & [a Ha] & [b Hb] & [c Hc]) Hctl.
  destruct (segment t) as [seg|] eqn:Hseg.
  - destruct (session_paths_distinct output_dir name) as (Hsf & Hsa & Hfa).
    destruct (iteration_in_session st t seg _ _ _ a b c
                Hseg Hctl Hsig Hfil Hann Hsf Hsa Hfa Ha Hb Hc)
      as (Hact & Hfiles & Hs & Hf & Han & Hcur' & _).
    split; [done|]. exists name. rewrite Hfiles, Hs, Hf, Han, Hcur', Hcur.
    split_and!; try done.
    + rewrite !lookup_insert_ne, lookup_insert_eq by done. done.
    + rewrite lookup_insert_ne, lookup_insert_eq by done. done.
    + rewrite lookup_insert_eq. done.
  - rewrite (iteration_idle st t Hctl Hseg). cbn [fst snd].
    split; [done|]. exists name. split_and!; eauto.
Qed.

(** A pass that starts with no session ends with none, or within the
    session it has opened. *)
Lemma iteration_from_closed (st : state V interp) t :
  session_closed st →
  if (iteration (st, false) t).2
  then session_open output_dir (iteration (st, false) t).1
  else session_closed (iteration (st, false) t).1.
Proof.
  intros Hclosed. destruct (segment t) as [seg|] eqn:Hseg.
  - rewrite (iteration_after_start st t seg Hseg).
    destruct (iteration_open_stays
                (start_session output_dir ("ecg_" +:+ stamp t) (now t) st)
                (mk_tick None (Some seg) (now t) (stamp t))
                (start_session_open _ _ _) ltac:(done)) as [-> Hopen].
    exact Hopen.
  - rewrite (iteration_closed_idle st t Hseg). exact Hclosed.
Qed.

Lemma iteration_in_step (s : state V interp * bool) t :
  (if s.2 then session_open output_dir s.1 else session_closed s.1) →
  if (iteration s t).2 then session_open output_dir (iteration s t).1
  else session_closed (iteration s t).1.
Proof.
  destruct s as [st [|]]; cbn [fst snd]; intros Hinv.
  - destruct (decide (control t = Some "STOP_SESSION")) as [Hstop|Hctl].
    + rewrite (iteration_stop st t Hstop).
      apply iteration_from_closed, stop_session_closed.
    + destruct (iteration_open_stays st t Hinv Hctl) as [-> Hopen]. exact Hopen.
  - by apply iteration_from_closed.
Qed.

Lemma iterations_in_step ticks : ∀ s : state V interp * bool,
  (if s.2 then session_open output_dir s.1 else session_closed s.1) →
  if (foldl iteration s ticks).2
  then session_open output_dir (foldl iteration s ticks).1
  else session_closed (foldl iteration s ticks).1.
Proof.
  induction ticks as [|t ticks IH]; intros s Hinv; cbn [foldl]; [done|].
  by apply IH, iteration_in_step.
Qed.

(** X20. The local flag [session_active] and the session are in step all
    along the loop.  Started with no session open, after any number of
    passes, whatever segments and control tokens they found: if the flag is
    set, the stage has a session name and the three files of that name are
    its open files and exist in the output directory; if the flag is not
    set, no file is open, there is no session name and both counters are at
    zero.  And a pass that finds the stop token and no segment always ends
    with the flag cleared and no session open. *)
Theorem session_flag_in_step ticks (st : state V interp) :
  session_closed st →
  let s := foldl iteration (status_put (INFO, Started) st, false) ticks in
  (if s.2 then session_open output_dir s.1 else session_closed s.1)
  ∧ (∀ t, control t = Some "STOP_SESSION" → segment t = None →
       (iteration s t).2 = false ∧ session_closed (iteration s t).1).
Proof.
  intros Hclosed s.
  assert (Hinv : if s.2 then session_open output_dir s.1 else session_closed s.1).
  { apply iterations_in_step. cbn [fst snd]. exact Hclosed. }
  clearbody s. split; [exact Hinv|].
  intros t Hstop Hnone. destruct s as [st' [|]]; cbn [fst snd] in *.
  - rewrite (iteration_stop st' t Hstop), Hnone.
    rewrite iteration_closed_idle by done. cbn [fst snd].
    split; [done|apply stop_session_closed].
  - rewrite (iteration_closed_idle st' t Hnone). done.
Qed.

(** X23. The summary that the stop token brings is right.  When a session
    is opened by a segment, runs without a stop token, and then a pass
    finds the stop token and no segment, that pass ends with the flag
    cleared and no session open, and the last four messages on the status
    queue give the name of the session and its duration, counted from the
    pass that opened it to the pass that closed it; the number of samples
    written, which is the number of time stamps of all its segments; and
    the number of inferences, which is the number of its segments. *)
Theorem session_summary_counts (st : state V interp) t0 seg0 rest tstop :
  session_closed st →
  segment t0 = Some seg0 →
  Forall (λ t, control t ≠ Some "STOP_SESSION") rest →
  control tstop = Some "STOP_SESSION" → segment tstop = None →
  let name := "ecg_" +:+ stamp t0 in
  let segs := seg0 :: omap segment rest in
  let s := foldl iteration (st, false) ((t0 :: rest) ++ [tstop]) in
  s.2 = false
  ∧ session_closed s.1
  ∧ ∃ earlier,
      status_queue s.1
      = earlier
        ++ [(STATUS, Saved (Some name)
                       (if Qeq_bool (now t0) 0 then 0%Z
                        else py_int (now tstop - now t0)));
            (STATUS, SessionStop (Some name));
            (INFO, SamplesWritten (total_samples segs));
            (INFO, InferencesPerformed (length segs))].
Proof.
  intros Hclosed Hseg Hctl Hstop Hnone name segs s. subst name segs s.
  destruct Hclosed as (_ & _ & _ & _ & Hn0 & Hw0).
  rewrite foldl_app.
  destruct (session_run st t0 seg0 rest Hseg Hctl)
    as (Hact & _ & _ & _ & _ & Hcur & Hcount).
  destruct (foldl iteration (st, false) (t0 :: rest)) as [st1 active1].
  cbn [fst snd] in *. subst active1. cbn [foldl].
  rewrite (iteration_stop st1 tstop Hstop), Hnone.
  rewrite iteration_closed_idle by done. cbn [fst snd].
  destruct (stop_session_closed (now tstop) st1) as (Hcl & _ & ->).
  split; [done|]. split; [exact Hcl|].
  exists (status_queue st1).
  assert (Hcnt : inference_count st1 = length (seg0 :: omap segment rest)
                 ∧ samples_written st1 = total_samples (seg0 :: omap segment rest)
                 ∧ recording_start_time st1 = Some (now t0)
                 ∧ recording_duration st1 = 0%Z).
  { unfold counters in Hcount. injection Hcount as -> -> -> -> _.
    rewrite Hn0, Hw0. done. }
  destruct Hcnt as (-> & -> & Ht & Hd).
  unfold started_at. rewrite Ht, Hd, Hcur.
  by destruct (Qeq_bool (now t0) 0).
Qed.

End InferenceStageMore.

Section InferenceExamplesMore.

Import InferenceProcess.

Local Abbreviation pass :=
  (inference_iteration broken_details broken_details broken_set_tensor
     broken_invoke broken_get_tensor "deployment_data").
Local Abbreviation run_loop :=
  (inference_loop broken_details broken_details broken_set_tensor
     broken_invoke broken_get_tensor "deployment_data").
Local Abbreviation infer :=
  (run_inference broken_details broken_details broken_set_tensor
     broken_invoke broken_get_tensor).

Lemma session_flag_in_step_witness :
  session_closed loaded_state
  ∧ let s := foldl pass (status_put (INFO, Started) loaded_state, false)
               [first_tick; next_tick] in
    (if s.2 then session_open "deployment_data" s.1 else session_closed s.1)
    ∧ (∀ t, control t = Some "STOP_SESSION" → segment t = None →
         (pass s t).2 = false ∧ session_closed (pass s t).1).
Proof.
  assert (Hclosed : session_closed loaded_state) by (by repeat split).
  split; [exact Hclosed|].
  exact (session_flag_in_step broken_details broken_details
           broken_set_tensor broken_invoke broken_get_tensor "deployment_data"
           [first_tick; next_tick] loaded_state Hclosed).
Defined.

Lemma segment_in_session_appends_witness :
  let st := (pass (loaded_state, false) first_tick).1 in
  let sig := signal_path "deployment_data" "ecg_041126_101500" in
  let fil := filtered_path "deployment_data" "ecg_041126_101500" in
  let ann := annotation_path "deployment_data" "ecg_041126_101500" in
  let a := signal_header :: signal_rows short_segment in
  let b := signal_header :: filtered_rows short_segment in
  let c := [annotation_header; annotation_row short_segment default_prediction] in
  (pass (st, true) next_tick).2 = true
  ∧ files (pass (st, true) next_tick).1
    = <[ann := c ++ [annotation_row short_segment
                       (infer (FilteringProcess.processed_signal short_segment) st).1]]>
        (<[fil := b ++ filtered_rows short_segment]>
           (<[sig := a ++ signal_rows short_segment]> (files st)))
  ∧ signal_file (pass (st, true) next_tick).1 = Some sig
  ∧ filtered_file (pass (st, true) next_tick).1 = Some fil
  ∧ annotation_file (pass (st, true) next_tick).1 = Some ann
  ∧ current_session (pass (st, true) next_tick).1 = current_session st
  ∧ inference_count (pass (st, true) next_tick).1 = inference_count st + 1
  ∧ samples_written (pass (st, true) next_tick).1
    = samples_written st
      + length (FilteringProcess.timestamp_ms short_segment).
Proof.
  intros st sig fil ann a b c.
  destruct (session_paths_distinct "deployment_data" "ecg_041126_101500")
    as (Hsf & Hsa & Hfa).
  apply (segment_in_session_appends broken_details broken_details
           broken_set_tensor broken_invoke broken_get_tensor "deployment_data"
           st next_tick short_segment sig fil ann a b c);
    try done; vm_compute; reflexivity.
Defined.

Lemma session_files_hold_all_segments_witness :
  let name := "ecg_" +:+ stamp first_tick in
  let segs := short_segment :: omap segment [next_tick] in
  let st' := run_loop (first_tick :: [next_tick]) 1010 loaded_state in
  files st' !! signal_path "deployment_data" name
  = Some (signal_header :: mjoin (signal_rows <$> segs))
  ∧ files st' !! filtered_path "deployment_data" name
    = Some (signal_header :: mjoin (filtered_rows <$> segs))
  ∧ (∃ ps, length ps = length segs
           ∧ files st' !! annotation_path "deployment_data" name
             = Some (annotation_header :: zip_with annotation_row segs ps))
  ∧ (∀ path, path ≠ signal_path "deployment_data" name →
             path ≠ filtered_path "deployment_data" name →
             path ≠ annotation_path "deployment_data" name →
       files st' !! path = files loaded_state !! path).
Proof.
  apply (session_files_hold_all_segments broken_details broken_details
           broken_set_tensor broken_invoke broken_get_tensor "deployment_data"
           loaded_state first_tick short_segment [next_tick] 1010).
  - reflexivity.
  - repeat constructor. discriminate.
Defined.

Lemma session_summary_counts_witness :
  let name := "ecg_" +:+ stamp first_tick in
  let segs := short_segment :: omap segment [next_tick] in
  let s := foldl pass (loaded_state, false)
             ((first_tick :: [next_tick]) ++ [last_tick]) in
  s.2 = false
  ∧ session_closed s.1
  ∧ ∃ earlier,
      status_queue s.1
      = earlier
        ++ [(STATUS, Saved (Some name)
                       (if Qeq_bool (now first_tick) 0 then 0%Z
                        else py_int (now last_tick - now first_tick)));
            (STATUS, SessionStop (Some name));
            (INFO, SamplesWritten (total_samples segs));
            (INFO, InferencesPerformed (length segs))].
Proof.
  apply (session_summary_counts broken_details broken_details
           broken_set_tensor broken_invoke broken_get_tensor "deployment_data"
           loaded_state first_tick short_segment [next_tick] last_tick).
  - by repeat split.
  - reflexivity.
  - repeat constructor. discriminate.
  - reflexivity.
  - reflexivity.
Defined.

End InferenceExamplesMore.

(** ** The record button *)

Section RecordButton.

Import AcquisitionControl.

Lemma start_acquisition_fields io st :
  recording st = false →
  recording (start_acquisition io st).1 = true
  ∧ exiting (start_acquisition io st).1 = exiting st
  ∧ ser_open (start_acquisition io st).1 = ser_open st
  ∧ inf_control_queue (start_acquisition io st).1 = inf_control_queue st
  ∧ filter is_recording_stop (status_queue (start_acquisition io st).1)
    = filter is_recording_stop (status_queue st).
Proof.
  intros Hrec. unfold start_acquisition. rewrite Hrec.
  destruct (in_waiting_before io) as [bytes_before|e]; [|done].
  destruct (reset_input_buffer io) as [[]|e]; [|done].
  set (st1 := if decide (0 < bytes_before) then _ else _).
  assert (H1 : recording st1 = true ∧ exiting st1 = exiting st
               ∧ ser_open st1 = ser_open st
               ∧ inf_control_queue st1 = inf_control_queue st
               ∧ filter is_recording_stop (status_queue st1)
                 = filter is_recording_stop (status_queue st)).
  { unfold st1. case_decide; [|done]. cbn. rewrite filter_app. cbn.
    by rewrite app_nil_r. }
  clearbody st1. destruct H1 as (Hr & He & Hs & Hq & Hf).
  destruct (write_start io) as [[]|e]; [|done].
  destruct (in_waiting_after io) as [waiting|e]; [|done].
  case_decide; [destruct (readline_ack io)|]; try done;
    cbn [fst status_put recording exiting ser_open inf_control_queue status_queue];
    rewrite !filter_app; cbn; rewrite !app_nil_r; done.
Qed.

Lemma stop_acquisition_fields st :
  recording st = true →
  recording (stop_acquisition st) = false
  ∧ exiting (stop_acquisition st) = exiting st
  ∧ ser_open (stop_acquisition st) = ser_open st
  ∧ inf_control_queue (stop_acquisition st) = inf_control_queue st ++ ["STOP_SESSION"]
  ∧ filter is_recording_stop (status_queue (stop_acquisition st))
    = filter is_recording_stop (status_queue st) ++ [(STATUS, RecordingStop)].
Proof.
  intros Hrec. unfold stop_acquisition. rewrite Hrec. cbn.
  rewrite filter_app. done.
Qed.

(** The number of presses, out of [n], that find the recording running. *)
Lemma presses_fold ios : ∀ st,
  exiting st = false →
  let st' := foldl press st ios in
  let stops := if recording st then (length ios + 1) / 2 else length ios / 2 in
  recording st' = xorb (recording st) (Nat.odd (length ios))
  ∧ exiting st' = false
  ∧ inf_control_queue st' = inf_control_queue st ++ replicate stops "STOP_SESSION"
  ∧ filter is_recording_stop (status_queue st')
    = filter is_recording_stop (status_queue st)
      ++ replicate stops (STATUS, RecordingStop).
Proof.
  induction ios as [|io ios IH]; intros st Hex; cbv zeta.
  { cbn [foldl length Nat.odd]. destruct (recording st); cbn;
      by rewrite !app_nil_r. }
  cbn [foldl length].
  assert (Hodd : Nat.odd (S (length ios)) = negb (Nat.odd (length ios))).
  { rewrite Nat.odd_succ. by rewrite <- Nat.negb_odd. }
  assert (Hhalf : (S (length ios) + 1) / 2 = S (length ios / 2)).
  { replace (S (length ios) + 1) with (length ios + 1 * 2) by lia.
    rewrite Nat.div_add by lia. lia. }
  replace (length ios + 1) with (S (length ios)) in IH by lia.
  destruct (recording st) eqn:Hrec.
  - assert (Hp : press st io = stop_acquisition st).
    { unfold press, toggle_recording. by rewrite Hex, Hrec. }
    rewrite Hp.
    destruct (stop_acquisition_fields st Hrec) as (Hr & He & _ & Hq & Hf).
    rewrite Hex in He.
    destruct (IH (stop_acquisition st) He) as (Hr' & He' & Hq' & Hf').
    rewrite Hr in Hr', Hq', Hf'.
    rewrite Hr', He', Hq', Hf', Hq, Hf, Hodd, Hhalf.
    cbn [replicate]. rewrite <- !app_assoc.
    split_and!; try done; by destruct (Nat.odd (length ios)).
  - assert (Hp : press st io = (start_acquisition io st).1).
    { unfold press, toggle_recording. by rewrite Hex, Hrec. }
    rewrite Hp.
    destruct (start_acquisition_fields io st Hrec) as (Hr & He & _ & Hq & Hf).
    rewrite Hex in He.
    destruct (IH (start_acquisition io st).1 He) as (Hr' & He' & Hq' & Hf').
    rewrite Hr in Hr', Hq', Hf'.
    rewrite Hr', He', Hq', Hf', Hq, Hf, Hodd.
    split_and!; try done; by destruct (Nat.odd (length ios)).
Qed.

(** X24. Presses of the record button alternate between start and stop
    whatever the serial port does, because [recording] is set before the
    port is touched: after [n] presses from idle the recording runs exactly
    when [n] is odd, and [n / 2] of the presses were stops, each of which
    put one [STOP_SESSION] on the control queue of the inference stage and
    one [RECORDING_STOP] on the status queue. *)
Theorem presses_alternate ios st :
  exiting st = false → recording st = false →
  let st' := foldl press st ios in
  recording st' = Nat.odd (length ios)
  ∧ inf_control_queue st'
    = inf_control_queue st ++ replicate (length ios / 2) "STOP_SESSION"
  ∧ filter is_recording_stop (status_queue st')
    = filter is_recording_stop (status_queue st)
      ++ replicate (length ios / 2) (STATUS, RecordingStop).
Proof.
  intros Hex Hrec st'. subst st'.
  destruct (presses_fold ios st Hex) as (Hr & _ & Hq & Hf).
  rewrite Hrec in Hr, Hq, Hf. done.
Qed.

Lemma press_when_exiting ios : ∀ st,
  exiting st = true → foldl press st ios = st.
Proof.
  induction ios as [|io ios IH]; intros st Hex; cbn [foldl]; [done|].
  assert (Hp : press st io = st).
  { unfold press, toggle_recording. by rewrite Hex. }
  rewrite Hp. by apply IH.
Qed.

(** X25. [cleanup] ends a running recording exactly once and disarms the
    button: if the recording was running, one [STOP_SESSION] is put on the
    control queue, otherwise none; afterwards [recording] is off, also when
    closing the port raises, and presses of the button change nothing. *)
Theorem cleanup_stops_and_disarms close st ios :
  let st' := (cleanup close st).1 in
  recording st' = false
  ∧ exiting st' = true
  ∧ inf_control_queue st'
    = inf_control_queue st ++ (if recording st then ["STOP_SESSION"] else [])
  ∧ foldl press st' ios = st'.
Proof.
  intros st'.
  assert (Hfields : recording st' = false ∧ exiting st' = true
                    ∧ inf_control_queue st'
                      = inf_control_queue st
                        ++ (if recording st then ["STOP_SESSION"] else [])).
  { subst st'. unfold cleanup. cbv zeta. cbn [recording].
    destruct (recording st) eqn:Hrec.
    - unfold stop_acquisition. cbn [recording negb set_recording status_put
        exiting ser_open status_queue inf_control_queue].
      destruct (ser_open st); [destruct close as [[]|e]|]; done.
    - cbn [ser_open]. rewrite app_nil_r.
      destruct (ser_open st); [destruct close as [[]|e]|]; done. }
  destruct Hfields as (Hr & He & Hq).
  split_and!; try done. by apply press_when_exiting.
Qed.

End RecordButton.

Lemma presses_alternate_witness :
  let st' := foldl AcquisitionControl.press idle_button
               [good_port; good_port; lost_port; good_port; good_port] in
  AcquisitionControl.recording st'
  = Nat.odd (length [good_port; good_port; lost_port; good_port; good_port])
  ∧ AcquisitionControl.inf_control_queue st'
    = AcquisitionControl.inf_control_queue idle_button
      ++ replicate (length [good_port; good_port; lost_port; good_port; good_port] / 2)
           "STOP_SESSION"
  ∧ filter is_recording_stop (AcquisitionControl.status_queue st')
    = filter is_recording_stop (AcquisitionControl.status_queue idle_button)
      ++ replicate (length [good_port; good_port; lost_port; good_port; good_port] / 2)
           (STATUS, AcquisitionControl.RecordingStop).
Proof.
  apply (presses_alternate [good_port; good_port; lost_port; good_port; good_port]
           idle_button); reflexivity.
Defined.

(** ** From the packets to the signal file *)

Section Pipeline.

Context {V : Type} `{FloatOps V} {coeffs interp : Type}.
Variable sp_iirnotch : Q → Q → Q → result coeffs.
Variable sp_remez : nat → list Q → list Q → Q → list Q → result coeffs.
Variable sp_ellipord : Q → Q → Q → Q → result (nat * Q).
Variable sp_ellip_high : nat → Q → Q → Q → result coeffs.
Variable sp_filtfilt : coeffs → list V → result (list V).
Variable get_input_details : interp → result (list nat).
Variable get_output_details : interp → result (list nat).
Variable set_tensor : nat → list V → interp → result interp.
Variable invoke : interp → result interp.
Variable get_tensor : nat → interp → result (list (list V)).
Variable output_dir : string.

Local Abbreviation filter_one :=
  (FilteringProcess.process_segment sp_iirnotch sp_remez sp_ellipord sp_ellip_high
     sp_filtfilt).
Local Abbreviation filter_step :=
  (FilteringProcess.filtering_step sp_iirnotch sp_remez sp_ellipord sp_ellip_high
     sp_filtfilt).
Local Abbreviation filter_all :=
  (FilteringProcess.filtering_loop sp_iirnotch sp_remez sp_ellipord sp_ellip_high
     sp_filtfilt).
Local Abbreviation infer_all :=
  (InferenceProcess.inference_loop get_input_details get_output_details set_tensor
     invoke get_tensor output_dir).

Lemma process_segment_signal_rows seg (p : FilteringProcess.processed_segment V) :
  filter_one seg = Ok p →
  signal_rows p
  = (λ r : Z * Z, [InferenceProcess.CInt r.1; InferenceProcess.CInt r.2])
      <$> zip (SegmentationProcess.timestamp_ms seg)
              (slice (SegmentationProcess.core_start_idx seg)
                     (SegmentationProcess.core_end_idx seg)
                     (SegmentationProcess.extended_adc_value seg)).
Proof.
  unfold FilteringProcess.process_segment. intros Hp.
  apply result_bind_Ok in Hp as (filtered_extended & _ & Hp).
  apply result_bind_Ok in Hp as (normalized_signal & _ & Hp).
  injection Hp as <-. done.
Qed.

Lemma zip_fmap_same {A B C} (f : A → B) (g : A → C) (l : list A) :
  zip (f <$> l) (g <$> l) = (λ x, (f x, g x)) <$> l.
Proof. induction l as [|x l IH]; [done|]. cbn. by rewrite <- IH. Qed.

Lemma window_signal_rows X i (p : FilteringProcess.processed_segment V) :
  filter_one (window_of X i) = Ok p →
  signal_rows p
  = (λ s, [InferenceProcess.CInt (ts_of s); InferenceProcess.CInt (adc_of s)])
      <$> slice (1024 * i) (1024 * i + 1024) X.
Proof.
  intros Hp. rewrite (process_segment_signal_rows _ p Hp).
  rewrite window_of_core_adc.
  unfold window_of. cbn [SegmentationProcess.timestamp_ms].
  by rewrite zip_fmap_same, <- list_fmap_compose.
Qed.

Lemma filtered_windows_rows X (idx : list nat) :
  Forall (λ w, ∃ p, filter_one w = Ok p) (window_of X <$> idx) →
  signal_rows
    <$> omap (λ seg, match filter_one seg with Ok p => Some p | Raise _ => None end)
             (window_of X <$> idx)
  = (λ i, (λ s, [InferenceProcess.CInt (ts_of s); InferenceProcess.CInt (adc_of s)])
            <$> slice (1024 * i) (1024 * i + 1024) X) <$> idx.
Proof.
  induction idx as [|i idx IH]; intros Hall; [done|].
  cbn [fmap list_fmap] in Hall. apply Forall_cons in Hall as [[p Hp] Hall].
  cbn [fmap list_fmap omap list_omap]. rewrite Hp.
  cbn [fmap list_fmap]. f_equal; [by apply window_signal_rows|by apply IH].
Qed.

(** X26. From the packets to the file: when the filter stage processes
    every window and one session takes all of them, the signal file of that
    session is the header followed by one row per sample of the decoded
    stream, time stamp and ADC value as they were decoded, in stream order,
    for the 1024 samples of each of the windows: nothing is repeated at the
    window borders and the overlap samples appear once. *)
Theorem signal_file_is_the_stream packets (st : InferenceProcess.state V interp)
    t0 p0 rest time_end :
  let windows :=
    SegmentationProcess.segment_queue
      (SegmentationProcess.segmentation_loop packets SegmentationProcess.init) in
  Forall (λ w, ∃ p, filter_one w = Ok p) windows →
  InferenceProcess.segment t0 = Some p0 →
  p0 :: omap InferenceProcess.segment rest
  = FilteringProcess.inference_queue (filter_all windows FilteringProcess.init) →
  Forall (λ t, InferenceProcess.control t ≠ Some "STOP_SESSION") rest →
  InferenceProcess.files (infer_all (t0 :: rest) time_end st)
    !! InferenceProcess.signal_path output_dir ("ecg_" +:+ InferenceProcess.stamp t0)
  = Some (InferenceProcess.signal_header
          :: (sample_row <$> take (1024 * length windows) (decode packets))).
Proof.
  intros windows Hall Hseg Hqueue Hctl.
  destruct (session_loop_files get_input_details get_output_details set_tensor
              invoke get_tensor output_dir st t0 p0 rest time_end Hseg Hctl)
    as [-> _].
  do 2 f_equal. rewrite Hqueue. clear Hqueue.
  unfold FilteringProcess.filtering_loop.
  destruct (filtering_fold_outcome sp_iirnotch sp_remez sp_ellipord sp_ellip_high
              sp_filtfilt windows
              (FilteringProcess.status_put (INFO, FilteringProcess.Started)
                 FilteringProcess.init))
    as [-> _].
  cbn [FilteringProcess.status_put FilteringProcess.inference_queue
       FilteringProcess.init app].
  destruct (segmentation_loop_follows packets) as [(_ & _ & _ & Hq & _) _].
  pose proof (segmentation_loop_count packets) as Hlen.
  subst windows. rewrite Hlen. rewrite Hq in Hall |- *.
  rewrite (filtered_windows_rows _ _ Hall).
  rewrite (cores_tile
             (λ s, [InferenceProcess.CInt (ts_of s); InferenceProcess.CInt (adc_of s)])).
  apply list_fmap_ext. intros j s Hs.
  apply lookup_take_Some in Hs as [Hs _].
  destruct (proj1 (Forall_lookup _ _) (decode_in_range packets) j s Hs)
    as [Hts Hadc].
  unfold sample_row, ts_of, adc_of, SegmentationProcess.uint32,
    SegmentationProcess.uint16.
  by rewrite !Z.mod_small.
Qed.

End Pipeline.

Lemma signal_file_is_the_stream_witness :
  InferenceProcess.files
    (InferenceProcess.inference_loop broken_details broken_details broken_set_tensor
       broken_invoke broken_get_tensor "deployment_data"
       (ramp_tick :: []) 1010 loaded_state)
    !! InferenceProcess.signal_path "deployment_data"
         ("ecg_" +:+ InferenceProcess.stamp ramp_tick)
  = Some (InferenceProcess.signal_header
          :: (sample_row
                <$> take (1024 * length (SegmentationProcess.segment_queue
                                           (SegmentationProcess.segmentation_loop
                                              (ramp_packets 5)
                                              SegmentationProcess.init)))
                         (decode (ramp_packets 5)))).
Proof.
  assert (Hw : SegmentationProcess.segment_queue
                 (SegmentationProcess.segmentation_loop (ramp_packets 5)
                    SegmentationProcess.init)
               = [window_of (decode (ramp_packets 5)) 0])
    by (vm_compute; reflexivity).
  apply (signal_file_is_the_stream (V := Q) plain_iirnotch plain_remez plain_ellipord
           plain_ellip_high plain_filtfilt broken_details broken_details
           broken_set_tensor broken_invoke broken_get_tensor "deployment_data"
           (ramp_packets 5) loaded_state ramp_tick ramp_processed [] 1010).
  - rewrite Hw. constructor; [|constructor].
    eexists. vm_compute. reflexivity.
  - reflexivity.
  - rewrite Hw. vm_compute. reflexivity.
  - constructor.
Defined.
